(** * pathpy network visualisation: renderer and time slider

    A shallow embedding of the d3 templates of pathpy's interactive network
    visualisation:

    - [network] (the [define('network', ...)] module): [setupData],
      [filterNodes], [filterEdges], [updateTemporalNodes],
      [filterTemporalEdges], [renderNodes], [renderEdges],
      [renderTemporalEdges], [render], [chart.updateTime],
      [chart.updateFilter], [chart.updateSearch], [chart.updateLayout],
      [chart.updateData], [highlightNode], [unhighlightNode],
      [neighboring], the scales of [setupEuclideanLayout], and the
      [alpha] of the force simulation under [render], [dragstarted] and
      [dragended];
    - [slider] (templates/network/js/slider.js): the scales [x] and
      [x.invert], [update], [step], the three auxiliary handle updates,
      the buttons and the drag of the handles.

    Conventions.  JavaScript numbers are embedded as rationals ([Q]); the
    integers produced by [parseInt] are [Z].  The timestamps and sizes of
    the renderer are only compared and scaled, and are taken exactly.
    The slider is given twice: [Slider] with its arithmetic carried out
    exactly, which is enough for the order of the handles, and [Slider64]
    with every operation rounded to the nearest double ([Double.round]),
    as the engine computes, for the markers it reads off the handles.
    [Network.render] is [render()] on the path on which it completes; the
    module [Run] adds the paths on which it raises, reading the
    coordinates of a node that has none.
    Strings are sequences of bytes, which is what they are when their
    characters are ASCII.  Objects of the payload are
    records whose optional properties are [option] fields ([None] is
    [undefined]).  Node objects are shared between the payload, the
    selections and the links, and some functions mutate them in place: they
    live in a store (the array [allData.nodes]) and are referred to by
    their index in it.  The closure variables of a module become the fields
    of a state record that every operation takes and returns. *)

From Stdlib Require Import QArith Qround Qabs Lqa ZArith String Ascii List.
From stdpp Require Import gmap strings list fin_maps.
Import ListNotations.
Local Open Scope string_scope.
#[local] Set Warnings "-clear-no-such-hyp".

(** ** JavaScript and d3 built-ins used by the two modules *)

Module JS.

(** Errors raised by the built-ins. *)
Inductive Error := TypeError | SyntaxError.

Inductive result (A : Type) : Type :=
| Ok (a : A)
| Throw (e : Error).
Arguments Ok {A} a.
Arguments Throw {A} e.

(** The strings all of whose characters are ASCII: on them a byte is a
    character, as a UTF-16 unit is in the engine. *)
Definition ascii_only (s : string) : bool :=
  forallb (fun c => (nat_of_ascii c <? 128)%nat) (list_ascii_of_string s).

(** [String.prototype.toLowerCase] on strings of ASCII characters, where
    it changes the letters A to Z only.  Strings with other characters
    (their letters have lower cases of their own, and a string is a
    sequence of UTF-16 units, not of bytes) are outside the embedding. *)
Definition lower_ascii (c : ascii) : ascii :=
  let n := nat_of_ascii c in
  if (65 <=? n)%nat && (n <=? 90)%nat then ascii_of_nat (n + 32) else c.

Fixpoint toLowerCase (s : string) : string :=
  match s with
  | EmptyString => EmptyString
  | String c s' => String (lower_ascii c) (toLowerCase s')
  end.

(** *** Regular expressions

    [new RegExp(source)] is embedded for the sources made of ordinary
    characters and of the wildcard [.]; every other syntax character
    ([\ ^ $ * + ? ( ) [ ] { } |]) puts the source outside the embedded
    fragment and [RegExp] answers [None] for it. *)
Inductive atom := Lit (c : ascii) | AnyChar.

Definition syntax_characters : list ascii :=
  list_ascii_of_string "\^$.*+?()[]{}|".

Definition is_syntax_character (c : ascii) : bool :=
  existsb (Ascii.eqb c) syntax_characters.

Definition atom_of (c : ascii) : option atom :=
  if Ascii.eqb c "." then Some AnyChar
  else if is_syntax_character c then None
  else Some (Lit c).

Fixpoint RegExp (source : string) : option (list atom) :=
  match source with
  | EmptyString => Some []
  | String c s' =>
      match atom_of c, RegExp s' with
      | Some a, Some p => Some (a :: p)
      | _, _ => None
      end
  end.

(** [.] matches every character but the line terminators. *)
Definition line_terminator (c : ascii) : bool :=
  Ascii.eqb c (ascii_of_nat 10) || Ascii.eqb c (ascii_of_nat 13).

Definition atom_matches (a : atom) (c : ascii) : bool :=
  match a with
  | Lit x => Ascii.eqb x c
  | AnyChar => negb (line_terminator c)
  end.

Fixpoint match_here (p : list atom) (s : string) : bool :=
  match p, s with
  | [], _ => true
  | _ :: _, EmptyString => false
  | a :: p', String c s' => atom_matches a c && match_here p' s'
  end.

Fixpoint search_from (p : list atom) (s : string) (i : Z) : Z :=
  if match_here p s then i
  else match s with
       | EmptyString => (-1)%Z
       | String _ s' => search_from p s' (i + 1)%Z
       end.

(** [String.prototype.search]: index of the first match, or -1. *)
Definition search (s : string) (p : list atom) : Z := search_from p s 0.

(** What it is for [s] to contain [q] as a substring. *)
Definition includes (s q : string) : Prop :=
  exists pre post, s = pre ++ q ++ post.

(** The atoms of a source without syntax characters. *)
Definition literals (q : string) : list atom := map Lit (list_ascii_of_string q).

Definition ordinary (q : string) : bool :=
  forallb (fun c => negb (is_syntax_character c)) (list_ascii_of_string q).

(** *** Numbers and their formatting *)

Definition Qleb (a b : Q) : bool := Qle_bool a b.
Definition Qltb (a b : Q) : bool := negb (Qle_bool b a).
Definition Qeqb (a b : Q) : bool := Qeq_bool a b.

(** [Number.prototype.toFixed(0)] on a non-negative number below
    [10^21]: the nearest integer, the larger one on a tie.  (From [10^21]
    on [toFixed] prints the number in exponent notation.) *)
Definition toFixed0 (q : Q) : Z := Qfloor (q + (1 # 2)).

Definition digit (d : Z) : ascii := ascii_of_N (48 + Z.to_N d).

(** The decimal digits of [0 <= m < 1000]. *)
Definition small (m : Z) : string :=
  if (m <? 10)%Z then String (digit m) EmptyString
  else if (m <? 100)%Z then
    String (digit (m / 10)) (String (digit (m mod 10)) EmptyString)
  else
    String (digit (m / 100))
      (String (digit (m / 10 mod 10)) (String (digit (m mod 10)) EmptyString)).

Definition padded3 (m : Z) : string :=
  String (digit (m / 100))
    (String (digit (m / 10 mod 10)) (String (digit (m mod 10)) EmptyString)).

(** Decimal digits with a comma between groups of three.  Each level
    divides by 1000, so [Z.log2 n] levels are more than enough. *)
Fixpoint grouped (fuel : nat) (n : Z) : string :=
  match fuel with
  | O => small n
  | S f =>
      if (n <? 1000)%Z then small n
      else grouped f (n / 1000) ++ "," ++ padded3 (n mod 1000)
  end.

(** [d3.format(",.0f")] on a number of magnitude below [10^21]: no
    decimals, thousands separated by commas, a minus sign for a negative
    number that does not round to zero. *)
Definition formatInt (q : Q) : string :=
  let n := toFixed0 (Qabs q) in
  let digits := grouped (Z.to_nat (Z.log2 n)) n in
  if Qltb q 0 && negb (n =? 0)%Z then String "-" digits else digits.

Definition digit_of (c : ascii) : option Z :=
  let n := nat_of_ascii c in
  if (48 <=? n)%nat && (n <=? 57)%nat then Some (Z.of_nat (n - 48)) else None.

(** The longest prefix of decimal digits; [None] (NaN) when there is
    none. *)
Fixpoint parse_digits (s : string) (acc : option Z) : option Z :=
  match s with
  | EmptyString => acc
  | String c s' =>
      match digit_of c with
      | Some d => parse_digits s' (Some (10 * default 0%Z acc + d)%Z)
      | None => acc
      end
  end.

(** [parseInt] of a string without leading blanks or radix prefix (the
    strings [formatInt] produces have neither). *)
Definition parseInt (s : string) : option Z :=
  match s with
  | String "-" s' => Z.opp <$> parse_digits s' None
  | String "+" s' => parse_digits s' None
  | _ => parse_digits s None
  end.

End JS.

(** ** The network renderer *)

(** The time window pushed by the slider: [{past, time, aggregated, future}]. *)
Module TimeWindow.
Record t := mk { past : Z; time : Z; aggregated : Z; future : Z }.
End TimeWindow.

(** A node object of the payload.  [time] appears on a node once a change
    record has been assigned onto it, [radius] is written by [setupData]
    and [searched] by [chart.updateSearch] (a missing flag is falsy). *)
Module Node.
Record t := mk {
  uid : string;
  label : option string;
  group : option string;
  size : option Q;
  color : option string;
  text : option string;
  euclidean : option (Q * Q);
  time : option Q;
  radius : option Q;
  searched : bool
}.
End Node.

(** A change record [{uid, time, ...patch}]. *)
Module Change.
Record t := mk {
  uid : string;
  time : Q;
  label : option string;
  group : option string;
  size : option Q;
  color : option string;
  text : option string;
  euclidean : option (Q * Q)
}.
End Change.

(** A link as the payload has it: [source] and [target] are node ids. *)
Module RawLink.
Record t := mk {
  source : string;
  target : string;
  time : option Q;
  weight : option Q;
  color : option string
}.
End RawLink.

(** A link after [setupData]: [source] and [target] refer to node objects
    (indices in the store) and [uid] is the key of the data join. *)
Module Link.
Record t := mk {
  source : nat;
  target : nat;
  uid : string;
  time : option Q;
  weight : option Q;
  color : option string
}.
End Link.

Module Payload.
Record t := mk {
  nodes : list Node.t;
  links : list RawLink.t;
  changes : list Change.t
}.
End Payload.

Module Data.
Record t := mk {
  nodes : list Node.t;
  links : list Link.t;
  changes : list Change.t
}.
End Data.

(** A [circle.node] element: the node object bound to it, the values its
    transition leads to for [r] and [fill], its classes, and whether an
    exit transition (ending in its removal) is scheduled on it. *)
Module Circle.
Record t := mk {
  datum : nat;
  r : option Q;
  fill : string;
  node_highlight : bool;
  node_search : bool;
  removing : bool
}.
End Circle.

(** A [line.edge] element with the link bound to it and its classes. *)
Module Line.
Record t := mk {
  datum : Link.t;
  edge_active : bool;
  edge_highlight : bool
}.
End Line.

Module Network.
Import JS.

#[global] Instance Node_inhabited : Inhabited Node.t :=
  populate (Node.mk "" None None None None None None None None false).

(** The closure variables of [network(config)].  The two groups of the
    svg are kept as the lists of their elements in document order. *)
Record state := mkState {
  temporal : bool;
  radiusMinSize : Q;
  radiusMaxSize : Q;
  layout : string;
  filter : string;
  time : TimeWindow.t;
  allData : Data.t;
  linkedByIndex : gset string;
  countExtent : option (Q * Q);
  forces : gset string;
  g_nodes : list Circle.t;
  g_edges : list Line.t
}.

(** *** Defaults of optional properties *)

Definition getColor (d : Node.t) : string := default "#99ccff" (Node.color d).
Definition getText (d : Node.t) : string := default " " (Node.text d).
Definition getWeight (d : Link.t) : Q := default 1%Q (Link.weight d).
Definition getSize (d : Node.t) : Q := default 6%Q (Node.size d).
Definition getName (d : Node.t) : string := default (Node.uid d) (Node.label d).

(** *** Radius scale *)

(** [d3.scaleLinear().range(range).domain(domain)], not clamped; a domain
    reduced to one point is sent to the middle of the range. *)
Definition scaleLinear (domain range : Q * Q) (v : Q) : Q :=
  let '(d0, d1) := domain in
  let '(r0, r1) := range in
  if Qeqb d0 d1 then (r0 + (1 # 2) * (r1 - r0))%Q
  else (r0 + (v - d0) / (d1 - d0) * (r1 - r0))%Q.

Definition Qmin (a b : Q) : Q := if Qleb a b then a else b.
Definition Qmax (a b : Q) : Q := if Qleb a b then b else a.

(** [d3.extent]: nothing for an empty array. *)
Definition extent (vs : list Q) : option (Q * Q) :=
  match vs with
  | [] => None
  | v :: vs' => Some (fold_left Qmin vs' v, fold_left Qmax vs' v)
  end.

Definition scaleRadius (s : state) (n : Node.t) : option Q :=
  match countExtent s with
  | Some dom =>
      Some (scaleLinear dom (radiusMinSize s, radiusMaxSize s) (getSize n))
  | None => None
  end.

(** *** Filters *)

(** The selected nodes are kept as references into the store. *)
Definition filterNodes (s : state) (nodesData : list Node.t) : list nat :=
  let newNodesData := seq 0 (length nodesData) in
  if negb (String.eqb (filter s) "all") then
    List.filter
      (fun i =>
         match Node.group (nodesData !!! i) with
         | Some g => String.eqb (filter s) g && negb (String.eqb g "")
         | None => false
         end)
      newNodesData
  else newNodesData.

(** [d3.map(nodesData, d => d.uid)]: a later node replaces an earlier one
    with the same uid. *)
Definition d3_map (store : list Node.t) (nodesData : list nat) : gmap string nat :=
  fold_left (fun m i => <[Node.uid (store !!! i) := i]> m) nodesData ∅.

Definition has (m : gmap string nat) (k : string) : bool :=
  match m !! k with Some _ => true | None => false end.

Definition filterEdges (store : list Node.t) (edgesData : list Link.t)
    (nodesData : list nat) : list Link.t :=
  let nodesMap := d3_map store nodesData in
  List.filter
    (fun d =>
       has nodesMap (Node.uid (store !!! Link.source d))
       && has nodesMap (Node.uid (store !!! Link.target d)))
    edgesData.

(** [Object.assign(node, change)]: every property of the change record
    is written onto the node. *)
Definition assign (obj : Node.t) (n : Change.t) : Node.t :=
  {| Node.uid := Change.uid n;
     Node.label := match Change.label n with Some v => Some v | None => Node.label obj end;
     Node.group := match Change.group n with Some v => Some v | None => Node.group obj end;
     Node.size := match Change.size n with Some v => Some v | None => Node.size obj end;
     Node.color := match Change.color n with Some v => Some v | None => Node.color obj end;
     Node.text := match Change.text n with Some v => Some v | None => Node.text obj end;
     Node.euclidean :=
       match Change.euclidean n with Some v => Some v | None => Node.euclidean obj end;
     Node.time := Some (Change.time n);
     Node.radius := Node.radius obj;
     Node.searched := Node.searched obj |}.

(** [newUpdatedNodes.findIndex(obj => obj.uid == n.uid)], giving the
    reference found at that index. *)
Definition findIndex (store : list Node.t) (nodesData : list nat) (u : string)
    : option nat :=
  List.find (fun i => String.eqb (Node.uid (store !!! i)) u) nodesData.

Definition applyChange (nodesData : list nat) (store : list Node.t) (n : Change.t)
    : list Node.t :=
  match findIndex store nodesData (Change.uid n) with
  | Some i => <[i := assign (store !!! i) n]> store
  | None => store
  end.

(** The array returned is [nodesData] itself; what changes is the store. *)
Definition updateTemporalNodes (s : state) (store : list Node.t)
    (nodesData : list nat) (changesData : list Change.t) : list Node.t :=
  let newChanges :=
    List.filter
      (fun d => Qeqb (Change.time d) (inject_Z (TimeWindow.time (time s))))
      changesData in
  fold_left (applyChange nodesData) newChanges store.

(** Comparisons with a timestamp that may be missing: every comparison
    with [undefined] is false. *)
Definition ge (t : option Q) (b : Z) : bool :=
  match t with Some v => Qleb (inject_Z b) v | None => false end.
Definition gt (t : option Q) (b : Z) : bool :=
  match t with Some v => Qltb (inject_Z b) v | None => false end.
Definition le (t : option Q) (b : Z) : bool :=
  match t with Some v => Qleb v (inject_Z b) | None => false end.
Definition lt (t : option Q) (b : Z) : bool :=
  match t with Some v => Qltb v (inject_Z b) | None => false end.

Definition filterTemporalEdges (s : state) (edgesData : list Link.t) : list Link.t :=
  List.filter
    (fun d =>
       ge (Link.time d) (TimeWindow.past (time s))
       && le (Link.time d) (TimeWindow.future (time s)))
    edgesData.

(** *** Layout

    The force simulation owns the positions of the nodes; of it the
    embedding keeps the names of the forces attached.
    [setupEuclideanLayout] is the function on the path on which every
    node object carries coordinates, and [render] below is [render()] on
    the path on which it completes; the paths on which [render()] raises
    are in the module [Run]. *)

Definition force (name : string) (attach : bool) (fs : gset string) : gset string :=
  if attach then {[name]} ∪ fs else fs ∖ {[name]}.

Definition setupNetworkLayout (fs : gset string) : gset string :=
  force "y" false
    (force "x" false (force "charge" true (force "center" true (force "links" true fs)))).

Definition setupEuclideanLayout (fs : gset string) : gset string :=
  force "y" true
    (force "x" true (force "charge" true (force "links" false (force "center" false fs)))).

(** *** The data joins *)

Definition enterCircle (s : state) (store : list Node.t) (d : nat) : Circle.t :=
  {| Circle.datum := d;
     Circle.r := scaleRadius s (store !!! d);
     Circle.fill := getColor (store !!! d);
     Circle.node_highlight := false;
     Circle.node_search := false;
     Circle.removing := false |}.

Definition updateCircle (s : state) (store : list Node.t) (el : Circle.t) (d : nat)
    : Circle.t :=
  {| Circle.datum := d;
     Circle.r := scaleRadius s (store !!! d);
     Circle.fill := getColor (store !!! d);
     Circle.node_highlight := Circle.node_highlight el;
     Circle.node_search := Circle.node_search el;
     Circle.removing := false |}.

Definition exitCircle (el : Circle.t) : Circle.t :=
  {| Circle.datum := Circle.datum el;
     Circle.r := Some 0%Q;
     Circle.fill := Circle.fill el;
     Circle.node_highlight := Circle.node_highlight el;
     Circle.node_search := Circle.node_search el;
     Circle.removing := true |}.

(** [selectAll('.node').data(nodesData)] joins by index: the i-th circle
    takes the i-th node; circles without a node shrink and are removed
    when their transition ends (until then they stay in the document),
    nodes without a circle get a new one, appended after the others. *)
Fixpoint renderNodes (s : state) (store : list Node.t) (els : list Circle.t)
    (nodesData : list nat) : list Circle.t :=
  match els, nodesData with
  | el :: els', d :: nodesData' =>
      updateCircle s store el d :: renderNodes s store els' nodesData'
  | [], _ => map (enterCircle s store) nodesData
  | _, [] => map exitCircle els
  end.

(** The selection held in the variable [nodes] after a render: the
    circles bound to a node, without the exiting ones. *)
Definition nodes (s : state) : list Circle.t :=
  List.filter (fun el => negb (Circle.removing el)) (g_nodes s).

Definition enterLine (d : Link.t) : Line.t :=
  {| Line.datum := d; Line.edge_active := true; Line.edge_highlight := false |}.

Definition updateLine (el : Line.t) (d : Link.t) : Line.t :=
  {| Line.datum := d;
     Line.edge_active := Line.edge_active el;
     Line.edge_highlight := Line.edge_highlight el |}.

(** d3's keyed join.  [nodeByKeyValue] keeps, for each key, the first
    line that has it (a second line with the same key exits). *)
Definition nodeByKeyValue (els : list Line.t) : gmap string Line.t :=
  list_to_map (map (fun el => (Link.uid (Line.datum el), el)) els).

(** Each datum takes the line of its key, which is then no longer
    available (a second datum with the same key enters); a datum without
    a line enters.  Lines left over exit and are removed at once. *)
Fixpoint bindKey (m : gmap string Line.t) (edgesData : list Link.t) : list Line.t :=
  match edgesData with
  | [] => []
  | d :: edgesData' =>
      match m !! Link.uid d with
      | Some el => updateLine el d :: bindKey (delete (Link.uid d) m) edgesData'
      | None => enterLine d :: bindKey m edgesData'
      end
  end.

(** Entering lines are inserted before the line of the next datum, so the
    lines stand in the order of the data they are bound to. *)
Definition renderEdges (els : list Line.t) (edgesData : list Link.t) : list Line.t :=
  bindKey (nodeByKeyValue els) edgesData.

(** "Disable observed but not active edges": the class [edge_active] is
    taken from a line whose timestamp is in the past or the future part
    of the window. *)
Definition renderTemporalEdges (s : state) (els : list Line.t) : list Line.t :=
  map
    (fun el =>
       let d := Line.datum el in
       {| Line.datum := d;
          Line.edge_active :=
            if (ge (Link.time d) (TimeWindow.past (time s))
                && lt (Link.time d) (TimeWindow.time (time s)))
               || (gt (Link.time d) (TimeWindow.aggregated (time s))
                   && le (Link.time d) (TimeWindow.future (time s)))
            then false else true;
          Line.edge_highlight := Line.edge_highlight el |})
    els.

(** *** render *)

Definition render (s : state) : state :=
  let filteredNodes := filterNodes s (Data.nodes (allData s)) in
  let consideredNodes := filteredNodes in
  let store :=
    if temporal s then
      updateTemporalNodes s (Data.nodes (allData s)) filteredNodes
        (Data.changes (allData s))
    else Data.nodes (allData s) in
  let filteredEdges := filterEdges store (Data.links (allData s)) consideredNodes in
  let considerdEdges :=
    if temporal s then filterTemporalEdges s filteredEdges else filteredEdges in
  let forces' :=
    if String.eqb (layout s) "force" then setupNetworkLayout (forces s)
    else if String.eqb (layout s) "euclidean" then setupEuclideanLayout (forces s)
    else setupNetworkLayout (forces s) in
  let circles := renderNodes s store (g_nodes s) consideredNodes in
  let lines := renderEdges (g_edges s) considerdEdges in
  let lines' := if temporal s then renderTemporalEdges s lines else lines in
  {| temporal := temporal s;
     radiusMinSize := radiusMinSize s;
     radiusMaxSize := radiusMaxSize s;
     layout := layout s;
     filter := filter s;
     time := time s;
     allData :=
       {| Data.nodes := store;
          Data.links := Data.links (allData s);
          Data.changes := Data.changes (allData s) |};
     linkedByIndex := linkedByIndex s;
     countExtent := countExtent s;
     forces := forces';
     g_nodes := circles;
     g_edges := lines' |}.

(** The first line with a given key, in document order. *)
Definition first_with (k : string) (els : list Line.t) : option Line.t :=
  List.find (fun el => String.eqb (Link.uid (Line.datum el)) k) els.

(** The values [render] gives to its local variables, for a state with
    the settings of [s] and the data [data]: the filtered nodes, the store
    after the temporal changes, the edges that are shown. *)
Definition selection (s : state) (data : Data.t) : list nat :=
  filterNodes s (Data.nodes data).

Definition patched (s : state) (data : Data.t) : list Node.t :=
  if temporal s then
    updateTemporalNodes s (Data.nodes data) (selection s data) (Data.changes data)
  else Data.nodes data.

Definition shown (s : state) (data : Data.t) : list Link.t :=
  let filteredEdges :=
    filterEdges (patched s data) (Data.links data) (selection s data) in
  if temporal s then filterTemporalEdges s filteredEdges else filteredEdges.

Definition setupLayout (s : state) (fs : gset string) : gset string :=
  if String.eqb (layout s) "force" then setupNetworkLayout fs
  else if String.eqb (layout s) "euclidean" then setupEuclideanLayout fs
  else setupNetworkLayout fs.

Definition classed (s : state) (els : list Line.t) : list Line.t :=
  if temporal s then renderTemporalEdges s els else els.

(** The variable [edges] after a render. *)
Definition edges (s : state) : list Line.t := g_edges s.

(** *** setupData *)

Definition set_radius (s : state) (n : Node.t) : Node.t :=
  {| Node.uid := Node.uid n; Node.label := Node.label n; Node.group := Node.group n;
     Node.size := Node.size n; Node.color := Node.color n; Node.text := Node.text n;
     Node.euclidean := Node.euclidean n; Node.time := Node.time n;
     Node.radius := scaleRadius s n; Node.searched := Node.searched n |}.

(** [data.links.forEach]: reading [l.source.uid] of a link whose id is
    not a key of [nodesMap] raises a TypeError, which ends the loop. *)
Fixpoint resolveLinks (nodesMap : gmap string nat) (store : list Node.t)
    (ls : list RawLink.t) (index : gset string)
    : result (list Link.t * gset string) :=
  match ls with
  | [] => Ok ([], index)
  | l :: ls' =>
      match nodesMap !! RawLink.source l, nodesMap !! RawLink.target l with
      | Some a, Some b =>
          let uid := Node.uid (store !!! a) ++ "_" ++ Node.uid (store !!! b) in
          match resolveLinks nodesMap store ls' ({[uid]} ∪ index) with
          | Ok (ls'', index') =>
              Ok ({| Link.source := a; Link.target := b; Link.uid := uid;
                     Link.time := RawLink.time l; Link.weight := RawLink.weight l;
                     Link.color := RawLink.color l |} :: ls'', index')
          | Throw e => Throw e
          end
      | _, _ => Throw TypeError
      end
  end.

Definition with_countExtent (s : state) (e : option (Q * Q)) : state :=
  {| temporal := temporal s; radiusMinSize := radiusMinSize s;
     radiusMaxSize := radiusMaxSize s; layout := layout s; filter := filter s;
     time := time s; allData := allData s; linkedByIndex := linkedByIndex s;
     countExtent := e; forces := forces s; g_nodes := g_nodes s;
     g_edges := g_edges s |}.

(** Returns the data with its links resolved, and the state with
    [countExtent] and [linkedByIndex] set. *)
Definition setupData (s : state) (data : Payload.t) : result (state * Data.t) :=
  let s1 := with_countExtent s (extent (map getSize (Payload.nodes data))) in
  let store := map (set_radius s1) (Payload.nodes data) in
  let nodesMap := d3_map store (seq 0 (length store)) in
  match resolveLinks nodesMap store (Payload.links data) (linkedByIndex s1) with
  | Ok (ls, index) =>
      Ok ({| temporal := temporal s1; radiusMinSize := radiusMinSize s1;
             radiusMaxSize := radiusMaxSize s1; layout := layout s1;
             filter := filter s1; time := time s1; allData := allData s1;
             linkedByIndex := index; countExtent := countExtent s1;
             forces := forces s1; g_nodes := g_nodes s1; g_edges := g_edges s1 |},
          {| Data.nodes := store; Data.links := ls;
             Data.changes := Payload.changes data |})
  | Throw e => Throw e
  end.

(** *** The chart and its public functions *)

(** [network(config)]: the state before any data is shown. *)
Definition network (temporal : bool) (radiusMinSize radiusMaxSize : Q)
    (layout : string) : state :=
  {| temporal := temporal; radiusMinSize := radiusMinSize;
     radiusMaxSize := radiusMaxSize; layout := layout; filter := "all";
     time := TimeWindow.mk 0 0 0 0; allData := Data.mk [] [] [];
     linkedByIndex := ∅; countExtent := None; forces := ∅;
     g_nodes := []; g_edges := [] |}.

(** [chart(selector, rawData)]: a new svg with two empty groups. *)
Definition chart (s : state) (rawData : Payload.t) : result state :=
  match setupData s rawData with
  | Ok (s1, data) =>
      Ok (render
            {| temporal := temporal s1; radiusMinSize := radiusMinSize s1;
               radiusMaxSize := radiusMaxSize s1; layout := layout s1;
               filter := filter s1; time := time s1; allData := data;
               linkedByIndex := linkedByIndex s1; countExtent := countExtent s1;
               forces := forces s1; g_nodes := []; g_edges := [] |})
  | Throw e => Throw e
  end.

Definition updateLayout (s : state) (newLayout : string) : state :=
  render
    {| temporal := temporal s; radiusMinSize := radiusMinSize s;
       radiusMaxSize := radiusMaxSize s; layout := newLayout; filter := filter s;
       time := time s; allData := allData s; linkedByIndex := linkedByIndex s;
       countExtent := countExtent s; forces := forces s; g_nodes := g_nodes s;
       g_edges := g_edges s |}.

Definition updateFilter (s : state) (newFilter : string) : state :=
  render
    {| temporal := temporal s; radiusMinSize := radiusMinSize s;
       radiusMaxSize := radiusMaxSize s; layout := layout s; filter := newFilter;
       time := time s; allData := allData s; linkedByIndex := linkedByIndex s;
       countExtent := countExtent s; forces := forces s; g_nodes := g_nodes s;
       g_edges := g_edges s |}.

Definition with_time (s : state) (newTime : TimeWindow.t) : state :=
  {| temporal := temporal s; radiusMinSize := radiusMinSize s;
     radiusMaxSize := radiusMaxSize s; layout := layout s; filter := filter s;
     time := newTime; allData := allData s; linkedByIndex := linkedByIndex s;
     countExtent := countExtent s; forces := forces s; g_nodes := g_nodes s;
     g_edges := g_edges s |}.

Definition updateTime (s : state) (newTime : TimeWindow.t) : state :=
  render (with_time s newTime).

(** [chart.updateSearch]: one step of [nodes.each] on a circle of the
    selection, writing the flag on the node object and the class and
    fill on the circle. *)
Definition set_searched (n : Node.t) (b : bool) : Node.t :=
  {| Node.uid := Node.uid n; Node.label := Node.label n; Node.group := Node.group n;
     Node.size := Node.size n; Node.color := Node.color n; Node.text := Node.text n;
     Node.euclidean := Node.euclidean n; Node.time := Node.time n;
     Node.radius := Node.radius n; Node.searched := b |}.

Definition searchCircle (searchTerm : string) (searchRegEx : list atom)
    (store : list Node.t) (el : Circle.t) : Circle.t * list Node.t :=
  let d := store !!! Circle.datum el in
  let match_ := search (toLowerCase (getName d)) searchRegEx in
  if (0 <? String.length searchTerm)%nat && (0 <=? match_)%Z then
    ({| Circle.datum := Circle.datum el; Circle.r := Circle.r el;
        Circle.fill := "#F38630";
        Circle.node_highlight := Circle.node_highlight el;
        Circle.node_search := true; Circle.removing := Circle.removing el |},
     <[Circle.datum el := set_searched d true]> store)
  else
    ({| Circle.datum := Circle.datum el; Circle.r := Circle.r el;
        Circle.fill := getColor d;
        Circle.node_highlight := Circle.node_highlight el;
        Circle.node_search := false; Circle.removing := Circle.removing el |},
     <[Circle.datum el := set_searched d false]> store).

Fixpoint searchEach (searchTerm : string) (searchRegEx : list atom)
    (els : list Circle.t) (store : list Node.t) : list Circle.t * list Node.t :=
  match els with
  | [] => ([], store)
  | el :: els' =>
      if Circle.removing el then
        let '(els'', store') := searchEach searchTerm searchRegEx els' store in
        (el :: els'', store')
      else
        let '(el', store1) := searchCircle searchTerm searchRegEx store el in
        let '(els'', store') := searchEach searchTerm searchRegEx els' store1 in
        (el' :: els'', store')
  end.

(** The test made on each node by [searchCircle]. *)
Definition hit (searchTerm : string) (searchRegEx : list atom) (d : Node.t) : bool :=
  (0 <? String.length searchTerm)%nat
  && (0 <=? search (toLowerCase (getName d)) searchRegEx)%Z.

(** Two node objects that differ at most by their [searched] flag. *)
Definition same_node (a b : Node.t) : Prop := set_searched a false = set_searched b false.

(** How [nodes.each] leaves the store [b] it received as [a]: the same
    node objects, each with its flag either untouched or set to the
    result of the test. *)
Definition searched_store (q : string) (re : list atom) (a b : list Node.t) : Prop :=
  length b = length a
  /\ forall j, same_node (b !!! j) (a !!! j)
               /\ (Node.searched (b !!! j) = Node.searched (a !!! j)
                   \/ Node.searched (b !!! j) = hit q re (a !!! j)).

(** [None] when the search term is outside the embedded fragment of
    regular expressions. *)
Definition updateSearch (s : state) (searchTerm : string) : option state :=
  match RegExp (toLowerCase searchTerm) with
  | Some searchRegEx =>
      let '(circles, store) :=
        searchEach searchTerm searchRegEx (g_nodes s) (Data.nodes (allData s)) in
      Some {| temporal := temporal s; radiusMinSize := radiusMinSize s;
              radiusMaxSize := radiusMaxSize s; layout := layout s;
              filter := filter s; time := time s;
              allData :=
                {| Data.nodes := store; Data.links := Data.links (allData s);
                   Data.changes := Data.changes (allData s) |};
              linkedByIndex := linkedByIndex s; countExtent := countExtent s;
              forces := forces s; g_nodes := circles; g_edges := g_edges s |}
  | None => None
  end.

End Network.

(** ** The time slider

    The arithmetic is carried out exactly here; [Slider64] below rounds
    it. *)

Module Slider.
Import JS.

(** The closure variables of [sliderMenu] and the [cx] attributes of the
    four handles (the tracks and the label only show these values). *)
Record state := mkState {
  timeSteps : Z;
  config_past : Z;
  config_future : Z;
  config_aggregation : Z;
  pastDelta : Z;
  futureDelta : Z;
  aggregationDelta : Z;
  aggregationShow : bool;
  lookoutShow : bool;
  moving : bool;
  currentValue : Q;
  handle : Q;
  pastHandle : Q;
  futureHandle : Q;
  aggregationHandle : Q
}.

Definition width : Q := 600 - 50 - 50.
Definition targetValue : Q := width.

Definition clamp01 (t : Q) : Q :=
  if Qleb t 0 then 0%Q else if Qleb 1 t then 1%Q else t.

(** [d3.scaleLinear().domain([0, timeSteps]).range([0, targetValue])
    .clamp(true)] and its inverse. *)
Definition x (s : state) (v : Q) : Q :=
  (clamp01 (v / inject_Z (timeSteps s)) * targetValue)%Q.

Definition x_invert (s : state) (p : Q) : Q :=
  (clamp01 (p / targetValue) * inject_Z (timeSteps s))%Q.

(** [parseInt(formatInt(v))]; [formatInt] always prints a digit first
    (after the sign), so the default is never used. *)
Definition int (v : Q) : Z := default 0%Z (parseInt (formatInt v)).

Definition update (value : Q) (sn : state * Network.state)
    : state * Network.state :=
  let '(s, net) := sn in
  let handle' := x s value in
  let pastHandle' :=
    if Qltb (x s (inject_Z (pastDelta s))) (x s value)
    then (x s value - x s (inject_Z (pastDelta s)))%Q else 0%Q in
  let aggregationHandle' :=
    if Qltb (x s value + x s (inject_Z (aggregationDelta s))) width
    then (x s value + x s (inject_Z (aggregationDelta s)))%Q else width in
  let futureHandle' :=
    if Qltb (x s value + x s (inject_Z (aggregationDelta s))
             + x s (inject_Z (futureDelta s))) width
    then (x s value + x s (inject_Z (aggregationDelta s))
          + x s (inject_Z (futureDelta s)))%Q
    else width in
  let s' :=
    {| timeSteps := timeSteps s; config_past := config_past s;
       config_future := config_future s;
       config_aggregation := config_aggregation s;
       pastDelta := pastDelta s; futureDelta := futureDelta s;
       aggregationDelta := aggregationDelta s;
       aggregationShow := aggregationShow s; lookoutShow := lookoutShow s;
       moving := moving s; currentValue := currentValue s;
       handle := handle'; pastHandle := pastHandle';
       futureHandle := futureHandle';
       aggregationHandle := aggregationHandle' |} in
  let newTime :=
    {| TimeWindow.past := int (x_invert s pastHandle');
       TimeWindow.time := int value;
       TimeWindow.aggregated := int (value + inject_Z (aggregationDelta s));
       TimeWindow.future := int (x_invert s futureHandle') |} in
  (s', Network.updateTime net newTime).

Definition with_currentValue (s : state) (v : Q) (m : bool) : state :=
  {| timeSteps := timeSteps s; config_past := config_past s;
     config_future := config_future s;
     config_aggregation := config_aggregation s;
     pastDelta := pastDelta s; futureDelta := futureDelta s;
     aggregationDelta := aggregationDelta s;
     aggregationShow := aggregationShow s; lookoutShow := lookoutShow s;
     moving := m; currentValue := v;
     handle := handle s; pastHandle := pastHandle s;
     futureHandle := futureHandle s;
     aggregationHandle := aggregationHandle s |}.

(** Dragging the primary handle to the abscissa [event_x]. *)
Definition drag (event_x : Q) (sn : state * Network.state)
    : state * Network.state :=
  let s := with_currentValue (fst sn) event_x (moving (fst sn)) in
  update (x_invert s (currentValue s)) (s, snd sn).

(** One tick of the play timer. *)
Definition step (sn : state * Network.state) : state * Network.state :=
  let '(s, net) := update (x_invert (fst sn) (currentValue (fst sn))) sn in
  let currentValue' := (currentValue s + targetValue / inject_Z (timeSteps s))%Q in
  if Qltb targetValue (currentValue' + x s (inject_Z (aggregationDelta s)))
  then (with_currentValue s 0 false, net)
  else (with_currentValue s currentValue' (moving s), net).

Definition with_deltas (s : state) (p f a : Z) (ph fh ah : Q)
    (ashow lshow : bool) : state :=
  {| timeSteps := timeSteps s; config_past := config_past s;
     config_future := config_future s;
     config_aggregation := config_aggregation s;
     pastDelta := p; futureDelta := f; aggregationDelta := a;
     aggregationShow := ashow; lookoutShow := lshow;
     moving := moving s; currentValue := currentValue s;
     handle := handle s; pastHandle := ph; futureHandle := fh;
     aggregationHandle := ah |}.

(** The Aggregate and Lookout buttons. *)
Definition aggregationBtn (sn : state * Network.state) : state * Network.state :=
  let s := fst sn in
  let s' :=
    with_deltas s (pastDelta s) (futureDelta s)
      (if aggregationShow s then 0%Z else config_aggregation s)
      (pastHandle s) (futureHandle s) (aggregationHandle s)
      (negb (aggregationShow s)) (lookoutShow s) in
  update (x_invert s' (currentValue s')) (s', snd sn).

Definition lookoutBtn (sn : state * Network.state) : state * Network.state :=
  let s := fst sn in
  let s' :=
    with_deltas s
      (if lookoutShow s then 0%Z else config_past s)
      (if lookoutShow s then 0%Z else config_future s)
      (aggregationDelta s)
      (pastHandle s) (futureHandle s) (aggregationHandle s)
      (aggregationShow s) (negb (lookoutShow s)) in
  update (x_invert s' (currentValue s')) (s', snd sn).

(** Dragging the three auxiliary handles. *)
Definition pastUpdate (value : Q) (sn : state * Network.state)
    : state * Network.state :=
  let s := fst sn in
  let delta := (int value - int (x_invert s (handle s)))%Z in
  if (delta <=? 0)%Z && Qltb (x s value) (handle s) then
    let s' :=
      with_deltas s (Z.abs delta) (futureDelta s) (aggregationDelta s)
        (x s value) (futureHandle s) (aggregationHandle s)
        (aggregationShow s) (lookoutShow s) in
    update (x_invert s' (currentValue s')) (s', snd sn)
  else sn.

Definition futureUpdate (value : Q) (sn : state * Network.state)
    : state * Network.state :=
  let s := fst sn in
  let delta := (int value - int (x_invert s (aggregationHandle s)))%Z in
  if (0 <=? delta)%Z && Qltb (handle s) (x s value) then
    let s' :=
      with_deltas s (pastDelta s) (Z.abs delta) (aggregationDelta s)
        (pastHandle s) (x s value) (aggregationHandle s)
        (aggregationShow s) (lookoutShow s) in
    update (x_invert s' (currentValue s')) (s', snd sn)
  else sn.

Definition aggregationUpdate (value : Q) (sn : state * Network.state)
    : state * Network.state :=
  let s := fst sn in
  let delta := (int value - int (x_invert s (handle s)))%Z in
  if (0 <=? delta)%Z && Qltb (handle s) (x s value) then
    let futureHandle' :=
      if Qltb (x s value + x s (inject_Z (futureDelta s))) width
      then (x s value + x s (inject_Z (futureDelta s)))%Q else width in
    let s' :=
      with_deltas s (pastDelta s) (futureDelta s) (Z.abs delta)
        (pastHandle s) futureHandle' (x s value)
        (aggregationShow s) (lookoutShow s) in
    update (x_invert s' (currentValue s')) (s', snd sn)
  else sn.

(** [sliderMenu(container, config, network)] before any interaction. *)
Definition sliderMenu (steps past future aggregation : Z) : state :=
  {| timeSteps := if (steps =? 0)%Z then 10%Z else steps;
     config_past := past; config_future := future;
     config_aggregation := aggregation;
     pastDelta := 0; futureDelta := 0; aggregationDelta := 0;
     aggregationShow := false; lookoutShow := false; moving := false;
     currentValue := 0; handle := 0; pastHandle := 0; futureHandle := 0;
     aggregationHandle := 0 |}.

End Slider.

(** ** Double-precision arithmetic

    The numbers of JavaScript are the binary64 numbers of IEEE 754: each
    arithmetic operation gives the representable number nearest to the
    exact result, the one with an even significand on a tie.  [round] is
    that rounding on the rationals: a significand of 53 bits, and a unit
    in the last place that is never below [2^-1074].  Overflow (magnitudes
    from [2^1024] on), NaN, the infinities and the sign of zero are left
    out. *)

Module Double.
Import JS.

Definition pow2 (e : Z) : Q :=
  if (0 <=? e)%Z then inject_Z (2 ^ e) else 1 # Z.to_pos (2 ^ (- e)).

(** The exponent of [a > 0]: the [e] with [2^e <= a < 2^(e+1)]. *)
Definition exponent (a : Q) : Z :=
  let e0 := (Z.log2 (Qnum a) - Z.log2 (Zpos (Qden a)))%Z in
  if Qleb (pow2 e0) a then e0 else (e0 - 1)%Z.

(** The integer nearest to [a >= 0], the even one on a tie. *)
Definition nearest_even (a : Q) : Z :=
  let f := Qfloor a in
  let rest := (a - inject_Z f)%Q in
  if Qltb rest (1 # 2) then f
  else if Qltb (1 # 2) rest then (f + 1)%Z
  else if Z.even f then f else (f + 1)%Z.

Definition round (q : Q) : Q :=
  if Qeqb q 0 then 0%Q
  else
    let a := Qabs q in
    let ulp := pow2 (Z.max (exponent a - 52) (-1074)) in
    let m := (inject_Z (nearest_even (a / ulp)) * ulp)%Q in
    Qred (if Qltb q 0 then - m else m).

Definition add (a b : Q) : Q := round (a + b).
Definition sub (a b : Q) : Q := round (a - b).
Definition mul (a b : Q) : Q := round (a * b).
Definition div (a b : Q) : Q := round (a / b).

(** What one rounding can add or take, in the range of the slider:
    numbers of magnitude up to 2048 are rounded by at most [2^-42]. *)
Definition eps : Q := 1 # 4398046511104.

End Double.

(** ** The time slider in double-precision arithmetic

    [Slider] carries out the arithmetic of the slider exactly.  That is
    what the engine computes when every intermediate result is
    representable, and it is enough for the order of the handles; but the
    markers of the window are read off the handles through [x.invert] and
    rounded to integers, and there the last bit of a number can decide.
    Here every operation is rounded as the engine rounds it. *)

Module Slider64.
Import JS Slider.

(** [clamper(domain)] of d3-scale: [Math.max(0, Math.min(timeSteps, v))]. *)
Definition clamp (s : state) (v : Q) : Q :=
  Network.Qmax 0 (Network.Qmin (inject_Z (timeSteps s)) v).

(** The scale [x]: the value is clamped to the domain, normalized
    ([(v - 0) / (timeSteps - 0)]) and interpolated in the range
    ([0 * (1 - t) + targetValue * t]).  Its inverse normalizes in the
    range, interpolates in the domain and clamps the result. *)
Definition x (s : state) (v : Q) : Q :=
  Double.mul targetValue (Double.div (clamp s v) (inject_Z (timeSteps s))).

Definition x_invert (s : state) (p : Q) : Q :=
  clamp s (Double.mul (inject_Z (timeSteps s)) (Double.div p targetValue)).

Definition update (value : Q) (sn : state * Network.state)
    : state * Network.state :=
  let '(s, net) := sn in
  let handle' := x s value in
  let pastHandle' :=
    if Qltb (x s (inject_Z (pastDelta s))) (x s value)
    then Double.sub (x s value) (x s (inject_Z (pastDelta s))) else 0%Q in
  let aggregationHandle' :=
    if Qltb (Double.add (x s value) (x s (inject_Z (aggregationDelta s)))) width
    then Double.add (x s value) (x s (inject_Z (aggregationDelta s))) else width in
  let futureHandle' :=
    if Qltb (Double.add (Double.add (x s value) (x s (inject_Z (aggregationDelta s))))
               (x s (inject_Z (futureDelta s)))) width
    then Double.add (Double.add (x s value) (x s (inject_Z (aggregationDelta s))))
           (x s (inject_Z (futureDelta s)))
    else width in
  let s' :=
    {| timeSteps := timeSteps s; config_past := config_past s;
       config_future := config_future s;
       config_aggregation := config_aggregation s;
       pastDelta := pastDelta s; futureDelta := futureDelta s;
       aggregationDelta := aggregationDelta s;
       aggregationShow := aggregationShow s; lookoutShow := lookoutShow s;
       moving := moving s; currentValue := currentValue s;
       handle := handle'; pastHandle := pastHandle';
       futureHandle := futureHandle';
       aggregationHandle := aggregationHandle' |} in
  let newTime :=
    {| TimeWindow.past := int (x_invert s pastHandle');
       TimeWindow.time := int value;
       TimeWindow.aggregated :=
         int (Double.add value (inject_Z (aggregationDelta s)));
       TimeWindow.future := int (x_invert s futureHandle') |} in
  (s', Network.updateTime net newTime).

(** Dragging the primary handle to the abscissa [event_x]. *)
Definition drag (event_x : Q) (sn : state * Network.state)
    : state * Network.state :=
  let s := with_currentValue (fst sn) event_x (moving (fst sn)) in
  update (x_invert s (currentValue s)) (s, snd sn).

(** One tick of the play timer. *)
Definition step (sn : state * Network.state) : state * Network.state :=
  let '(s, net) := update (x_invert (fst sn) (currentValue (fst sn))) sn in
  let currentValue' :=
    Double.add (currentValue s) (Double.div targetValue (inject_Z (timeSteps s))) in
  if Qltb targetValue
       (Double.add currentValue' (x s (inject_Z (aggregationDelta s))))
  then (with_currentValue s 0 false, net)
  else (with_currentValue s currentValue' (moving s), net).

(** The Aggregate and Lookout buttons. *)
Definition aggregationBtn (sn : state * Network.state) : state * Network.state :=
  let s := fst sn in
  let s' :=
    with_deltas s (pastDelta s) (futureDelta s)
      (if aggregationShow s then 0%Z else config_aggregation s)
      (pastHandle s) (futureHandle s) (aggregationHandle s)
      (negb (aggregationShow s)) (lookoutShow s) in
  update (x_invert s' (currentValue s')) (s', snd sn).

Definition lookoutBtn (sn : state * Network.state) : state * Network.state :=
  let s := fst sn in
  let s' :=
    with_deltas s
      (if lookoutShow s then 0%Z else config_past s)
      (if lookoutShow s then 0%Z else config_future s)
      (aggregationDelta s)
      (pastHandle s) (futureHandle s) (aggregationHandle s)
      (aggregationShow s) (negb (lookoutShow s)) in
  update (x_invert s' (currentValue s')) (s', snd sn).

(** Dragging the three auxiliary handles. *)
Definition pastUpdate (value : Q) (sn : state * Network.state)
    : state * Network.state :=
  let s := fst sn in
  let delta := (int value - int (x_invert s (handle s)))%Z in
  if (delta <=? 0)%Z && Qltb (x s value) (handle s) then
    let s' :=
      with_deltas s (Z.abs delta) (futureDelta s) (aggregationDelta s)
        (x s value) (futureHandle s) (aggregationHandle s)
        (aggregationShow s) (lookoutShow s) in
    update (x_invert s' (currentValue s')) (s', snd sn)
  else sn.

Definition futureUpdate (value : Q) (sn : state * Network.state)
    : state * Network.state :=
  let s := fst sn in
  let delta := (int value - int (x_invert s (aggregationHandle s)))%Z in
  if (0 <=? delta)%Z && Qltb (handle s) (x s value) then
    let s' :=
      with_deltas s (pastDelta s) (Z.abs delta) (aggregationDelta s)
        (pastHandle s) (x s value) (aggregationHandle s)
        (aggregationShow s) (lookoutShow s) in
    update (x_invert s' (currentValue s')) (s', snd sn)
  else sn.

Definition aggregationUpdate (value : Q) (sn : state * Network.state)
    : state * Network.state :=
  let s := fst sn in
  let delta := (int value - int (x_invert s (handle s)))%Z in
  if (0 <=? delta)%Z && Qltb (handle s) (x s value) then
    let futureHandle' :=
      if Qltb (Double.add (x s value) (x s (inject_Z (futureDelta s)))) width
      then Double.add (x s value) (x s (inject_Z (futureDelta s))) else width in
    let s' :=
      with_deltas s (pastDelta s) (futureDelta s) (Z.abs delta)
        (pastHandle s) futureHandle' (x s value)
        (aggregationShow s) (lookoutShow s) in
    update (x_invert s' (currentValue s')) (s', snd sn)
  else sn.

(** The play timer left running for [n] ticks: the times it pushes,
    until it stops. *)
Fixpoint play (n : nat) (sn : state * Network.state) : list Z :=
  match n with
  | O => []
  | S n' =>
      if moving (fst sn) then
        let sn' := step sn in
        TimeWindow.time (Network.time (snd sn')) :: play n' sn'
      else []
  end.

(** A time that rounding cannot carry across a tie: it is at least
    [margin] away from the two half-integers around it. *)
Definition margin : Q := 1 # 1000000000.

Definition clear_of_ties (t : Q) : Prop :=
  (inject_Z (toFixed0 t) - (1 # 2) + margin <= t)%Q
  /\ (t <= inject_Z (toFixed0 t) + (1 # 2) - margin)%Q.

End Slider64.

(** ** Scenario of the test list: nodes a, b, c and two timed edges *)

Module Scenario.

Definition node (uid : string) : Node.t :=
  Node.mk uid None None None None None None None None false.

Definition link (source target : string) (time : Z) : RawLink.t :=
  RawLink.mk source target (Some (inject_Z time)) None None.

Definition payload : Payload.t :=
  {| Payload.nodes := [node "a"; node "b"; node "c"];
     Payload.links := [link "a" "b" 1; link "b" "c" 2];
     Payload.changes := [] |}.

Definition config : Network.state := Network.network true 4 16 "force".

(** The network after [chart('#pathpy', payload)]. *)
Definition loaded : Network.state :=
  match Network.chart config payload with
  | JS.Ok s => s
  | JS.Throw _ => config
  end.

(** The slider over ten steps, configured with a lookout of one step on
    each side and no aggregation, after a click on Lookout. *)
Definition slider64 : Slider.state :=
  fst (Slider64.lookoutBtn (Slider.sliderMenu 10 1 1 0, config)).


(** One node whose colour is set to blue at time 1 and to red at
    time 2. *)
Definition recolour (time : Z) (color : string) : Change.t :=
  Change.mk "a" (inject_Z time) None None None (Some color) None None.

Definition recoloured : Payload.t :=
  {| Payload.nodes :=
       [Node.mk "a" None None None (Some "blue") None None None None false];
     Payload.links := [];
     Payload.changes := [recolour 1 "blue"; recolour 2 "red"] |}.

Definition toggling : Network.state :=
  match Network.chart config recoloured with
  | JS.Ok s => s
  | JS.Throw _ => config
  end.

(** One node named abc, for the search. *)
Definition named : Network.state :=
  match Network.chart config (Payload.mk [node "abc"] [] []) with
  | JS.Ok s => s
  | JS.Throw _ => config
  end.





(** Two nodes with euclidean coordinates, joined by a link. *)
Definition placed_node (uid : string) (ex ey : Q) : Node.t :=
  Node.mk uid None None None None None (Some (ex, ey)) None None false.

Definition placed : Payload.t :=
  {| Payload.nodes := [placed_node "a" 0 1; placed_node "b" 2 5];
     Payload.links := [link "a" "b" 1];
     Payload.changes := [] |}.


(** The classes of the rendered lines: the key of each with its
    [edge_active] class. *)
Definition classes (s : Network.state) : list (string * bool) :=
  map (fun el => (Link.uid (Line.datum el), Line.edge_active el)) (Network.edges s).

End Scenario.

(** ** Hovering and loading other data *)

Module Interaction.
Import JS Network.

Definition with_scene (s : state) (circles : list Circle.t) (lines : list Line.t)
    : state :=
  {| temporal := temporal s; radiusMinSize := radiusMinSize s;
     radiusMaxSize := radiusMaxSize s; layout := layout s; filter := filter s;
     time := time s; allData := allData s; linkedByIndex := linkedByIndex s;
     countExtent := countExtent s; forces := forces s; g_nodes := circles;
     g_edges := lines |}.

Definition with_allData (s : state) (data : Data.t) : state :=
  {| temporal := temporal s; radiusMinSize := radiusMinSize s;
     radiusMaxSize := radiusMaxSize s; layout := layout s; filter := filter s;
     time := time s; allData := data; linkedByIndex := linkedByIndex s;
     countExtent := countExtent s; forces := forces s; g_nodes := g_nodes s;
     g_edges := g_edges s |}.

(** [neighboring(a, b)]: one of the two keys is in [linkedByIndex] (its
    own keys; the names inherited from [Object.prototype] are left out). *)
Definition neighboring (s : state) (a b : Node.t) : bool :=
  bool_decide (Node.uid a ++ "_" ++ Node.uid b ∈ linkedByIndex s)
  || bool_decide (Node.uid b ++ "_" ++ Node.uid a ∈ linkedByIndex s).

Definition set_node_highlight (c : Circle.t) (b : bool) : Circle.t :=
  {| Circle.datum := Circle.datum c; Circle.r := Circle.r c;
     Circle.fill := Circle.fill c; Circle.node_highlight := b;
     Circle.node_search := Circle.node_search c;
     Circle.removing := Circle.removing c |}.

Definition set_edge_highlight (el : Line.t) (b : bool) : Line.t :=
  {| Line.datum := Line.datum el; Line.edge_active := Line.edge_active el;
     Line.edge_highlight := b |}.

(** [highlightNode(d)], the mouseover callback of the circle bound to the
    node [d]; [showEdges] is the variable of that name.  The tooltip it
    shows is left out.  The classes are set on the selections [edges] and
    [nodes], which do not hold the exiting circles. *)
Definition highlightNode (showEdges : bool) (s : state) (d : nat) : state :=
  let store := Data.nodes (allData s) in
  if showEdges then
    with_scene s
      (map
         (fun c =>
            if Circle.removing c then c
            else
              let n := store !!! Circle.datum c in
              set_node_highlight c
                (String.eqb (Node.uid (store !!! d)) (Node.uid n)
                 || Node.searched n
                 || neighboring s (store !!! d) n))
         (g_nodes s))
      (map
         (fun el =>
            let l := Line.datum el in
            set_edge_highlight el
              (String.eqb (Node.uid (store !!! Link.source l)) (Node.uid (store !!! d))
               || String.eqb (Node.uid (store !!! Link.target l))
                    (Node.uid (store !!! d))))
         (g_edges s))
  else s.

(** [unhighlightNode()], the mouseout callback. *)
Definition unhighlightNode (s : state) : state :=
  with_scene s
    (map (fun c => if Circle.removing c then c else set_node_highlight c false)
       (g_nodes s))
    (map (fun el => set_edge_highlight el false) (g_edges s)).

(** [chart.updateData]: like [chart], but in the svg that is there. *)
Definition updateData (s : state) (newData : Payload.t) : result state :=
  match setupData s newData with
  | Ok (s1, data) => Ok (render (with_allData s1 data))
  | Throw e => Throw e
  end.

(** What [setupData] leaves about the links: the key of each is made of
    the uids of its two ends and is in [linkedByIndex]. *)
Definition indexed (s : state) : Prop :=
  forall l, In l (Data.links (allData s)) ->
    let store := Data.nodes (allData s) in
    Link.uid l
    = Node.uid (store !!! Link.source l) ++ "_" ++ Node.uid (store !!! Link.target l)
    /\ Link.uid l ∈ linkedByIndex s.

(** Two scenes that differ at most by the marks of a search: the stores
    hold the same node objects up to their [searched] flags, which agree
    except on nodes bound to a circle of the selection; the circles agree
    except, on the circles of the selection, for the fill and the class
    [node_search]. *)
Definition same_circle (el el1 : Circle.t) : Prop :=
  Circle.datum el1 = Circle.datum el
  /\ Circle.r el1 = Circle.r el
  /\ Circle.node_highlight el1 = Circle.node_highlight el
  /\ Circle.removing el1 = Circle.removing el
  /\ (Circle.removing el = true -> el1 = el).

Definition marks_apart (els els1 : list Circle.t) (store store1 : list Node.t)
    : Prop :=
  length store1 = length store
  /\ (forall j, same_node (store1 !!! j) (store !!! j))
  /\ (forall j, Node.searched (store1 !!! j) <> Node.searched (store !!! j) ->
                exists c, In c els /\ Circle.removing c = false /\ Circle.datum c = j)
  /\ Forall2 same_circle els els1.

(** A link of the payload and the link object [setupData] makes of it:
    its ends are node objects with the ids the payload names, its key is
    made of the two ids, the rest is as it was. *)
Definition resolved (store : list Node.t) (raw : RawLink.t) (l : Link.t) : Prop :=
  Node.uid (store !!! Link.source l) = RawLink.source raw
  /\ Node.uid (store !!! Link.target l) = RawLink.target raw
  /\ Link.uid l = RawLink.source raw ++ "_" ++ RawLink.target raw
  /\ Link.time l = RawLink.time raw
  /\ Link.weight l = RawLink.weight raw
  /\ Link.color l = RawLink.color raw.

End Interaction.

(** ** The events of the slider *)

Module Events.
Import JS Slider.

(** The play button: starts or stops the timer; the position stays. *)
Definition playBtn (sn : state * Network.state) : state * Network.state :=
  (with_currentValue (fst sn) (currentValue (fst sn)) (negb (moving (fst sn))),
   snd sn).

(** What can happen to the slider: a drag of one of the four handles to
    an abscissa, a tick of the timer, a click on one of the buttons. *)
Inductive event :=
| Drag (event_x : Q)
| DragPast (event_x : Q)
| DragFuture (event_x : Q)
| DragAggregation (event_x : Q)
| Tick
| Play
| Aggregate
| Lookout.

(** The timer only ticks while playing; the auxiliary handles are in the
    document, and can be dragged, only while their button is active. *)
Definition fire (sn : state * Network.state) (e : event) : state * Network.state :=
  let s := fst sn in
  match e with
  | Drag event_x => drag event_x sn
  | DragPast event_x =>
      if lookoutShow s then pastUpdate (x_invert s event_x) sn else sn
  | DragFuture event_x =>
      if lookoutShow s then futureUpdate (x_invert s event_x) sn else sn
  | DragAggregation event_x =>
      if aggregationShow s then aggregationUpdate (x_invert s event_x) sn else sn
  | Tick => if moving s then step sn else sn
  | Play => playBtn sn
  | Aggregate => aggregationBtn sn
  | Lookout => lookoutBtn sn
  end.

Definition run (es : list event) (sn : state * Network.state)
    : state * Network.state :=
  fold_left fire es sn.

(** The handles stand in their order on the track. *)
Definition handles_in_order (s : state) : Prop :=
  (0 <= pastHandle s)%Q
  /\ (pastHandle s <= handle s)%Q
  /\ (handle s <= aggregationHandle s)%Q
  /\ (aggregationHandle s <= futureHandle s)%Q
  /\ (futureHandle s <= width)%Q.

Definition deltas_not_negative (s : state) : Prop :=
  (0 <= pastDelta s)%Z /\ (0 <= futureDelta s)%Z /\ (0 <= aggregationDelta s)%Z.

(** What every event keeps: the configured widths and the deltas are not
    negative, and the handles are in order. *)
Definition slider_invariant (s : state) : Prop :=
  (0 <= config_past s)%Z /\ (0 <= config_future s)%Z
  /\ (0 <= config_aggregation s)%Z
  /\ deltas_not_negative s /\ handles_in_order s.

End Events.

(** ** The life of the force simulation *)

Module Simulation.
Import JS.

(** Of [d3.forceSimulation()] the embedding keeps [alpha], [alphaTarget],
    whether its timer runs, and how many times it has dispatched [end]
    (each time [ended] is called).  The positions are left out. *)
Record state := mkState {
  alpha : Q;
  alphaTarget : Q;
  running : bool;
  ends : nat
}.

(** [.alphaMin(0.1)]; [alphaDecay] keeps the default of d3,
    [1 - Math.pow(0.001, 1 / 300)], and is a parameter below. *)
Definition alphaMin : Q := 1 # 10.

(** [d3.forceSimulation()...] followed by [simulation.stop()]. *)
Definition forceSimulation : state :=
  {| alpha := 1; alphaTarget := 0; running := false; ends := 0 |}.

(** One frame of the timer, d3's [step]: [tick] moves [alpha] towards
    [alphaTarget]; then, if [alpha < alphaMin], the timer stops and [end]
    is dispatched. *)
Definition step (alphaDecay : Q) (st : state) : state :=
  let alpha' := (alpha st + (alphaTarget st - alpha st) * alphaDecay)%Q in
  if Qltb alpha' alphaMin then
    {| alpha := alpha'; alphaTarget := alphaTarget st; running := false;
       ends := S (ends st) |}
  else
    {| alpha := alpha'; alphaTarget := alphaTarget st; running := true;
       ends := ends st |}.

(** What happens to the simulation: the end of [render]
    ([simulation.alpha(1).restart()]), the start and the end of a drag of
    a node ([active] is [d3.event.active], the other drags under way),
    and a frame of the timer. *)
Inductive event :=
| Render
| DragStarted (active : bool)
| DragEnded (active : bool)
| Frame.

Definition fire (alphaDecay : Q) (st : state) (e : event) : state :=
  match e with
  | Render =>
      {| alpha := 1; alphaTarget := alphaTarget st; running := true;
         ends := ends st |}
  | DragStarted active =>
      if active then st
      else {| alpha := alpha st; alphaTarget := 2 # 10; running := true;
              ends := ends st |}
  | DragEnded active =>
      if active then st
      else {| alpha := alpha st; alphaTarget := 2 # 10; running := running st;
              ends := ends st |}
  | Frame => if running st then step alphaDecay st else st
  end.

Definition run (alphaDecay : Q) (es : list event) (st : state) : state :=
  fold_left (fire alphaDecay) es st.

(** What holds of the simulation at all times, and what holds of it once
    a drag has started. *)
Definition sound (alphaDecay : Q) (st : state) : Prop :=
  (alphaMin * (1 - alphaDecay) <= alpha st)%Q
  /\ ((alphaTarget st == 0)%Q /\ (running st = true -> (alphaMin <= alpha st)%Q)
      \/ (alphaTarget st == 2 # 10)%Q).

Definition dragged (alphaDecay : Q) (st : state) : Prop :=
  (alphaMin * (1 - alphaDecay) <= alpha st)%Q
  /\ (alphaTarget st == 2 # 10)%Q /\ running st = true.

End Simulation.

(** ** The targets of the euclidean layout *)

Module Euclidean.
Import JS Network.

(** The loop of [setupEuclideanLayout] over [allData.nodes]: reading
    [value.euclidean[0]] on a node without coordinates raises a
    TypeError. *)
Fixpoint coordinates (ns : list Node.t) : result (list Q * list Q) :=
  match ns with
  | [] => Ok ([], [])
  | n :: ns' =>
      match Node.euclidean n with
      | Some (ex, ey) =>
          match coordinates ns' with
          | Ok (xs, ys) => Ok (ex :: xs, ey :: ys)
          | Throw e => Throw e
          end
      | None => Throw TypeError
      end
  end.

(** [xScale(d.euclidean[0])] and [yScale(d.euclidean[1])] for each node,
    in the order of the nodes: the positions the forces [x] and [y] pull
    the nodes to.  Without nodes there is nothing to pull. *)
Definition targets (width height : Q) (ns : list Node.t) : result (list (Q * Q)) :=
  match coordinates ns with
  | Ok (xs, ys) =>
      match extent xs, extent ys with
      | Some domainX, Some domainY =>
          Ok (map
                (fun n =>
                   match Node.euclidean n with
                   | Some (ex, ey) =>
                       (scaleLinear domainX (10, width - 10) ex,
                        scaleLinear domainY (10, height - 10) ey)
                   | None => (0, 0)
                   end)%Q
                ns)
      | _, _ => Ok []
      end
  | Throw e => Throw e
  end.

End Euclidean.

(** ** The renderer as it runs

    [Network.render] follows [render()] on the path on which it
    completes.  There are two places where it can raise a TypeError, which
    ends [render] and the public function that called it; both read the
    coordinates of a node object that has none.

    - [simulation.nodes(consideredNodes)] hands the nodes to every force
      attached.  The forces [x] and [y] are those an earlier
      [setupEuclideanLayout] attached, and their accessors read
      [d.euclidean[0]] and [d.euclidean[1]] on each of the nodes.  The
      forces are then as they were.
    - With the layout ['euclidean'], [setupEuclideanLayout] reads
      [value.euclidean[0]] on every node object of [allData.nodes].  By
      then the forces [center] and [links] are removed and [charge]
      attached; the forces [x] and [y] are not yet touched.

    In both cases the temporal changes are written on the node objects by
    then, and nothing of the scene is redrawn.

    Here every call gives the state it leaves and the error it raised, if
    any. *)

Module Run.
Import JS Network.

Definition without_coordinates (n : Node.t) : bool :=
  match Node.euclidean n with Some _ => false | None => true end.

(** [simulation.nodes(nodesData)] with the forces [fs] attached. *)
Definition simulation_nodes (store : list Node.t) (nodesData : list nat)
    (fs : gset string) : option Error :=
  if (bool_decide ("x" ∈ fs) || bool_decide ("y" ∈ fs))
     && existsb (fun i => without_coordinates (store !!! i)) nodesData
  then Some TypeError
  else None.

(** [setupEuclideanLayout()] on the node objects [store]. *)
Definition setupEuclideanLayout (store : list Node.t) (fs : gset string)
    : gset string * option Error :=
  let fs' := force "charge" true (force "links" false (force "center" false fs)) in
  match Euclidean.coordinates store with
  | Ok _ => (force "y" true (force "x" true fs'), None)
  | Throw e => (fs', Some e)
  end.

Definition render (s : state) : state * option Error :=
  let filteredNodes := filterNodes s (Data.nodes (allData s)) in
  let consideredNodes := filteredNodes in
  let store :=
    if temporal s then
      updateTemporalNodes s (Data.nodes (allData s)) filteredNodes
        (Data.changes (allData s))
    else Data.nodes (allData s) in
  let filteredEdges := filterEdges store (Data.links (allData s)) consideredNodes in
  let considerdEdges :=
    if temporal s then filterTemporalEdges s filteredEdges else filteredEdges in
  let data :=
    {| Data.nodes := store;
       Data.links := Data.links (allData s);
       Data.changes := Data.changes (allData s) |} in
  let raised (fs : gset string) (e : Error) :=
    ({| temporal := temporal s; radiusMinSize := radiusMinSize s;
        radiusMaxSize := radiusMaxSize s; layout := layout s;
        filter := filter s; time := time s; allData := data;
        linkedByIndex := linkedByIndex s; countExtent := countExtent s;
        forces := fs; g_nodes := g_nodes s; g_edges := g_edges s |},
     Some e) in
  match simulation_nodes store consideredNodes (forces s) with
  | Some e => raised (forces s) e
  | None =>
      let '(forces', layoutError) :=
        if String.eqb (layout s) "force" then (setupNetworkLayout (forces s), None)
        else if String.eqb (layout s) "euclidean" then
          setupEuclideanLayout store (forces s)
        else (setupNetworkLayout (forces s), None) in
      match layoutError with
      | Some e => raised forces' e
      | None =>
          let circles := renderNodes s store (g_nodes s) consideredNodes in
          let lines := renderEdges (g_edges s) considerdEdges in
          let lines' := if temporal s then renderTemporalEdges s lines else lines in
          ({| temporal := temporal s; radiusMinSize := radiusMinSize s;
              radiusMaxSize := radiusMaxSize s; layout := layout s;
              filter := filter s; time := time s; allData := data;
              linkedByIndex := linkedByIndex s; countExtent := countExtent s;
              forces := forces'; g_nodes := circles; g_edges := lines' |},
           None)
      end
  end.

(** [chart(selector, rawData)].  [Throw]: [setupData] raised, before
    [allData] was assigned and the svg made. *)
Definition chart (s : state) (rawData : Payload.t) : result (state * option Error) :=
  match setupData s rawData with
  | Ok (s1, data) =>
      Ok (render
            {| temporal := temporal s1; radiusMinSize := radiusMinSize s1;
               radiusMaxSize := radiusMaxSize s1; layout := layout s1;
               filter := filter s1; time := time s1; allData := data;
               linkedByIndex := linkedByIndex s1; countExtent := countExtent s1;
               forces := forces s1; g_nodes := []; g_edges := [] |})
  | Throw e => Throw e
  end.

Definition updateLayout (s : state) (newLayout : string) : state * option Error :=
  render
    {| temporal := temporal s; radiusMinSize := radiusMinSize s;
       radiusMaxSize := radiusMaxSize s; layout := newLayout; filter := filter s;
       time := time s; allData := allData s; linkedByIndex := linkedByIndex s;
       countExtent := countExtent s; forces := forces s; g_nodes := g_nodes s;
       g_edges := g_edges s |}.

Definition updateFilter (s : state) (newFilter : string) : state * option Error :=
  render
    {| temporal := temporal s; radiusMinSize := radiusMinSize s;
       radiusMaxSize := radiusMaxSize s; layout := layout s; filter := newFilter;
       time := time s; allData := allData s; linkedByIndex := linkedByIndex s;
       countExtent := countExtent s; forces := forces s; g_nodes := g_nodes s;
       g_edges := g_edges s |}.

Definition updateTime (s : state) (newTime : TimeWindow.t) : state * option Error :=
  render (with_time s newTime).

(** [chart.updateData(newData)].  [Throw]: [setupData] raised, before
    [allData] was assigned. *)
Definition updateData (s : state) (newData : Payload.t)
    : result (state * option Error) :=
  match setupData s newData with
  | Ok (s1, data) => Ok (render (Interaction.with_allData s1 data))
  | Throw e => Throw e
  end.

End Run.

(** * Properties *)

(** ** Formatting and parsing integers *)

Section Formatting.
Import JS.

Lemma Qleb_true (a b : Q) : Qleb a b = true <-> (a <= b)%Q.
Proof. apply Qle_bool_iff. Qed.

Lemma Qleb_false (a b : Q) : Qleb a b = false <-> (b < a)%Q.
Proof.
  unfold Qleb. split; intros H.
  - apply Qnot_le_lt. intros Hle. apply Qle_bool_iff in Hle. congruence.
  - destruct (Qle_bool a b) eqn:E; [|reflexivity].
    apply Qle_bool_iff in E. exfalso. apply (Qlt_not_le _ _ H E).
Qed.

Lemma Qltb_true (a b : Q) : Qltb a b = true <-> (a < b)%Q.
Proof.
  unfold Qltb. rewrite negb_true_iff. apply (Qleb_false b a).
Qed.

Lemma Qltb_false (a b : Q) : Qltb a b = false <-> (b <= a)%Q.
Proof.
  unfold Qltb. rewrite negb_false_iff. apply (Qleb_true b a).
Qed.

Lemma Qfloor_unique (q : Q) (z : Z) :
  (inject_Z z <= q)%Q -> (q < inject_Z (z + 1))%Q -> Qfloor q = z.
Proof.
  intros Hlo Hhi.
  assert (H1 : (z <= Qfloor q)%Z).
  { rewrite <- (Qfloor_Z z). apply Qfloor_resp_le. exact Hlo. }
  assert (H2 : (Qfloor q < z + 1)%Z).
  { rewrite Zlt_Qlt. eapply Qle_lt_trans; [apply Qfloor_le | exact Hhi]. }
  lia.
Qed.

Lemma toFixed0_Z (z : Z) : toFixed0 (inject_Z z) = z.
Proof.
  unfold toFixed0. apply Qfloor_unique.
  - lra.
  - rewrite inject_Z_plus. change (inject_Z 1) with 1%Q. lra.
Qed.

Lemma toFixed0_plus_Z (q : Q) (z : Z) :
  toFixed0 (q + inject_Z z) = (toFixed0 q + z)%Z.
Proof.
  unfold toFixed0. apply Qfloor_unique.
  - rewrite inject_Z_plus.
    pose proof (Qfloor_le (q + (1 # 2))). lra.
  - rewrite !inject_Z_plus. change (inject_Z 1) with 1%Q.
    pose proof (Qlt_floor (q + (1 # 2))) as H.
    rewrite inject_Z_plus in H. change (inject_Z 1) with 1%Q in H. lra.
Qed.

Lemma toFixed0_le (a b : Q) : (a <= b)%Q -> (toFixed0 a <= toFixed0 b)%Z.
Proof. intros H. unfold toFixed0. apply Qfloor_resp_le. lra. Qed.

Lemma toFixed0_comp (a b : Q) : (a == b)%Q -> toFixed0 a = toFixed0 b.
Proof. intros H. unfold toFixed0. apply Qfloor_comp. rewrite H. reflexivity. Qed.

Lemma toFixed0_nonneg (q : Q) : (0 <= q)%Q -> (0 <= toFixed0 q)%Z.
Proof. intros H. rewrite <- (toFixed0_Z 0). apply toFixed0_le. exact H. Qed.

Lemma digit_of_digit (d : Z) : (0 <= d <= 9)%Z -> digit_of (digit d) = Some d.
Proof.
  intros H.
  assert (Hd : (d = 0 \/ d = 1 \/ d = 2 \/ d = 3 \/ d = 4 \/ d = 5 \/ d = 6
                \/ d = 7 \/ d = 8 \/ d = 9)%Z) by lia.
  repeat (destruct Hd as [-> | Hd]; [reflexivity|]). subst d. reflexivity.
Qed.

(** Below a thousand there is no comma and [parseInt] reads the number
    back. *)
Lemma parseInt_small (n : Z) : (0 <= n < 1000)%Z -> parseInt (small n) = Some n.
Proof.
  intros H.
  assert (Hall : forallb
            (fun k => match parseInt (small (Z.of_nat k)) with
                      | Some m => (m =? Z.of_nat k)%Z
                      | None => false
                      end) (seq 0 1000) = true) by (vm_compute; reflexivity).
  rewrite forallb_forall in Hall.
  specialize (Hall (Z.to_nat n)).
  rewrite Z2Nat.id in Hall by lia.
  assert (Hin : In (Z.to_nat n) (seq 0 1000)) by (apply in_seq; lia).
  specialize (Hall Hin).
  destruct (parseInt (small n)) as [m|]; [|discriminate].
  apply Z.eqb_eq in Hall. congruence.
Qed.

Lemma grouped_small (fuel : nat) (n : Z) : (n < 1000)%Z -> grouped fuel n = small n.
Proof.
  intros H. destruct fuel; simpl; [reflexivity|].
  destruct (n <? 1000)%Z eqn:E; [reflexivity|]. apply Z.ltb_ge in E. lia.
Qed.

Lemma formatInt_small (q : Q) :
  (0 <= q)%Q -> (toFixed0 q < 1000)%Z ->
  parseInt (formatInt q) = Some (toFixed0 q).
Proof.
  intros Hq Hlt. unfold formatInt.
  assert (Hneg : Qltb q 0 = false) by (apply Qltb_false; exact Hq).
  rewrite Hneg. simpl.
  assert (Habs : toFixed0 (Qabs q) = toFixed0 q).
  { apply toFixed0_comp. apply Qabs_pos. exact Hq. }
  rewrite Habs, grouped_small by exact Hlt.
  apply parseInt_small. split; [apply toFixed0_nonneg; exact Hq | exact Hlt].
Qed.

(** What [formatInt] prints always starts with a digit, after the sign if
    there is one: [parseInt] never answers NaN on it. *)
Lemma small_head (m : Z) :
  (0 <= m < 1000)%Z ->
  exists c rest d, small m = String c rest /\ digit_of c = Some d.
Proof.
  intros H. unfold small.
  destruct (m <? 10)%Z eqn:E1; [|destruct (m <? 100)%Z eqn:E2].
  - apply Z.ltb_lt in E1. eexists _, _, _. split; [reflexivity|].
    apply digit_of_digit. lia.
  - apply Z.ltb_ge in E1. apply Z.ltb_lt in E2.
    eexists _, _, _. split; [reflexivity|]. apply digit_of_digit.
    split; [apply Z.div_pos; lia | ].
    assert (m / 10 < 10)%Z by (apply Z.div_lt_upper_bound; lia). lia.
  - apply Z.ltb_ge in E2.
    eexists _, _, _. split; [reflexivity|]. apply digit_of_digit.
    split; [apply Z.div_pos; lia | ].
    assert (m / 100 < 10)%Z by (apply Z.div_lt_upper_bound; lia). lia.
Qed.

Lemma grouped_head (fuel : nat) :
  forall n, (0 <= n)%Z -> (Z.log2 n <= Z.of_nat fuel)%Z ->
  exists c rest d, grouped fuel n = String c rest /\ digit_of c = Some d.
Proof.
  induction fuel as [|f IH]; intros n Hn Hlog.
  - simpl. apply small_head.
    assert (n < 2)%Z; [|lia].
    destruct (Z_lt_le_dec n 2) as [Hlt|Hge]; [exact Hlt|].
    pose proof (Z.log2_le_mono 2 n Hge) as H2.
    change (Z.log2 2) with 1%Z in H2. simpl in Hlog. lia.
  - simpl. destruct (n <? 1000)%Z eqn:E.
    + apply Z.ltb_lt in E. apply small_head. lia.
    + apply Z.ltb_ge in E.
      assert (Hm : (1 <= n / 1000)%Z) by (apply Z.div_le_lower_bound; lia).
      destruct (IH (n / 1000)%Z) as (c & rest & d & Heq & Hd).
      * lia.
      * assert (Hdouble : (2 * (n / 1000) <= n)%Z).
        { pose proof (Z.mul_div_le n 1000). lia. }
        apply Z.log2_le_mono in Hdouble.
        rewrite Z.log2_double in Hdouble by lia. lia.
      * exists c, (rest ++ "," ++ padded3 (n mod 1000)), d.
        rewrite Heq. split; [reflexivity | exact Hd].
Qed.

Lemma parse_digits_Some (s : string) :
  forall z, is_Some (parse_digits s (Some z)).
Proof.
  induction s as [|c s IH]; intros z; simpl.
  - eauto.
  - destruct (digit_of c); [apply IH | eauto].
Qed.

Lemma parseInt_digit_first (c : ascii) (rest : string) (d : Z) :
  digit_of c = Some d -> is_Some (parseInt (String c rest)).
Proof.
  intros Hd.
  assert (Hparse : is_Some (parse_digits (String c rest) None)).
  { simpl. rewrite Hd. apply parse_digits_Some. }
  unfold parseInt.
  destruct c as [[] [] [] [] [] [] [] []];
    solve [exact Hparse | vm_compute in Hd; discriminate Hd].
Qed.

Lemma parseInt_formatInt_number (q : Q) : is_Some (parseInt (formatInt q)).
Proof.
  unfold formatInt.
  set (n := toFixed0 (Qabs q)).
  assert (Hn : (0 <= n)%Z) by (apply toFixed0_nonneg, Qabs_nonneg).
  destruct (grouped_head (Z.to_nat (Z.log2 n)) n Hn) as (c & rest & d & Heq & Hd).
  { rewrite Z2Nat.id; [lia | apply Z.log2_nonneg]. }
  rewrite Heq.
  destruct (Qltb q 0 && negb (n =? 0)%Z).
  - unfold parseInt.
    assert (Hparse : is_Some (parse_digits (String c rest) None)).
    { simpl. rewrite Hd. apply parse_digits_Some. }
    destruct Hparse as [z Hz]. rewrite Hz. simpl. eauto.
  - eapply parseInt_digit_first. exact Hd.
Qed.

End Formatting.

(** ** Reading integers off the slider *)

Section SliderWindow.
Import JS Slider.

Lemma clamp01_range (t : Q) : (0 <= clamp01 t <= 1)%Q.
Proof.
  unfold clamp01.
  destruct (Qleb t 0) eqn:E0; [lra|]. apply Qleb_false in E0.
  destruct (Qleb 1 t) eqn:E1; [lra|]. apply Qleb_false in E1. lra.
Qed.

Lemma int_toFixed0 (q : Q) :
  (0 <= q)%Q -> (toFixed0 q < 1000)%Z -> int q = toFixed0 q.
Proof. intros H0 H1. unfold int. rewrite formatInt_small by assumption. reflexivity. Qed.

End SliderWindow.

(** ** Double-precision arithmetic *)

Section Rounding.
Import JS Double.

Lemma pow2_pos (e : Z) : (0 < pow2 e)%Q.
Proof.
  unfold pow2. destruct (0 <=? e)%Z eqn:E.
  - apply Z.leb_le in E. change 0%Q with (inject_Z 0). rewrite <- Zlt_Qlt.
    apply Z.pow_pos_nonneg; lia.
  - reflexivity.
Qed.

Lemma pow2_small (e : Z) : (e <= -41)%Z -> (pow2 e <= 2 * eps)%Q.
Proof.
  intros He. unfold pow2. rewrite (proj2 (Z.leb_gt 0 e)) by lia.
  assert (Hpow : (2 ^ 41 <= 2 ^ (- e))%Z) by (apply Z.pow_le_mono_r; lia).
  assert (Hid : Z.pos (Z.to_pos (2 ^ (- e))) = (2 ^ (- e))%Z).
  { apply Z2Pos.id. change (2 ^ 41)%Z with 2199023255552%Z in Hpow. lia. }
  unfold Qle, eps. cbn [Qnum Qden Qmult Qmult' Z.mul Pos.mul].
  change (Qnum (2 * (1 # 4398046511104))) with 2%Z.
  change (Qden (2 * (1 # 4398046511104))) with 4398046511104%positive.
  rewrite Hid. change (2 ^ 41)%Z with 2199023255552%Z in Hpow. lia.
Qed.

Lemma exponent_le (a : Q) : (0 < a)%Q -> (a <= 2048)%Q -> (exponent a <= 11)%Z.
Proof.
  intros H0 H1. destruct a as [n d].
  unfold Qlt in H0. unfold Qle in H1. cbn [Qnum Qden] in H0, H1.
  assert (Hn : (0 < n)%Z) by lia.
  assert (Hle : (n <= Z.pos d * 2 ^ 11)%Z) by (change (2 ^ 11)%Z with 2048%Z; lia).
  apply Z.log2_le_mono in Hle.
  rewrite Z.log2_mul_pow2 in Hle by lia.
  unfold exponent. cbn [Qnum Qden].
  destruct (Qleb _ _); lia.
Qed.

Lemma nearest_even_near (a : Q) :
  (- (1 # 2) <= inject_Z (nearest_even a) - a <= 1 # 2)%Q.
Proof.
  pose proof (Qfloor_le a) as Hlo. pose proof (Qlt_floor a) as Hhi.
  rewrite inject_Z_plus in Hhi. change (inject_Z 1) with 1%Q in Hhi.
  unfold nearest_even.
  destruct (Qltb (a - inject_Z (Qfloor a)) (1 # 2)) eqn:E1.
  - apply Qltb_true in E1. lra.
  - apply Qltb_false in E1.
    destruct (Qltb (1 # 2) (a - inject_Z (Qfloor a))) eqn:E2.
    + apply Qltb_true in E2. rewrite inject_Z_plus. change (inject_Z 1) with 1%Q. lra.
    + apply Qltb_false in E2.
      destruct (Z.even (Qfloor a)).
      * lra.
      * rewrite inject_Z_plus. change (inject_Z 1) with 1%Q. lra.
Qed.

Lemma nearest_even_nonneg (a : Q) : (0 <= a)%Q -> (0 <= nearest_even a)%Z.
Proof.
  intros Ha.
  assert (Hf : (0 <= Qfloor a)%Z).
  { rewrite <- (Qfloor_Z 0). apply Qfloor_resp_le. exact Ha. }
  unfold nearest_even. repeat destruct (Qltb _ _); try destruct (Z.even _); lia.
Qed.

(** In the range of the slider one rounding moves a number by [eps] at
    most. *)
Lemma round_near (q : Q) :
  (-2048 <= q <= 2048)%Q -> (- eps <= round q - q <= eps)%Q.
Proof.
  intros Hq. unfold round.
  destruct (Qeqb q 0) eqn:E0.
  - apply Qeq_bool_eq in E0. unfold eps. lra.
  - assert (Hne : ~ (q == 0)%Q).
    { intros H. apply Qeq_eq_bool in H. unfold Qeqb in E0. congruence. }
    cbv zeta. rewrite Qred_correct.
    set (a := Qabs q).
    assert (Ha0 : (0 < a)%Q).
    { pose proof (Qabs_nonneg q) as Hn. fold a in Hn.
      destruct (Qlt_le_dec 0 a) as [H|H]; [exact H|].
      exfalso. apply Hne.
      assert (Hz : (a == 0)%Q) by lra.
      unfold a in Hz. destruct (Qlt_le_dec q 0) as [Hneg|Hpos].
      - rewrite Qabs_neg in Hz by lra. lra.
      - rewrite Qabs_pos in Hz by lra. exact Hz. }
    assert (Ha1 : (a <= 2048)%Q).
    { unfold a. apply Qabs_Qle_condition. lra. }
    set (E := Z.max (exponent a - 52) (-1074)).
    assert (HE : (E <= -41)%Z).
    { pose proof (exponent_le a Ha0 Ha1). unfold E. lia. }
    pose proof (pow2_pos E) as Hu0. pose proof (pow2_small E HE) as Hu1.
    set (ulp := pow2 E) in *.
    pose proof (nearest_even_near (a / ulp)) as Hm.
    set (m := inject_Z (nearest_even (a / ulp))) in *.
    assert (Hy : (a / ulp * ulp == a)%Q) by (field; lra).
    set (y := (a / ulp)%Q) in *.
    assert (Hprod : (- eps <= m * ulp - a <= eps)%Q).
    { assert (Heq : (m * ulp - a == (m - y) * ulp)%Q) by (rewrite <- Hy; ring).
      rewrite Heq.
      assert (H1 : ((m - y) * ulp <= (1 # 2) * ulp)%Q)
        by (apply Qmult_le_compat_r; lra).
      assert (H2 : (- (1 # 2) * ulp <= (m - y) * ulp)%Q)
        by (apply Qmult_le_compat_r; lra).
      unfold eps in *. lra. }
    destruct (Qltb q 0) eqn:Eneg.
    + apply Qltb_true in Eneg.
      assert (Hq' : (a == - q)%Q) by (unfold a; apply Qabs_neg; lra).
      lra.
    + apply Qltb_false in Eneg.
      assert (Hq' : (a == q)%Q) by (unfold a; apply Qabs_pos; lra).
      lra.
Qed.

Lemma round_nonneg (q : Q) : (0 <= q)%Q -> (0 <= round q)%Q.
Proof.
  intros Hq. unfold round.
  destruct (Qeqb q 0); [lra|].
  cbv zeta. rewrite Qred_correct.
  rewrite (proj2 (Qltb_false q 0)) by exact Hq.
  apply Qmult_le_0_compat.
  - change 0%Q with (inject_Z 0). rewrite <- Zle_Qle.
    apply nearest_even_nonneg.
    apply Qle_shift_div_l; [apply pow2_pos|].
    pose proof (Qabs_nonneg q). lra.
  - apply Qlt_le_weak, pow2_pos.
Qed.

End Rounding.

(** ** The slider in double-precision arithmetic *)

Section Rounded.
Import JS Slider Double.

Variable s : Slider.state.
Hypothesis steps_small : (0 < timeSteps s < 1000)%Z.

Local Abbreviation steps := (inject_Z (timeSteps s)).

Lemma steps_range : (1 <= steps <= 999)%Q.
Proof.
  change 1%Q with (inject_Z 1). change 999%Q with (inject_Z 999).
  rewrite <- !Zle_Qle. lia.
Qed.

Lemma toFixed0_within (q : Q) (z : Z) :
  (inject_Z z - (1 # 2) <= q)%Q -> (q < inject_Z z + (1 # 2))%Q -> toFixed0 q = z.
Proof.
  intros Hlo Hhi. unfold toFixed0. apply Qfloor_unique.
  - lra.
  - rewrite inject_Z_plus. change (inject_Z 1) with 1%Q. lra.
Qed.

(** A number within rounding distance of a time that is clear of the
    ties, moved by a whole number of steps, rounds like that time. *)
Lemma tie_free (q t : Q) (k : Z) :
  Slider64.clear_of_ties t ->
  (- (4100 * eps) <= q - (t + inject_Z k) <= 4100 * eps)%Q ->
  toFixed0 q = (toFixed0 t + k)%Z.
Proof.
  intros [Hlo Hhi] Hq. unfold Slider64.margin in *.
  apply toFixed0_within; rewrite inject_Z_plus; unfold eps in *; lra.
Qed.

Lemma clamp_range (v : Q) : (0 <= Slider64.clamp s v <= steps)%Q.
Proof.
  pose proof steps_range as HS.
  unfold Slider64.clamp, Network.Qmax, Network.Qmin.
  destruct (Qleb steps v) eqn:E1; [apply Qleb_true in E1 | apply Qleb_false in E1].
  - destruct (Qleb 0 steps) eqn:E2;
      [apply Qleb_true in E2 | apply Qleb_false in E2]; lra.
  - destruct (Qleb 0 v) eqn:E2;
      [apply Qleb_true in E2 | apply Qleb_false in E2]; lra.
Qed.

(** Clamping brings a number no further from a point of the domain. *)
Lemma clamp_near (v y d : Q) :
  (0 <= y <= steps)%Q -> (- d <= v - y <= d)%Q ->
  (- d <= Slider64.clamp s v - y <= d)%Q.
Proof.
  intros Hy Hv. pose proof steps_range as HS.
  unfold Slider64.clamp, Network.Qmax, Network.Qmin.
  destruct (Qleb steps v) eqn:E1; [apply Qleb_true in E1 | apply Qleb_false in E1].
  - destruct (Qleb 0 steps) eqn:E2;
      [apply Qleb_true in E2 | apply Qleb_false in E2]; lra.
  - destruct (Qleb 0 v) eqn:E2;
      [apply Qleb_true in E2 | apply Qleb_false in E2]; lra.
Qed.

Lemma clamp_inside (v : Q) : (0 <= v <= steps)%Q -> (Slider64.clamp s v == v)%Q.
Proof.
  intros Hv. pose proof (clamp_near v v 0 Hv). lra.
Qed.

Lemma clamp_above (v : Q) : (steps <= v)%Q -> (Slider64.clamp s v == steps)%Q.
Proof.
  intros Hv. pose proof steps_range as HS.
  unfold Slider64.clamp, Network.Qmax, Network.Qmin.
  rewrite (proj2 (Qleb_true steps v)) by exact Hv.
  rewrite (proj2 (Qleb_true 0 steps)) by lra. reflexivity.
Qed.

(** A difference of two fractions of the track, scaled to the timeline. *)
Lemma scaled (a b d : Q) :
  (- d <= a - b <= d)%Q ->
  (- (1000 * d) <= a * steps - b * steps <= 1000 * d)%Q.
Proof.
  intros H. pose proof steps_range as HS.
  assert (Hd : (0 <= d)%Q) by lra.
  assert (Heq : (a * steps - b * steps == (a - b) * steps)%Q) by ring.
  rewrite Heq.
  assert (H1 : ((a - b) * steps <= d * steps)%Q)
    by (apply Qmult_le_compat_r; lra).
  assert (H2 : (- d * steps <= (a - b) * steps)%Q)
    by (apply Qmult_le_compat_r; lra).
  assert (H3 : (d * steps <= d * 1000)%Q).
  { rewrite (Qmult_comm d steps), (Qmult_comm d 1000).
    apply Qmult_le_compat_r; lra. }
  lra.
Qed.

Lemma scaled_le (a b : Q) : (a <= b)%Q -> (a * steps <= b * steps)%Q.
Proof. intros H. pose proof steps_range. apply Qmult_le_compat_r; lra. Qed.

Lemma scaled_lt (a b : Q) : (a < b)%Q -> (a * steps < b * steps)%Q.
Proof. intros H. pose proof steps_range. apply Qmult_lt_compat_r; lra. Qed.

(** The abscissa of a value: [targetValue] times the fraction of the
    timeline the clamped value stands at, up to two roundings. *)
Lemma x_near (v : Q) :
  exists w,
    (0 <= w <= 1)%Q
    /\ (w * steps == Slider64.clamp s v)%Q
    /\ (- (501 * eps) <= Slider64.x s v - 500 * w <= 501 * eps)%Q
    /\ (0 <= Slider64.x s v)%Q.
Proof.
  pose proof steps_range as HS. pose proof (clamp_range v) as Hc.
  exists (Slider64.clamp s v / steps)%Q.
  set (c := Slider64.clamp s v) in *.
  assert (Hw : (c / steps * steps == c)%Q) by (field; lra).
  set (w := (c / steps)%Q) in *.
  assert (Hw0 : (0 <= w)%Q) by (apply Qle_shift_div_l; lra).
  assert (Hw1 : (w <= 1)%Q) by (apply Qle_shift_div_r; lra).
  unfold Slider64.x, mul, div. fold c. fold w.
  change targetValue with 500%Q.
  assert (R1 : (-2048 <= w <= 2048)%Q) by lra.
  pose proof (round_near w R1) as H1.
  pose proof (round_nonneg w Hw0) as H1'.
  assert (R2 : (-2048 <= 500 * round w <= 2048)%Q) by (unfold eps in *; lra).
  pose proof (round_near (500 * round w) R2) as H2.
  unfold eps in *.
  split; [lra|]. split; [exact Hw|]. split; [lra|].
  apply round_nonneg. lra.
Qed.

Lemma x_upper (v : Q) : (Slider64.x s v <= 500 + 501 * eps)%Q.
Proof. destruct (x_near v) as (w & Hw & _ & Hx & _). unfold eps in *. lra. Qed.

(** The time of an abscissa: before the clamp, the timeline times the
    fraction of the track, up to two roundings. *)
Lemma x_invert_raw (p w d : Q) :
  (-1 <= p <= 501)%Q -> (0 <= d <= 1)%Q -> (- d <= p - 500 * w <= d)%Q ->
  exists i,
    Slider64.x_invert s p = Slider64.clamp s i
    /\ (- (2 * d + 1001 * eps) <= i - w * steps <= 2 * d + 1001 * eps)%Q.
Proof.
  intros Hp Hd Hw. pose proof steps_range as HS.
  unfold Slider64.x_invert, mul, div. change targetValue with 500%Q.
  eexists. split; [reflexivity|].
  assert (Hpp : (p / 500 * 500 == p)%Q) by (field; lra).
  set (pp := (p / 500)%Q) in *.
  assert (R1 : (-2048 <= pp <= 2048)%Q) by lra.
  pose proof (round_near pp R1) as H1. unfold eps in *.
  set (t := round pp) in *.
  assert (Ht : (- (d / 500 + (1 # 4398046511104)) <= t - w
                <= d / 500 + (1 # 4398046511104))%Q).
  { assert (Hdd : (d / 500 * 500 == d)%Q) by (field; lra).
    set (dd := (d / 500)%Q) in *. lra. }
  assert (Hdd : (d / 500 * 500 == d)%Q) by (field; lra).
  set (dd := (d / 500)%Q) in *.
  pose proof (scaled t w _ Ht) as Hs.
  assert (Hwr : (- (1 # 250) <= w <= 1 + (1 # 250))%Q) by lra.
  pose proof (scaled w 0 (1 + (1 # 250))) as Hs0.
  assert (Hz : (0 * steps == 0)%Q) by ring.
  assert (Hrange : (-2048 <= steps * t <= 2048)%Q) by lra.
  pose proof (round_near (steps * t) Hrange) as H2.
  unfold eps in H2. lra.
Qed.

(** Reading a marker off a handle that stands, up to rounding, on the
    abscissa of a time clear of the ties moved by whole steps. *)
Lemma read_tie_free (p w t : Q) (k : Z) :
  Slider64.clear_of_ties t ->
  (0 <= t + inject_Z k <= steps)%Q ->
  (w * steps == t + inject_Z k)%Q ->
  (-1 <= p <= 501)%Q ->
  (- (1505 * eps) <= p - 500 * w <= 1505 * eps)%Q ->
  toFixed0 (Slider64.x_invert s p) = (toFixed0 t + k)%Z.
Proof.
  intros Hclear Hy Hw Hp Hpw.
  destruct (x_invert_raw p w (1505 * eps) Hp) as (i & -> & Hi);
    [unfold eps; lra | exact Hpw |].
  apply (tie_free _ t k Hclear).
  apply clamp_near; [exact Hy|]. unfold eps in *. lra.
Qed.

(** Reading a marker off a handle that stands near the abscissa of a
    whole step. *)
Lemma read_near (p w : Q) (z : Z) :
  (0 <= z <= timeSteps s)%Z ->
  (- (1 # 4) <= w * steps - inject_Z z <= 1 # 4)%Q ->
  (-1 <= p <= 501)%Q ->
  (- (1505 * eps) <= p - 500 * w <= 1505 * eps)%Q ->
  toFixed0 (Slider64.x_invert s p) = z.
Proof.
  intros Hz Hw Hp Hpw.
  destruct (x_invert_raw p w (1505 * eps) Hp) as (i & -> & Hi);
    [unfold eps; lra | exact Hpw |].
  assert (Hz' : (0 <= inject_Z z <= steps)%Q).
  { change 0%Q with (inject_Z 0). rewrite <- !Zle_Qle. exact Hz. }
  pose proof (clamp_near i (inject_Z z) (1 # 3) Hz') as Hc.
  unfold eps in *.
  apply toFixed0_within; lra.
Qed.

Lemma int_x_invert (p : Q) :
  int (Slider64.x_invert s p) = toFixed0 (Slider64.x_invert s p).
Proof.
  unfold Slider64.x_invert.
  match goal with |- context [Slider64.clamp s ?i] => pose proof (clamp_range i) as Hc end.
  apply int_toFixed0; [lra|].
  destruct Hc as [_ Hc]. apply toFixed0_le in Hc. rewrite toFixed0_Z in Hc. lia.
Qed.

Lemma step_of_time (v : Q) :
  (0 <= v <= steps)%Q -> (0 <= toFixed0 v <= timeSteps s)%Z.
Proof.
  intros Hv. split; [apply toFixed0_nonneg; lra|].
  rewrite <- (toFixed0_Z (timeSteps s)). apply toFixed0_le. lra.
Qed.

Lemma delta_nonneg (d : Z) : (0 <= d)%Z -> (0 <= inject_Z d)%Q.
Proof. intros H. change 0%Q with (inject_Z 0). rewrite <- Zle_Qle. exact H. Qed.

(** The clamped delta: the delta itself, or the whole timeline. *)
Lemma clamp_delta (d : Z) :
  (0 <= d)%Z ->
  ((d <= timeSteps s)%Z /\ (Slider64.clamp s (inject_Z d) == inject_Z d)%Q)
  \/ ((timeSteps s < d)%Z /\ (Slider64.clamp s (inject_Z d) == steps)%Q).
Proof.
  intros Hd. pose proof (delta_nonneg d Hd) as Hd'.
  destruct (Z_le_gt_dec d (timeSteps s)) as [Hle|Hgt].
  - left. split; [exact Hle|]. apply clamp_inside. split; [exact Hd'|].
    rewrite <- Zle_Qle. exact Hle.
  - right. split; [lia|]. apply clamp_above. rewrite <- Zle_Qle. lia.
Qed.

(** The past marker. *)
Lemma past_marker64 (v : Q) (pd : Z) :
  (0 <= v <= steps)%Q -> Slider64.clear_of_ties v -> (0 <= pd)%Z ->
  toFixed0
    (Slider64.x_invert s
       (if Qltb (Slider64.x s (inject_Z pd)) (Slider64.x s v)
        then sub (Slider64.x s v) (Slider64.x s (inject_Z pd)) else 0%Q))
  = Z.max 0 (toFixed0 v - pd).
Proof.
  intros Hv Hclear Hpd. pose proof steps_range as HS.
  pose proof (delta_nonneg pd Hpd) as Hpd'.
  pose proof (step_of_time v Hv) as Hr.
  destruct (x_near v) as (wv & Hwv & Hv' & Hxv & Hxv0).
  rewrite (clamp_inside v Hv) in Hv'.
  destruct (x_near (inject_Z pd)) as (wp & Hwp & Hp' & Hxp & Hxp0).
  pose proof (x_upper v) as Hxv1.
  set (A := Slider64.x s v) in *. set (B := Slider64.x s (inject_Z pd)) in *.
  assert (Hzero : forall p, (0 <= p <= 1505 * eps)%Q ->
                            toFixed0 (Slider64.x_invert s p) = 0%Z).
  { intros p Hp. apply (read_near p 0 0); [lia | | |];
      change (inject_Z 0) with 0%Q; unfold eps in *; lra. }
  destruct (Qltb B A) eqn:E; [apply Qltb_true in E | apply Qltb_false in E].
  - unfold sub.
    assert (Hrange : (-2048 <= A - B <= 2048)%Q) by (unfold eps in *; lra).
    pose proof (round_near _ Hrange) as HP.
    assert (HP0 : (0 <= round (A - B))%Q) by (apply round_nonneg; lra).
    set (P := round (A - B)) in *.
    destruct (Qlt_le_dec wv wp) as [Hlt|Hle].
    + rewrite Hzero by (unfold eps in *; lra).
      pose proof (scaled_lt _ _ Hlt) as Hs.
      assert (Hvp : (v <= inject_Z pd)%Q).
      { destruct (clamp_delta pd Hpd) as [[_ Hc]|[Hc _]].
        - lra.
        - apply Qle_trans with steps; [lra|]. rewrite <- Zle_Qle. lia. }
      apply toFixed0_le in Hvp. rewrite toFixed0_Z in Hvp. lia.
    + pose proof (scaled_le _ _ Hle) as Hs.
      destruct (clamp_delta pd Hpd) as [[Hsmall Hc]|[Hbig Hc]].
      * assert (Hvp : (inject_Z pd <= v)%Q) by lra.
        pose proof (toFixed0_le _ _ Hvp) as Hrp. rewrite toFixed0_Z in Hrp.
        rewrite (read_tie_free P (wv - wp) v (- pd)); [lia | exact Hclear | | | |].
        -- rewrite inject_Z_opp. lra.
        -- rewrite inject_Z_opp.
           assert (Heq : ((wv - wp) * steps == wv * steps - wp * steps)%Q) by ring.
           rewrite Heq. lra.
        -- unfold eps in *. lra.
        -- unfold eps in *. lra.
      * rewrite (read_near P (wv - wp) 0); [lia | lia | | |].
        -- change (inject_Z 0) with 0%Q.
           assert (Heq : ((wv - wp) * steps == wv * steps - wp * steps)%Q) by ring.
           rewrite Heq. lra.
        -- unfold eps in *. lra.
        -- unfold eps in *. lra.
  - rewrite Hzero by (unfold eps; lra).
    assert (Hrp : (toFixed0 v <= pd)%Z); [|lia].
    destruct (clamp_delta pd Hpd) as [[Hsmall Hc]|[Hbig Hc]]; [|lia].
    assert (Hw : (- ((1 # 100) * (1 # 1000)) <= wp - wv + (1 # 100) * (1 # 1000))%Q)
      by (unfold eps in *; lra).
    destruct (Qlt_le_dec wv wp) as [Hlt|Hle].
    + pose proof (scaled_lt _ _ Hlt) as Hs.
      assert (Hvp : (v <= inject_Z pd)%Q) by lra.
      apply toFixed0_le in Hvp. rewrite toFixed0_Z in Hvp. exact Hvp.
    + assert (Hd : (- (1 # 100000) <= wv - wp <= 1 # 100000)%Q)
        by (unfold eps in *; lra).
      pose proof (scaled _ _ _ Hd) as Hs.
      assert (Hvp : (v <= inject_Z pd + (1 # 100))%Q) by lra.
      apply toFixed0_le in Hvp.
      rewrite (toFixed0_within (inject_Z pd + (1 # 100)) pd) in Hvp by lra.
      exact Hvp.
Qed.

(** A marker to the right of the primary handle: [p] is the sum of the
    abscissas, standing at the fraction [sigma] of the track, [c] the sum
    of the clamped deltas and [D] the sum of the deltas. *)
Lemma upper_marker (v p sigma c : Q) (D : Z) :
  (0 <= v <= steps)%Q -> Slider64.clear_of_ties v ->
  (0 <= p <= 1600)%Q ->
  (- (1505 * eps) <= p - 500 * sigma <= 1505 * eps)%Q ->
  (sigma * steps == v + c)%Q ->
  (0 <= c <= inject_Z D)%Q ->
  (c == inject_Z D)%Q \/ (steps <= c)%Q ->
  toFixed0 (Slider64.x_invert s (if Qltb p width then p else width))
  = Z.min (timeSteps s) (toFixed0 v + D).
Proof.
  intros Hv Hclear Hp Hps Hsig Hc Hcase. pose proof steps_range as HS.
  pose proof (step_of_time v Hv) as Hr.
  change width with 500%Q.
  assert (Hone : (1 * steps == steps)%Q) by ring.
  destruct (Qltb p 500) eqn:E; [apply Qltb_true in E | apply Qltb_false in E].
  - assert (Hs1 : (sigma <= 1 + (1 # 100000))%Q) by (unfold eps in *; lra).
    destruct (Qlt_le_dec 1 sigma) as [Hbig|Hsmall].
    + assert (Hd : (- (1 # 100000) <= sigma - 1 <= 1 # 100000)%Q) by lra.
      pose proof (scaled _ _ _ Hd) as Hs.
      pose proof (scaled_lt _ _ Hbig) as Hs'.
      rewrite (read_near p sigma (timeSteps s)); [| lia | lra | lra | exact Hps].
      assert (Hsum : (steps <= v + inject_Z D)%Q) by lra.
      apply toFixed0_le in Hsum. rewrite toFixed0_Z, toFixed0_plus_Z in Hsum. lia.
    + pose proof (scaled_le _ _ Hsmall) as Hs.
      destruct Hcase as [Heq | Hfull].
      * rewrite (read_tie_free p sigma v D Hclear); [| lra | lra | lra | exact Hps].
        assert (Hsum : (v + inject_Z D <= steps)%Q) by lra.
        apply toFixed0_le in Hsum. rewrite toFixed0_Z, toFixed0_plus_Z in Hsum. lia.
      * rewrite (read_near p sigma (timeSteps s)); [| lia | lra | lra | exact Hps].
        assert (Hsum : (steps <= v + inject_Z D)%Q) by lra.
        apply toFixed0_le in Hsum. rewrite toFixed0_Z, toFixed0_plus_Z in Hsum. lia.
  - rewrite (read_near 500 1 (timeSteps s)); [| lia | lra | lra | unfold eps; lra].
    assert (Hd : (1 - sigma <= 1 # 100000)%Q) by (unfold eps in *; lra).
    assert (Hsum : (steps - (1 # 50) <= v + inject_Z D)%Q).
    { destruct (Qlt_le_dec sigma 1) as [Hlt|Hge].
      - assert (Hd' : (- (1 # 100000) <= sigma - 1 <= 1 # 100000)%Q) by lra.
        pose proof (scaled _ _ _ Hd') as Hs. lra.
      - pose proof (scaled_le _ _ Hge) as Hs. lra. }
    apply toFixed0_le in Hsum.
    rewrite (toFixed0_within (steps - (1 # 50)) (timeSteps s)) in Hsum by lra.
    rewrite toFixed0_plus_Z in Hsum. lia.
Qed.

(** The sum of two clamped deltas against the sum of the deltas. *)
Lemma clamp_deltas (a b : Z) :
  (0 <= a)%Z -> (0 <= b)%Z ->
  let c := (Slider64.clamp s (inject_Z a) + Slider64.clamp s (inject_Z b))%Q in
  (0 <= c <= inject_Z (a + b))%Q
  /\ ((c == inject_Z (a + b))%Q \/ (steps <= c)%Q).
Proof.
  intros Ha Hb c. subst c. rewrite inject_Z_plus.
  pose proof (delta_nonneg a Ha). pose proof (delta_nonneg b Hb).
  pose proof (clamp_range (inject_Z a)). pose proof (clamp_range (inject_Z b)).
  destruct (clamp_delta a Ha) as [[_ Hca]|[Hbig Hca]];
    destruct (clamp_delta b Hb) as [[_ Hcb]|[Hbig' Hcb]].
  - split; [lra|]. left. lra.
  - assert ((steps <= inject_Z b)%Q) by (rewrite <- Zle_Qle; lia).
    split; [lra|]. right. lra.
  - assert ((steps <= inject_Z a)%Q) by (rewrite <- Zle_Qle; lia).
    split; [lra|]. right. lra.
  - assert ((steps <= inject_Z a)%Q) by (rewrite <- Zle_Qle; lia).
    assert ((steps <= inject_Z b)%Q) by (rewrite <- Zle_Qle; lia).
    split; [lra|]. right. lra.
Qed.

Lemma future_marker64 (v : Q) (ad fd : Z) :
  (0 <= v <= steps)%Q -> Slider64.clear_of_ties v -> (0 <= ad)%Z -> (0 <= fd)%Z ->
  let p := add (add (Slider64.x s v) (Slider64.x s (inject_Z ad)))
             (Slider64.x s (inject_Z fd)) in
  toFixed0 (Slider64.x_invert s (if Qltb p width then p else width))
  = Z.min (timeSteps s) (toFixed0 v + ad + fd).
Proof.
  intros Hv Hclear Had Hfd p.
  destruct (x_near v) as (wv & Hwv & Hv' & Hxv & Hxv0).
  rewrite (clamp_inside v Hv) in Hv'.
  destruct (x_near (inject_Z ad)) as (wa & Hwa & Ha' & Hxa & Hxa0).
  destruct (x_near (inject_Z fd)) as (wf & Hwf & Hf' & Hxf & Hxf0).
  pose proof (x_upper v). pose proof (x_upper (inject_Z ad)).
  pose proof (x_upper (inject_Z fd)).
  destruct (clamp_deltas ad fd Had Hfd) as [Hc Hcase].
  subst p. unfold add.
  set (A := Slider64.x s v) in *. set (C := Slider64.x s (inject_Z ad)) in *.
  set (F := Slider64.x s (inject_Z fd)) in *.
  assert (R1 : (-2048 <= A + C <= 2048)%Q) by (unfold eps in *; lra).
  pose proof (round_near _ R1) as Hs1.
  assert (Hs1' : (0 <= round (A + C))%Q) by (apply round_nonneg; lra).
  set (G := round (A + C)) in *.
  assert (R2 : (-2048 <= G + F <= 2048)%Q) by (unfold eps in *; lra).
  pose proof (round_near _ R2) as Hs2.
  assert (Hs2' : (0 <= round (G + F))%Q) by (apply round_nonneg; lra).
  replace (toFixed0 v + ad + fd)%Z with (toFixed0 v + (ad + fd))%Z by lia.
  apply (upper_marker v _ (wv + wa + wf)
           (Slider64.clamp s (inject_Z ad) + Slider64.clamp s (inject_Z fd)));
    try assumption.
  - unfold eps in *. lra.
  - unfold eps in *. lra.
  - assert (Heq : ((wv + wa + wf) * steps == wv * steps + wa * steps + wf * steps)%Q)
      by ring.
    rewrite Heq. lra.
Qed.

Lemma aggregation_marker64 (v : Q) (ad : Z) :
  (0 <= v <= steps)%Q -> Slider64.clear_of_ties v -> (0 <= ad)%Z ->
  let p := add (Slider64.x s v) (Slider64.x s (inject_Z ad)) in
  toFixed0 (Slider64.x_invert s (if Qltb p width then p else width))
  = Z.min (timeSteps s) (toFixed0 v + ad).
Proof.
  intros Hv Hclear Had p.
  destruct (x_near v) as (wv & Hwv & Hv' & Hxv & Hxv0).
  rewrite (clamp_inside v Hv) in Hv'.
  destruct (x_near (inject_Z ad)) as (wa & Hwa & Ha' & Hxa & Hxa0).
  pose proof (x_upper v). pose proof (x_upper (inject_Z ad)).
  pose proof (clamp_range (inject_Z ad)) as Hcr.
  pose proof (delta_nonneg ad Had) as Had'.
  subst p. unfold add.
  set (A := Slider64.x s v) in *. set (C := Slider64.x s (inject_Z ad)) in *.
  assert (R1 : (-2048 <= A + C <= 2048)%Q) by (unfold eps in *; lra).
  pose proof (round_near _ R1) as Hs1.
  assert (Hs1' : (0 <= round (A + C))%Q) by (apply round_nonneg; lra).
  apply (upper_marker v _ (wv + wa) (Slider64.clamp s (inject_Z ad)));
    try assumption.
  - unfold eps in *. lra.
  - unfold eps in *. lra.
  - assert (Heq : ((wv + wa) * steps == wv * steps + wa * steps)%Q) by ring.
    rewrite Heq. lra.
  - destruct (clamp_delta ad Had) as [[_ Hc]|[Hbig Hc]]; [lra|].
    assert ((steps <= inject_Z ad)%Q) by (rewrite <- Zle_Qle; lia). lra.
  - destruct (clamp_delta ad Had) as [[_ Hc]|[Hbig Hc]]; [left; exact Hc|].
    right. lra.
Qed.

(** The handle put on the abscissa of a time, read back. *)
Lemma read_handle (t : Q) :
  (0 <= t <= steps)%Q -> Slider64.clear_of_ties t ->
  toFixed0 (Slider64.x_invert s (Slider64.x s t)) = toFixed0 t.
Proof.
  intros Ht Hclear.
  destruct (x_near t) as (w & Hw & Ht' & Hx & Hx0).
  rewrite (clamp_inside t Ht) in Ht'. pose proof (x_upper t) as Hx1.
  rewrite (read_tie_free (Slider64.x s t) w t 0 Hclear).
  - lia.
  - change (inject_Z 0) with 0%Q. lra.
  - change (inject_Z 0) with 0%Q. lra.
  - unfold eps in *. lra.
  - unfold eps in *. lra.
Qed.

(** The order of two abscissas against the order of the rounded times,
    one of the times being clear of the ties. *)
Lemma x_lt64 (v u : Q) :
  (0 <= v <= steps)%Q -> (0 <= u <= steps)%Q -> Slider64.clear_of_ties u ->
  (Slider64.x s v < Slider64.x s u)%Q -> (toFixed0 v <= toFixed0 u)%Z.
Proof.
  intros Hv Hu [_ Hhi] Hlt. unfold Slider64.margin in Hhi.
  destruct (x_near v) as (wv & Hwv & Hv' & Hxv & _).
  destruct (x_near u) as (wu & Hwu & Hu' & Hxu & _).
  rewrite (clamp_inside v Hv) in Hv'. rewrite (clamp_inside u Hu) in Hu'.
  destruct (Qlt_le_dec wu wv) as [Hgt|Hle].
  - assert (Hd : (- (3 * eps) <= wv - wu <= 3 * eps)%Q) by (unfold eps in *; lra).
    pose proof (scaled _ _ _ Hd) as Hs. unfold eps in *.
    assert (Hvu : (v <= inject_Z (toFixed0 u) + (1 # 2) - (1 # 10000000000))%Q) by lra.
    apply toFixed0_le in Hvu.
    rewrite (toFixed0_within (inject_Z (toFixed0 u) + (1 # 2) - (1 # 10000000000))
               (toFixed0 u)) in Hvu by lra.
    exact Hvu.
  - pose proof (scaled_le _ _ Hle) as Hs. apply toFixed0_le. lra.
Qed.

Lemma x_gt64 (v u : Q) :
  (0 <= v <= steps)%Q -> (0 <= u <= steps)%Q -> Slider64.clear_of_ties u ->
  (Slider64.x s u < Slider64.x s v)%Q -> (toFixed0 u <= toFixed0 v)%Z.
Proof.
  intros Hv Hu [Hlo _] Hlt. unfold Slider64.margin in Hlo.
  destruct (x_near v) as (wv & Hwv & Hv' & Hxv & _).
  destruct (x_near u) as (wu & Hwu & Hu' & Hxu & _).
  rewrite (clamp_inside v Hv) in Hv'. rewrite (clamp_inside u Hu) in Hu'.
  destruct (Qlt_le_dec wv wu) as [Hgt|Hle].
  - assert (Hd : (- (3 * eps) <= wv - wu <= 3 * eps)%Q) by (unfold eps in *; lra).
    pose proof (scaled _ _ _ Hd) as Hs. unfold eps in *.
    assert (Hvu : (inject_Z (toFixed0 u) - (1 # 2) <= v)%Q) by lra.
    apply toFixed0_le in Hvu.
    rewrite (toFixed0_within (inject_Z (toFixed0 u) - (1 # 2)) (toFixed0 u)) in Hvu
      by lra.
    exact Hvu.
  - pose proof (scaled_le _ _ Hle) as Hs. apply toFixed0_le. lra.
Qed.

(** Two fractions of the track are no further apart than the times they
    stand for. *)
Lemma unscaled (a b d : Q) :
  (- d <= a * steps - b * steps <= d)%Q -> (- d <= a - b <= d)%Q.
Proof.
  intros H. pose proof steps_range as HS.
  assert (Heq : (a * steps - b * steps == (a - b) * steps)%Q) by ring.
  destruct (Qlt_le_dec (a - b) 0) as [Hneg|Hpos].
  - assert (H1 : (1 * (b - a) <= steps * (b - a))%Q)
      by (apply Qmult_le_compat_r; lra).
    split; lra.
  - assert (H1 : (1 * (a - b) <= steps * (a - b))%Q)
      by (apply Qmult_le_compat_r; lra).
    split; lra.
Qed.

End Rounded.

Section RoundedUpdate.
Import JS Slider.

Lemma x_invert_domain (s : Slider.state) (p : Q) :
  (0 < timeSteps s < 1000)%Z ->
  (0 <= Slider64.x_invert s p <= inject_Z (timeSteps s))%Q.
Proof. intros HS. unfold Slider64.x_invert. apply clamp_range. exact HS. Qed.

(** The window computed by [update], for a timeline short enough for the
    thousands separator not to appear. *)
Lemma update_window64 (s : Slider.state) (net : Network.state) (t : Q) :
  (0 < timeSteps s < 1000)%Z ->
  (0 <= pastDelta s)%Z -> (0 <= aggregationDelta s)%Z -> (0 <= futureDelta s)%Z ->
  (0 <= t <= inject_Z (timeSteps s))%Q ->
  let r := toFixed0 t in
  let w := Network.time (snd (Slider64.update t (s, net))) in
  snd (Slider64.update t (s, net)) = Network.render (Network.with_time net w)
  /\ (0 <= r <= timeSteps s)%Z
  /\ TimeWindow.time w = r
  /\ (Slider64.clear_of_ties t ->
      TimeWindow.past w = Z.max 0 (r - pastDelta s)
      /\ TimeWindow.future w
         = Z.min (timeSteps s) (r + aggregationDelta s + futureDelta s)
      /\ ((r + aggregationDelta s < 1000)%Z ->
          TimeWindow.aggregated w = (r + aggregationDelta s)%Z)).
Proof.
  intros HS Hp Ha Hf Ht r w.
  pose proof (step_of_time s t Ht) as Hr. fold r in Hr.
  split; [reflexivity|]. split; [exact Hr|].
  subst w. cbn [Slider64.update snd Network.updateTime Network.render Network.time
                Network.with_time TimeWindow.time TimeWindow.past
                TimeWindow.future TimeWindow.aggregated].
  split.
  - apply int_toFixed0; [lra | fold r; lia].
  - intros Hclear. split; [|split].
    + rewrite (int_x_invert s HS). apply (past_marker64 s HS); assumption.
    + rewrite (int_x_invert s HS). apply (future_marker64 s HS); assumption.
    + intros Hagg. unfold Double.add.
      pose proof (delta_nonneg _ Ha) as Ha'.
      pose proof (steps_range s HS) as HSq.
      assert (Ha1 : (inject_Z (aggregationDelta s) <= 1000)%Q).
      { change 1000%Q with (inject_Z 1000). rewrite <- Zle_Qle. lia. }
      assert (Hrange : (-2048 <= t + inject_Z (aggregationDelta s) <= 2048)%Q) by lra.
      pose proof (round_near _ Hrange) as Hn.
      assert (Hnn : (0 <= Double.round (t + inject_Z (aggregationDelta s)))%Q)
        by (apply round_nonneg; lra).
      assert (Hfix : toFixed0 (Double.round (t + inject_Z (aggregationDelta s)))
                     = (r + aggregationDelta s)%Z).
      { apply (tie_free _ t _ Hclear). unfold Double.eps in *. lra. }
      rewrite int_toFixed0; [exact Hfix | exact Hnn | rewrite Hfix; exact Hagg].
Qed.

Lemma update_deltas64 (v : Q) (sn : Slider.state * Network.state) :
  let s' := fst (Slider64.update v sn) in
  pastDelta s' = pastDelta (fst sn)
  /\ futureDelta s' = futureDelta (fst sn)
  /\ aggregationDelta s' = aggregationDelta (fst sn)
  /\ timeSteps s' = timeSteps (fst sn)
  /\ currentValue s' = currentValue (fst sn)
  /\ moving s' = moving (fst sn)
  /\ lookoutShow s' = lookoutShow (fst sn)
  /\ aggregationShow s' = aggregationShow (fst sn).
Proof. destruct sn as [s net]. cbn. repeat split. Qed.

End RoundedUpdate.

(** C2, as amended.  Every value the slider calls [update] with is
    [x.invert] of an abscissa, hence inside the timeline domain.  On a
    timeline of fewer than 1000 steps and with deltas that are not
    negative, [update] hands [network.updateTime] (which stores the window
    and renders) a window of integers: [time] is the value rounded to the
    nearest integer [r]; and when the value is clear of the ties (not
    within [10^-9] of a half-integer, where the roundings of the double
    arithmetic decide), [past = max(0, r - pastDelta)],
    [future = min(domainMax, r + aggregationDelta + futureDelta)], and
    [aggregated = min(domainMax, r + aggregationDelta)] while
    [r + aggregationDelta] does not exceed the domain. *)
Theorem update_pushes_rounded_window
    (s : Slider.state) (net : Network.state) (event_x : Q) :
  (0 < Slider.timeSteps s < 1000)%Z ->
  (0 <= Slider.pastDelta s)%Z ->
  (0 <= Slider.aggregationDelta s)%Z ->
  (0 <= Slider.futureDelta s)%Z ->
  let domainMax := Slider.timeSteps s in
  let t := Slider64.x_invert s event_x in
  let r := JS.toFixed0 t in
  let w := Network.time (snd (Slider64.update t (s, net))) in
  (0 <= t <= inject_Z domainMax)%Q
  /\ snd (Slider64.update t (s, net)) = Network.render (Network.with_time net w)
  /\ TimeWindow.time w = r
  /\ (Slider64.clear_of_ties t ->
      TimeWindow.past w = Z.max 0 (r - Slider.pastDelta s)
      /\ TimeWindow.future w
         = Z.min domainMax (r + Slider.aggregationDelta s + Slider.futureDelta s)
      /\ ((r + Slider.aggregationDelta s <= domainMax)%Z ->
          TimeWindow.aggregated w
          = Z.min domainMax (r + Slider.aggregationDelta s))).
Proof.
  intros HS Hp Ha Hf domainMax t r w.
  pose proof (x_invert_domain s event_x HS) as Ht. fold t in Ht.
  destruct (update_window64 s net t HS Hp Ha Hf Ht)
    as (Hrender & Hr & Htime & Hrest).
  split; [exact Ht|]. split; [exact Hrender|]. split; [exact Htime|].
  intros Hclear. destruct (Hrest Hclear) as (Hpast & Hfut & Hagg).
  split; [exact Hpast|]. split; [exact Hfut|].
  intros Hin. fold r in Hagg. unfold w. rewrite Hagg by (unfold domainMax in *; lia).
  unfold domainMax in *. lia.
Qed.

Lemma update_pushes_rounded_window_witness :
  let s := Scenario.slider64 in
  let w := Network.time
             (snd (Slider64.update (Slider64.x_invert s 130) (s, Scenario.config))) in
  TimeWindow.time w = 3%Z /\ TimeWindow.past w = Z.max 0 (3 - 1).
Proof.
  intros s w.
  assert (H1 : (0 < Slider.timeSteps s < 1000)%Z) by (vm_compute; split; reflexivity).
  assert (H2 : (0 <= Slider.pastDelta s)%Z) by (vm_compute; discriminate).
  assert (H3 : (0 <= Slider.aggregationDelta s)%Z) by (vm_compute; discriminate).
  assert (H4 : (0 <= Slider.futureDelta s)%Z) by (vm_compute; discriminate).
  assert (H5 : Slider64.clear_of_ties (Slider64.x_invert s 130))
    by (split; vm_compute; discriminate).
  destruct (update_pushes_rounded_window s Scenario.config 130 H1 H2 H3 H4)
    as (_ & _ & Htime & Hrest).
  destruct (Hrest H5) as (Hpast & _).
  subst w. split; [rewrite Htime | rewrite Hpast]; vm_compute; reflexivity.
Defined.

(** C2 as stated fails.  With ten steps and the handle at abscissa 130
    the time value is the double next to 2.6, and the marker pushed for
    the past is the integer 3, not [max(0, t - pastDelta)].  And the
    rounded value does not give the markers either when it falls on a
    tie: with seven steps, a past of one step and the handle at abscissa
    250 the value is 3.5 and the time pushed is 4, but the past handle is
    read back as 2.4999999999999996 and the past pushed is 2, not 3. *)
Lemma update_window_not_exact :
  let s := Slider.sliderMenu 10 0 0 0 in
  let t := Slider64.x_invert s 130 in
  let w := Network.time (snd (Slider64.update t (s, Scenario.config))) in
  let s7 := fst (Slider64.lookoutBtn (Slider.sliderMenu 7 1 0 0, Scenario.config)) in
  let w7 := Network.time (snd (Slider64.drag 250 (s7, Scenario.config))) in
  TimeWindow.past w = 3%Z
  /\ ~ (inject_Z (TimeWindow.past w)
        == Network.Qmax 0 (t - inject_Z (Slider.pastDelta s)))%Q
  /\ (Slider64.x_invert s7 250 == 7 # 2)%Q
  /\ Slider.pastDelta s7 = 1%Z
  /\ w7 = TimeWindow.mk 2 4 4 4.
Proof.
  split; [vm_compute; reflexivity|].
  split; [intros H; vm_compute in H; discriminate H|].
  split; [vm_compute; reflexivity|].
  split; vm_compute; reflexivity.
Qed.

(** C3 fails on the code.  With ten steps, after a click on Aggregate
    (two steps) and the primary handle dragged to the end of the track,
    [update] pushes
    [aggregated = 12] above [future = 10]: the end of the aggregation is
    taken from the value, not from the clamped handle.  With 2000 steps,
    after a click on Lookout (a past of 600 steps) and the handle dragged
    to step 1500, the thousands
    separator of [formatInt] makes [parseInt] read 1 for the time, below
    [past = 900]. *)
Theorem update_window_out_of_order :
  let aggregate := Slider.aggregationBtn (Slider.sliderMenu 10 0 0 2, Scenario.config) in
  let w := Network.time (snd (Slider.drag 500 aggregate)) in
  let lookout := Slider.lookoutBtn (Slider.sliderMenu 2000 600 0 0, Scenario.config) in
  let w' := Network.time (snd (Slider.drag 375 lookout)) in
  w = TimeWindow.mk 10 10 12 10
  /\ (TimeWindow.future w < TimeWindow.aggregated w)%Z
  /\ w' = TimeWindow.mk 900 1 1 1
  /\ (TimeWindow.time w' < TimeWindow.past w')%Z.
Proof.
  vm_compute. repeat split; reflexivity.
Qed.

(** ** Temporal edges *)

Section TemporalEdges.
Import JS Network.

Lemma bindKey_datum (edgesData : list Link.t) :
  forall m, map Line.datum (bindKey m edgesData) = edgesData.
Proof.
  induction edgesData as [|d ds IH]; intros m; simpl; [reflexivity|].
  destruct (m !! Link.uid d); simpl; rewrite IH; reflexivity.
Qed.

Lemma renderTemporalEdges_datum (s : state) (els : list Line.t) :
  map Line.datum (renderTemporalEdges s els) = map Line.datum els.
Proof.
  unfold renderTemporalEdges. rewrite map_map. reflexivity.
Qed.

(** The links bound to the lines after a render. *)
Lemma render_edges_datum (s : state) :
  map Line.datum (edges (render s))
  = let store :=
      if temporal s then
        updateTemporalNodes s (Data.nodes (allData s))
          (filterNodes s (Data.nodes (allData s))) (Data.changes (allData s))
      else Data.nodes (allData s) in
    let filteredEdges :=
      filterEdges store (Data.links (allData s))
        (filterNodes s (Data.nodes (allData s))) in
    if temporal s then filterTemporalEdges s filteredEdges else filteredEdges.
Proof.
  unfold edges, render, renderEdges. cbn [g_edges].
  destruct (temporal s).
  - rewrite renderTemporalEdges_datum. apply bindKey_datum.
  - apply bindKey_datum.
Qed.

Lemma filterTemporalEdges_In (s : state) (es : list Link.t) (d : Link.t) :
  In d (filterTemporalEdges s es) <->
  In d es /\ exists t, Link.time d = Some t
                       /\ (inject_Z (TimeWindow.past (time s)) <= t)%Q
                       /\ (t <= inject_Z (TimeWindow.future (time s)))%Q.
Proof.
  unfold filterTemporalEdges. rewrite filter_In, andb_true_iff.
  unfold ge, le. split.
  - intros (Hin & H1 & H2). split; [exact Hin|].
    destruct (Link.time d) as [t|]; [|discriminate].
    exists t. rewrite Qleb_true in H1, H2. auto.
  - intros (Hin & t & Ht & H1 & H2). rewrite Ht, !Qleb_true. auto.
Qed.

End TemporalEdges.

(** C1, as amended.  In temporal mode, after [render] with the window
    [{past, time, aggregated, future}], every rendered edge whose
    timestamp lies in [[past, time)] or in [(aggregated, future]] has lost
    the class [edge_active] (it is the faded context), and every rendered
    edge whose timestamp lies in [[time, aggregated]] carries it. *)
Theorem renderTemporalEdges_classes (s : Network.state) (el : Line.t) (t : Q) :
  Network.temporal s = true ->
  In el (Network.edges (Network.render s)) ->
  Link.time (Line.datum el) = Some t ->
  let w := Network.time s in
  (((inject_Z (TimeWindow.past w) <= t /\ t < inject_Z (TimeWindow.time w))
    \/ (inject_Z (TimeWindow.aggregated w) < t /\ t <= inject_Z (TimeWindow.future w)))%Q
   -> Line.edge_active el = false)
  /\ ((inject_Z (TimeWindow.time w) <= t /\ t <= inject_Z (TimeWindow.aggregated w))%Q
      -> Line.edge_active el = true).
Proof.
  intros Htemp Hin Ht w.
  unfold Network.edges, Network.render in Hin. cbn [Network.g_edges] in Hin.
  rewrite Htemp in Hin. unfold Network.renderTemporalEdges in Hin.
  apply in_map_iff in Hin. destruct Hin as (el0 & <- & _).
  cbn [Line.datum Line.edge_active] in *. rewrite Ht. fold w.
  unfold Network.ge, Network.gt, Network.le, Network.lt.
  split.
  - intros [[H1 H2] | [H1 H2]].
    + apply Qleb_true in H1. apply Qltb_true in H2. rewrite H1, H2. reflexivity.
    + apply Qltb_true in H1. apply Qleb_true in H2. rewrite H1, H2.
      rewrite orb_true_r. reflexivity.
  - intros [H1 H2].
    assert (E1 : JS.Qltb t (inject_Z (TimeWindow.time w)) = false)
      by (apply Qltb_false; exact H1).
    assert (E2 : JS.Qltb (inject_Z (TimeWindow.aggregated w)) t = false)
      by (apply Qltb_false; exact H2).
    rewrite E1, E2, andb_false_r. reflexivity.
Qed.

Lemma renderTemporalEdges_classes_witness :
  let s := Network.with_time Scenario.loaded (TimeWindow.mk 0 1 1 2) in
  let el := Line.mk (Link.mk 1 2 "b_c" (Some 2%Q) None None) false false in
  In el (Network.edges (Network.render s))
  /\ ((inject_Z 1 < 2 /\ 2 <= inject_Z 2)%Q -> Line.edge_active el = false).
Proof.
  intros s el.
  assert (Hin : In el (Network.edges (Network.render s)))
    by (vm_compute; right; left; reflexivity).
  split; [exact Hin|].
  intros H.
  apply (renderTemporalEdges_classes s el 2%Q eq_refl Hin eq_refl).
  right. exact H.
Defined.

(** C1 as stated fails: under the window [{0, 1, 1, 2}] the edge b-c, whose
    timestamp 2 lies in [(aggregated, future]], is rendered without the
    class [edge_active]. *)
Lemma claimed_classes_fail :
  let s := Network.updateTime Scenario.loaded (TimeWindow.mk 0 1 1 2) in
  let w := Network.time s in
  ~ (forall el t,
        In el (Network.edges s) ->
        Link.time (Line.datum el) = Some t ->
        ((inject_Z (TimeWindow.past w) <= t /\ t < inject_Z (TimeWindow.time w))
         \/ (inject_Z (TimeWindow.aggregated w) < t
             /\ t <= inject_Z (TimeWindow.future w)))%Q ->
        Line.edge_active el = true).
Proof.
  intros s w H.
  specialize (H (Line.mk (Link.mk 1 2 "b_c" (Some 2%Q) None None) false false) 2%Q).
  assert (Hin : In (Line.mk (Link.mk 1 2 "b_c" (Some 2%Q) None None) false false)
                  (Network.edges s)) by (vm_compute; right; left; reflexivity).
  specialize (H Hin eq_refl).
  assert (Hfalse : false = true); [|discriminate Hfalse].
  apply H. right. split; vm_compute; [reflexivity | discriminate].
Qed.

(** C7.  The temporal filter is monotone in the future marker: between two
    windows with the same [past] and [future1 <= future2], an edge kept
    under the first is kept under the second. *)
Theorem filterTemporalEdges_monotone
    (s : Network.state) (w1 w2 : TimeWindow.t) (es : list Link.t) (d : Link.t) :
  TimeWindow.past w1 = TimeWindow.past w2 ->
  (TimeWindow.future w1 <= TimeWindow.future w2)%Z ->
  In d (Network.filterTemporalEdges (Network.with_time s w1) es) ->
  In d (Network.filterTemporalEdges (Network.with_time s w2) es).
Proof.
  intros Hpast Hfut. rewrite !filterTemporalEdges_In. cbn [Network.time Network.with_time].
  intros (Hin & t & Ht & H1 & H2). split; [exact Hin|].
  exists t. rewrite <- Hpast. repeat split; try assumption.
  apply Qle_trans with (inject_Z (TimeWindow.future w1)); [exact H2|].
  rewrite <- Zle_Qle. exact Hfut.
Qed.

Lemma filterTemporalEdges_monotone_witness :
  let d := Link.mk 0 1 "a_b" (Some 1%Q) None None in
  In d (Network.filterTemporalEdges
          (Network.with_time Scenario.config (TimeWindow.mk 0 1 1 3)) [d]).
Proof.
  intros d.
  apply (filterTemporalEdges_monotone Scenario.config
           (TimeWindow.mk 0 1 1 2) (TimeWindow.mk 0 1 1 3) [d] d).
  - reflexivity.
  - vm_compute. discriminate.
  - vm_compute. left. reflexivity.
Defined.

(** C9.  An edge without timestamp is kept by the temporal filter under no
    window, whatever its endpoints; in temporal mode no rendered line is
    bound to it. *)
Theorem untimed_edge_excluded (s : Network.state) (d : Link.t) :
  Link.time d = None ->
  (forall w es, ~ In d (Network.filterTemporalEdges (Network.with_time s w) es))
  /\ (Network.temporal s = true ->
      ~ In d (map Line.datum (Network.edges (Network.render s)))).
Proof.
  intros Hnone. split.
  - intros w es Hin. apply filterTemporalEdges_In in Hin.
    destruct Hin as (_ & t & Ht & _). congruence.
  - intros Htemp Hin. rewrite render_edges_datum, Htemp in Hin. cbn zeta in Hin.
    apply filterTemporalEdges_In in Hin.
    destruct Hin as (_ & t & Ht & _). congruence.
Qed.

Lemma untimed_edge_excluded_witness :
  let d := Link.mk 0 1 "a_b" None None None in
  ~ In d (Network.filterTemporalEdges
            (Network.with_time Scenario.loaded (TimeWindow.mk 0 1 1 2)) [d]).
Proof.
  intros d.
  exact (proj1 (untimed_edge_excluded Scenario.loaded d eq_refl)
           (TimeWindow.mk 0 1 1 2) [d]).
Defined.

(** C4.  Nodes a, b, c with the edges a-b at time 1 and b-c at time 2.
    After a click on Lookout (one step on each side, no aggregation) the
    slider dragged to time 1 pushes the window [{0, 1, 1, 2}], under which exactly the two
    edges are rendered, a-b active and b-c faded; at time 2 it pushes
    [{1, 2, 2, 3}], under which a-b is the faded context and b-c is
    active. *)
Theorem scenario_two_timed_edges :
  let lookout := Slider.lookoutBtn (Slider.sliderMenu 10 1 1 0, Scenario.loaded) in
  let at1 := Slider.drag 50 lookout in
  let at2 := Slider.drag 100 at1 in
  Network.chart Scenario.config Scenario.payload = JS.Ok Scenario.loaded
  /\ Network.time (snd at1) = TimeWindow.mk 0 1 1 2
  /\ Scenario.classes (snd at1) = [("a_b", true); ("b_c", false)]
  /\ Scenario.classes (Network.updateTime Scenario.loaded (TimeWindow.mk 0 1 1 2))
     = [("a_b", true); ("b_c", false)]
  /\ Network.time (snd at2) = TimeWindow.mk 1 2 2 3
  /\ Scenario.classes (snd at2) = [("a_b", false); ("b_c", true)]
  /\ Scenario.classes
       (Network.updateTime
          (Network.updateTime Scenario.loaded (TimeWindow.mk 0 1 1 2))
          (TimeWindow.mk 1 2 2 3))
     = [("a_b", false); ("b_c", true)].
Proof.
  vm_compute. repeat split; reflexivity.
Qed.

(** ** Loading: links and their endpoints *)

Section Loading.
Import JS Network.

Lemma d3_map_fold (store : list Node.t) (refs : list nat) :
  forall (m : gmap string nat) (k : string) (i : nat),
    fold_left (fun m i => <[Node.uid (store !!! i) := i]> m) refs m !! k = Some i ->
    m !! k = Some i \/ (In i refs /\ Node.uid (store !!! i) = k).
Proof.
  induction refs as [|j refs IH]; intros m k i H; simpl in H; [left; exact H|].
  apply IH in H. destruct H as [H | [Hin Hk]].
  - destruct (decide (Node.uid (store !!! j) = k)) as [Heq|Hne].
    + rewrite Heq, lookup_insert_eq in H. inversion H; subst. right. split; [left|]; auto.
    + rewrite lookup_insert_ne in H by exact Hne. left. exact H.
  - right. split; [right; exact Hin | exact Hk].
Qed.

Lemma d3_map_fold_Some (store : list Node.t) (refs : list nat) :
  forall (m : gmap string nat) (k : string),
    is_Some (m !! k) \/ (exists i, In i refs /\ Node.uid (store !!! i) = k) ->
    is_Some (fold_left (fun m i => <[Node.uid (store !!! i) := i]> m) refs m !! k).
Proof.
  induction refs as [|j refs IH]; intros m k H; simpl.
  - destruct H as [H | (i & [] & _)]. exact H.
  - apply IH.
    destruct (decide (Node.uid (store !!! j) = k)) as [Heq|Hne].
    + left. rewrite Heq, lookup_insert_eq. eauto.
    + rewrite lookup_insert_ne by exact Hne.
      destruct H as [H | (i & [Hi | Hi] & Hk)].
      * left. exact H.
      * subst i. contradiction.
      * right. exists i. auto.
Qed.

(** A key of [nodesMap] is the uid of one of the nodes it was built
    from, and the value is such a node. *)
Lemma d3_map_lookup (store : list Node.t) (refs : list nat) (k : string) (i : nat) :
  d3_map store refs !! k = Some i -> In i refs /\ Node.uid (store !!! i) = k.
Proof.
  intros H. apply d3_map_fold in H. destruct H as [H | H]; [|exact H].
  rewrite lookup_empty in H. discriminate.
Qed.

Lemma d3_map_has (store : list Node.t) (refs : list nat) (k : string) :
  has (d3_map store refs) k = true <->
  exists i, In i refs /\ Node.uid (store !!! i) = k.
Proof.
  unfold has. split.
  - destruct (d3_map store refs !! k) as [i|] eqn:E; [|discriminate].
    intros _. exists i. apply d3_map_lookup. exact E.
  - intros H.
    destruct (d3_map_fold_Some store refs ∅ k (or_intror H)) as [i Hi].
    unfold d3_map. rewrite Hi. reflexivity.
Qed.


Lemma total_lookup_In (ns : list Node.t) (i : nat) :
  (i < length ns)%nat -> In (ns !!! i) ns.
Proof.
  revert i. induction ns as [|n ns IH]; intros [|i] H; simpl in *; try lia.
  - left. reflexivity.
  - right. apply IH. lia.
Qed.





(** The nodes bound to the circles of the selection are the nodes given
    to [renderNodes]. *)
Lemma renderNodes_selection (s : state) (store : list Node.t) (els : list Circle.t) :
  forall nodesData,
    map Circle.datum
      (List.filter (fun el => negb (Circle.removing el))
         (renderNodes s store els nodesData))
    = nodesData.
Proof.
  induction els as [|el els IH]; intros [|d ds]; simpl; try reflexivity.
  - f_equal. clear. induction ds as [|d' ds IH]; simpl; [reflexivity|].
    f_equal. exact IH.
  - clear. induction els as [|el' els IH]; simpl; [reflexivity | exact IH].
  - f_equal. apply IH.
Qed.

Lemma render_nodes_datum (s : state) :
  map Circle.datum (nodes (render s)) = filterNodes s (Data.nodes (allData s)).
Proof.
  unfold nodes, render. cbn [g_nodes]. apply renderNodes_selection.
Qed.


Lemma applyChange_length (refs : list nat) (store : list Node.t) (n : Change.t) :
  length (applyChange refs store n) = length store.
Proof.
  unfold applyChange. destruct (findIndex store refs (Change.uid n)); [|reflexivity].
  apply length_insert.
Qed.

Lemma updateTemporalNodes_length (s : state) (store : list Node.t)
    (refs : list nat) (cs : list Change.t) :
  length (updateTemporalNodes s store refs cs) = length store.
Proof.
  unfold updateTemporalNodes.
  generalize (List.filter
                (fun d => Qeqb (Change.time d) (inject_Z (TimeWindow.time (time s)))) cs).
  intros l. revert store. induction l as [|c l IH]; intros store; simpl; [reflexivity|].
  rewrite IH. apply applyChange_length.
Qed.


End Loading.

Section Raising.
Import JS Network Euclidean.

Lemma coordinates_Ok (ns : list Node.t) :
  forall xs ys,
    coordinates ns = Ok (xs, ys) ->
    length xs = length ns /\ length ys = length ns
    /\ forall n, In n ns ->
                 exists ex ey, Node.euclidean n = Some (ex, ey)
                               /\ In ex xs /\ In ey ys.
Proof.
  induction ns as [|n ns IH]; intros xs ys H; cbn [coordinates] in H.
  - injection H as <- <-. repeat split. intros n [].
  - destruct (Node.euclidean n) as [[ex ey]|] eqn:E; [|discriminate].
    destruct (coordinates ns) as [[xs' ys']|e]; [|discriminate].
    injection H as <- <-.
    destruct (IH _ _ eq_refl) as (H1 & H2 & H3).
    cbn [length]. repeat split; [congruence | congruence |].
    intros n' [<- | Hin].
    + exists ex, ey. cbn [In]. auto.
    + destruct (H3 _ Hin) as (ex' & ey' & He & Hx & Hy).
      exists ex', ey'. cbn [In]. auto.
Qed.

Lemma coordinates_Throw (ns : list Node.t) (e : Error) :
  coordinates ns = Throw e ->
  e = TypeError /\ exists n, In n ns /\ Node.euclidean n = None.
Proof.
  induction ns as [|n ns IH]; intros H; cbn [coordinates] in H; [discriminate|].
  destruct (Node.euclidean n) as [[ex ey]|] eqn:E.
  - destruct (coordinates ns) as [[xs' ys']|e']; [discriminate|].
    injection H as ->. destruct (IH eq_refl) as (He & n' & Hin & Hn').
    split; [exact He|]. exists n'. cbn [In]. auto.
  - injection H as <-. split; [reflexivity|]. exists n. cbn [In]. auto.
Qed.

Lemma filterNodes_lt (s : state) (ns : list Node.t) (i : nat) :
  In i (filterNodes s ns) -> (i < length ns)%nat.
Proof.
  unfold filterNodes. intros H.
  destruct (negb (String.eqb (filter s) "all")).
  - apply filter_In in H. destruct H as [H _]. apply in_seq in H. lia.
  - apply in_seq in H. lia.
Qed.

Lemma simulation_nodes_None (store : list Node.t) (nodesData : list nat)
    (fs : gset string) :
  Run.simulation_nodes store nodesData fs = None ->
  "x" ∈ fs \/ "y" ∈ fs ->
  forall i, In i nodesData -> Node.euclidean (store !!! i) <> None.
Proof.
  unfold Run.simulation_nodes. intros H Hxy i Hi Hnone.
  assert (Hb : bool_decide ("x" ∈ fs) || bool_decide ("y" ∈ fs) = true).
  { destruct Hxy as [Hx | Hy].
    - rewrite (bool_decide_eq_true_2 _ Hx). reflexivity.
    - rewrite (bool_decide_eq_true_2 _ Hy). apply orb_true_r. }
  rewrite Hb in H. cbn [andb] in H.
  destruct (existsb _ nodesData) eqn:Ex; [discriminate H|].
  assert (Hex : existsb (fun j => Run.without_coordinates (store !!! j)) nodesData
                = true).
  { apply existsb_exists. exists i. split; [exact Hi|].
    unfold Run.without_coordinates. rewrite Hnone. reflexivity. }
  rewrite Hex in Ex. discriminate Ex.
Qed.

Lemma simulation_nodes_Some (store : list Node.t) (nodesData : list nat)
    (fs : gset string) (e : Error) :
  Run.simulation_nodes store nodesData fs = Some e ->
  e = TypeError
  /\ ("x" ∈ fs \/ "y" ∈ fs)
  /\ exists i, In i nodesData /\ Node.euclidean (store !!! i) = None.
Proof.
  unfold Run.simulation_nodes. intros H.
  destruct (bool_decide ("x" ∈ fs) || bool_decide ("y" ∈ fs)) eqn:Hb;
    [|discriminate H].
  cbn [andb] in H.
  destruct (existsb _ nodesData) eqn:Ex; [|discriminate H].
  injection H as <-. split; [reflexivity|]. split.
  - apply orb_true_iff in Hb. destruct Hb as [Hx | Hy].
    + left. apply bool_decide_eq_true_1 in Hx. exact Hx.
    + right. apply bool_decide_eq_true_1 in Hy. exact Hy.
  - apply existsb_exists in Ex. destruct Ex as (i & Hi & Hw).
    exists i. split; [exact Hi|].
    unfold Run.without_coordinates in Hw.
    destruct (Node.euclidean (store !!! i)); [discriminate Hw | reflexivity].
Qed.

(** What [render()] does, on the path on which it completes and on the
    two on which it raises. *)
Lemma run_render (s : state) :
  match Run.render s with
  | (s', None) =>
      s' = render s
      /\ (layout s = "euclidean" ->
          forall n, In n (Data.nodes (allData s')) -> Node.euclidean n <> None)
      /\ ("x" ∈ forces s \/ "y" ∈ forces s ->
          forall i, In i (selection s (allData s)) ->
                    Node.euclidean (Data.nodes (allData s') !!! i) <> None)
  | (s', Some e) =>
      e = TypeError
      /\ (exists n, In n (Data.nodes (allData s')) /\ Node.euclidean n = None)
      /\ allData s' = allData (render s)
      /\ g_nodes s' = g_nodes s /\ g_edges s' = g_edges s
      /\ temporal s' = temporal s /\ layout s' = layout s /\ filter s' = filter s
      /\ time s' = time s
      /\ ((("x" ∈ forces s \/ "y" ∈ forces s)
           /\ (exists i, In i (selection s (allData s))
                         /\ Node.euclidean (Data.nodes (allData s') !!! i) = None)
           /\ forces s' = forces s)
          \/ (layout s = "euclidean"
              /\ forces s'
                 = force "charge" true
                     (force "links" false (force "center" false (forces s)))))
  end.
Proof.
  unfold Run.render. cbv zeta.
  fold (selection s (allData s)).
  set (store := if temporal s then _ else _).
  assert (Hlen : length store = length (Data.nodes (allData s))).
  { subst store. destruct (temporal s); [|reflexivity].
    apply updateTemporalNodes_length. }
  destruct (Run.simulation_nodes store (selection s (allData s)) (forces s))
    as [e|] eqn:Es.
  - apply simulation_nodes_Some in Es. destruct Es as (-> & Hxy & i & Hi & Hnone).
    cbn [allData Data.nodes g_nodes g_edges forces temporal layout filter time].
    split; [reflexivity|]. split.
    { exists (store !!! i). split; [|exact Hnone].
      apply total_lookup_In. rewrite Hlen. apply (filterNodes_lt s _ i Hi). }
    split; [reflexivity|]. do 6 (split; [reflexivity|]).
    left. split; [exact Hxy|]. split; [|reflexivity].
    exists i. split; [exact Hi | exact Hnone].
  - pose proof (simulation_nodes_None _ _ _ Es) as Hsel.
    destruct (String.eqb (layout s) "force") eqn:Ef.
    + split; [unfold render; rewrite Ef; reflexivity|].
      split; [|exact Hsel].
      intros He. rewrite He in Ef. discriminate Ef.
    + destruct (String.eqb (layout s) "euclidean") eqn:Ee.
      * unfold Run.setupEuclideanLayout. cbv zeta.
        destruct (coordinates store) as [[xs ys]|e] eqn:Ec.
        -- split; [unfold render; rewrite Ef, Ee; reflexivity|].
           split; [|exact Hsel].
           intros _ n Hn Hnone. cbn [allData Data.nodes] in Hn.
           destruct (coordinates_Ok _ _ _ Ec) as (_ & _ & Hall).
           destruct (Hall n Hn) as (ex & ey & Hsome & _). congruence.
        -- apply coordinates_Throw in Ec. destruct Ec as [-> Hex].
           cbn [allData Data.nodes g_nodes g_edges forces temporal layout
                  filter time].
           split; [reflexivity|]. split; [exact Hex|].
           split; [reflexivity|]. do 6 (split; [reflexivity|]).
           right. split; [apply String.eqb_eq; exact Ee | reflexivity].
      * split; [unfold render; rewrite Ef, Ee; reflexivity|].
        split; [|exact Hsel].
        intros He. rewrite He in Ee. discriminate Ee.
Qed.

(** [render()] completes when no force [x] or [y] is attached and the
    layout is not the euclidean one; and in any case when every node
    object carries coordinates once the changes are written. *)
Lemma run_render_completes (s : state) :
  (forall n, In n (Data.nodes (allData (render s))) -> Node.euclidean n <> None)
  \/ (("x" ∉ forces s) /\ ("y" ∉ forces s) /\ layout s <> "euclidean") ->
  Run.render s = (render s, None).
Proof.
  intros H. pose proof (run_render s) as Hr.
  destruct (Run.render s) as [s' [e|]].
  - destruct Hr as (_ & (n & Hn & Hnone) & Hdata & _ & _ & _ & _ & _ & _ & Hcause).
    rewrite Hdata in Hn. exfalso.
    destruct H as [H | (Hx & Hy & Hl)]; [exact (H n Hn Hnone)|].
    destruct Hcause as [([Hx' | Hy'] & _) | [Hl' _]]; auto.
  - destruct Hr as [-> _]. reflexivity.
Qed.

End Raising.



(** ** Temporal changes *)

Section TemporalChanges.
Import JS Network.

Lemma assign_uid (n : Node.t) (c : Change.t) : Node.uid (assign n c) = Change.uid c.
Proof. reflexivity. Qed.

(** Assigning a change record twice is assigning it once. *)
Lemma assign_idempotent (n : Node.t) (c : Change.t) :
  assign (assign n c) c = assign n c.
Proof.
  unfold assign. cbn.
  destruct (Change.label c), (Change.group c), (Change.size c), (Change.color c),
    (Change.text c), (Change.euclidean c); reflexivity.
Qed.

Lemma findIndex_Some (store : list Node.t) (refs : list nat) (u : string) (i : nat) :
  findIndex store refs u = Some i -> In i refs /\ Node.uid (store !!! i) = u.
Proof.
  unfold findIndex. intros H. apply find_some in H. destruct H as [Hin H].
  apply String.eqb_eq in H. auto.
Qed.

Lemma findIndex_ext (store store' : list Node.t) (refs : list nat) (u : string) :
  (forall j, Node.uid (store' !!! j) = Node.uid (store !!! j)) ->
  findIndex store' refs u = findIndex store refs u.
Proof.
  intros H. unfold findIndex.
  induction refs as [|j refs IH]; simpl; [reflexivity|].
  rewrite H, IH. reflexivity.
Qed.

(** A change never alters a uid: it is assigned onto the node that has
    its uid. *)
Lemma applyChange_uid (refs : list nat) (store : list Node.t) (c : Change.t) (j : nat) :
  Node.uid (applyChange refs store c !!! j) = Node.uid (store !!! j).
Proof.
  unfold applyChange.
  destruct (findIndex store refs (Change.uid c)) as [i|] eqn:E; [|reflexivity].
  apply findIndex_Some in E. destruct E as [_ Hu].
  rewrite list_lookup_total_insert.
  destruct (decide (i = j /\ (i < length store)%nat)) as [[-> _]|_]; [|reflexivity].
  rewrite assign_uid. symmetry. exact Hu.
Qed.

(** A change for another uid leaves the node alone. *)
Lemma applyChange_other (refs : list nat) (store : list Node.t) (c : Change.t) (i : nat) :
  Change.uid c <> Node.uid (store !!! i) ->
  applyChange refs store c !! i = store !! i.
Proof.
  intros Hne. unfold applyChange.
  destruct (findIndex store refs (Change.uid c)) as [j|] eqn:E; [|reflexivity].
  apply findIndex_Some in E. destruct E as [_ Hu].
  apply list_lookup_insert_ne. intros ->. apply Hne. symmetry. exact Hu.
Qed.

Lemma applyChange_found (refs : list nat) (store : list Node.t) (c : Change.t)
    (i : nat) (n : Node.t) :
  findIndex store refs (Change.uid c) = Some i ->
  store !! i = Some n ->
  applyChange refs store c !! i = Some (assign n c).
Proof.
  intros Hfind Hn. unfold applyChange. rewrite Hfind.
  rewrite (list_lookup_total_correct _ _ _ Hn).
  apply list_lookup_insert_eq. apply lookup_lt_Some in Hn. exact Hn.
Qed.

Lemma changes_other (refs : list nat) (i : nat) (u : string) (l : list Change.t) :
  forall store,
    (forall c, In c l -> Change.uid c <> u) ->
    Node.uid (store !!! i) = u ->
    fold_left (applyChange refs) l store !! i = store !! i.
Proof.
  induction l as [|c l IH]; intros store Hl Hu; simpl; [reflexivity|].
  rewrite IH.
  - apply applyChange_other. rewrite Hu. apply Hl. left. reflexivity.
  - intros c' Hc'. apply Hl. right. exact Hc'.
  - rewrite applyChange_uid. exact Hu.
Qed.

Section OneRecord.
Variables (refs : list nat) (i : nat) (n : Node.t) (c : Change.t).

Lemma changes_keep (l : list Change.t) :
  forall store,
    (forall c', In c' l -> Change.uid c' = Change.uid c -> c' = c) ->
    findIndex store refs (Change.uid c) = Some i ->
    store !! i = Some (assign n c) ->
    fold_left (applyChange refs) l store !! i = Some (assign n c).
Proof.
  induction l as [|c' l IH]; intros store Hl Hfind Hn; simpl; [exact Hn|].
  assert (Hfind' : findIndex (applyChange refs store c') refs (Change.uid c) = Some i).
  { rewrite (findIndex_ext store); [exact Hfind|]. apply applyChange_uid. }
  apply IH; [intros c2 H2; apply Hl; right; exact H2 | exact Hfind' |].
  destruct (String.eqb_spec (Change.uid c') (Change.uid c)) as [Heq|Hne].
  - assert (Hc : c' = c) by (apply Hl; [left; reflexivity | exact Heq]).
    subst c'.
    rewrite (applyChange_found refs store c i _ Hfind Hn).
    rewrite assign_idempotent. reflexivity.
  - rewrite applyChange_other; [exact Hn|].
    rewrite (list_lookup_total_correct _ _ _ Hn). exact Hne.
Qed.

Lemma changes_apply (l : list Change.t) :
  forall store,
    (forall c', In c' l -> Change.uid c' = Change.uid c -> c' = c) ->
    findIndex store refs (Change.uid c) = Some i ->
    store !! i = Some n ->
    In c l ->
    fold_left (applyChange refs) l store !! i = Some (assign n c).
Proof.
  induction l as [|c' l IH]; intros store Hl Hfind Hn Hin; simpl; [destruct Hin|].
  assert (Hfind' : findIndex (applyChange refs store c') refs (Change.uid c) = Some i).
  { rewrite (findIndex_ext store); [exact Hfind|]. apply applyChange_uid. }
  assert (Hl' : forall c2, In c2 l -> Change.uid c2 = Change.uid c -> c2 = c)
    by (intros c2 H2; apply Hl; right; exact H2).
  destruct (String.eqb_spec (Change.uid c') (Change.uid c)) as [Heq|Hne].
  - assert (Hc : c' = c) by (apply Hl; [left; reflexivity | exact Heq]).
    subst c'.
    apply changes_keep; [exact Hl' | exact Hfind' | ].
    apply applyChange_found; assumption.
  - apply IH; [exact Hl' | exact Hfind' | | ].
    + rewrite applyChange_other; [exact Hn|].
      destruct (findIndex_Some _ _ _ _ Hfind) as [_ Hu].
      rewrite Hu. exact Hne.
    + destruct Hin as [-> | Hin]; [contradiction | exact Hin].
Qed.

End OneRecord.

Lemma Qeqb_true (a b : Q) : Qeqb a b = true <-> (a == b)%Q.
Proof. apply Qeq_bool_iff. Qed.

End TemporalChanges.

(** C10, as amended.  In temporal mode, a render at the time of a change
    record writes the record onto the stored node object it finds (the
    first node of the filtered selection with that uid), in [allData]
    itself; a render afterwards under any window at whose time no change
    is scheduled for that node leaves the stored node as patched.  Nothing
    undoes a change; only another change record can overwrite what it
    wrote. *)
Theorem temporal_change_persists
    (s : Network.state) (w : TimeWindow.t) (c : Change.t) (i : nat) (n : Node.t) :
  let store := Data.nodes (Network.allData s) in
  let changes := Data.changes (Network.allData s) in
  Network.temporal s = true ->
  store !! i = Some n ->
  Network.findIndex store (Network.filterNodes s store) (Change.uid c) = Some i ->
  In c changes ->
  (Change.time c == inject_Z (TimeWindow.time w))%Q ->
  (forall c', In c' changes ->
              (Change.time c' == inject_Z (TimeWindow.time w))%Q ->
              Change.uid c' = Change.uid c -> c' = c) ->
  let s1 := Network.updateTime s w in
  Data.nodes (Network.allData s1) !! i = Some (Network.assign n c)
  /\ forall w',
       (forall c', In c' changes -> Change.uid c' = Change.uid c ->
                   ~ (Change.time c' == inject_Z (TimeWindow.time w'))%Q) ->
       Data.nodes (Network.allData (Network.updateTime s1 w')) !! i
       = Some (Network.assign n c).
Proof.
  intros store changes Htemp Hn Hfind Hin Htime Hone s1.
  assert (H1 : Data.nodes (Network.allData s1) !! i = Some (Network.assign n c)).
  { unfold s1, Network.updateTime, Network.render.
    cbn [Network.allData Network.with_time Network.temporal Data.nodes Data.changes
         Network.filter].
    rewrite Htemp. unfold Network.updateTemporalNodes. cbn [Network.time].
    apply changes_apply.
    - intros c' Hc' Hu. apply filter_In in Hc'. destruct Hc' as [Hc' Ht].
      apply Qeqb_true in Ht. apply Hone; assumption.
    - exact Hfind.
    - exact Hn.
    - apply filter_In. split; [exact Hin | apply Qeqb_true; exact Htime]. }
  split; [exact H1|].
  intros w' Hnone.
  unfold Network.updateTime at 1. unfold Network.render at 1.
  cbn [Network.allData Network.with_time Network.temporal Data.nodes Data.changes
       Network.filter].
  replace (Network.temporal s1) with true by (symmetry; exact Htemp).
  unfold Network.updateTemporalNodes. cbn [Network.time].
  rewrite (changes_other _ i (Change.uid c)).
  - exact H1.
  - intros c' Hc' Hu. apply filter_In in Hc'. destruct Hc' as [Hc' Ht].
    apply Qeqb_true in Ht. apply (Hnone c' Hc' Hu Ht).
  - rewrite (list_lookup_total_correct _ _ _ H1). reflexivity.
Qed.

Lemma temporal_change_persists_witness :
  let s := Scenario.toggling in
  let c := Scenario.recolour 2 "red" in
  let n := Data.nodes (Network.allData s) !!! 0%nat in
  Data.nodes (Network.allData (Network.updateTime s (TimeWindow.mk 1 2 2 3))) !! 0%nat
  = Some (Network.assign n c).
Proof.
  intros s c n.
  refine (proj1 (temporal_change_persists s (TimeWindow.mk 1 2 2 3) c 0 n
                   eq_refl _ eq_refl _ _ _)).
  - vm_compute. reflexivity.
  - right. left. reflexivity.
  - vm_compute. reflexivity.
  - intros c' [<- | [<- | []]] Ht Hu.
    + vm_compute in Ht. discriminate Ht.
    + reflexivity.
Defined.

(** C10 as stated fails: the node is blue; the render at time 2 makes the
    stored node red; the render afterwards at the earlier time 1, where
    another change is scheduled, makes it blue again. *)
Lemma earlier_time_restores_colour :
  let node s := Data.nodes (Network.allData s) !!! 0%nat in
  let s1 := Network.updateTime Scenario.toggling (TimeWindow.mk 1 2 2 3) in
  let s2 := Network.updateTime s1 (TimeWindow.mk 0 1 1 2) in
  Node.color (node Scenario.toggling) = Some "blue"
  /\ Node.color (node s1) = Some "red"
  /\ Node.color (node s2) = Node.color (node Scenario.toggling).
Proof. vm_compute. repeat split; reflexivity. Qed.

(** ** Search *)

Section Search.
Import JS Network.

Lemma lower_ascii_syntax (c : ascii) :
  is_syntax_character (lower_ascii c) = is_syntax_character c.
Proof. destruct c as [[] [] [] [] [] [] [] []]; vm_compute; reflexivity. Qed.

Lemma toLowerCase_ordinary (q : string) : ordinary (toLowerCase q) = ordinary q.
Proof.
  unfold ordinary. induction q as [|c q IH]; simpl; [reflexivity|].
  rewrite lower_ascii_syntax, IH. reflexivity.
Qed.

Lemma atom_of_ordinary (c : ascii) :
  is_syntax_character c = false -> atom_of c = Some (Lit c).
Proof.
  intros H. unfold atom_of. rewrite H.
  destruct (Ascii.eqb_spec c "."); [subst c; discriminate H | reflexivity].
Qed.

(** A source without syntax characters is compiled to its characters. *)
Lemma RegExp_ordinary (q : string) : ordinary q = true -> RegExp q = Some (literals q).
Proof.
  unfold ordinary, literals. induction q as [|c q IH]; simpl; [reflexivity|].
  rewrite andb_true_iff, negb_true_iff. intros [Hc Hq].
  rewrite (atom_of_ordinary c Hc), (IH Hq). reflexivity.
Qed.

Lemma match_here_literals (q : string) :
  forall s, match_here (literals q) s = true <-> exists post, s = q ++ post.
Proof.
  unfold literals. induction q as [|c q IH]; intros s; simpl.
  - split; [intros _; exists s; reflexivity | reflexivity].
  - destruct s as [|c' s]; simpl.
    + split; [discriminate | intros [post H]; discriminate H].
    + rewrite andb_true_iff, IH. split.
      * intros [Hc [post ->]]. apply Ascii.eqb_eq in Hc. subst c'.
        exists post. reflexivity.
      * intros [post H]. inversion H; subst. split; [apply Ascii.eqb_refl|].
        exists post. reflexivity.
Qed.

Lemma search_from_range (p : list atom) (s : string) :
  forall i, (0 <= i)%Z ->
            search_from p s i = (-1)%Z \/ (0 <= search_from p s i)%Z.
Proof.
  induction s as [|c s IH]; intros i Hi; simpl.
  - destruct (match_here p ""); [right; exact Hi | left; reflexivity].
  - destruct (match_here p (String c s)); [right; exact Hi|].
    apply IH. lia.
Qed.

(** With literal atoms, [search] finds a match exactly in the strings
    that contain the source. *)
Lemma search_from_literals (q : string) (s : string) :
  forall i, (0 <= i)%Z ->
            (0 <= search_from (literals q) s i)%Z <-> includes s q.
Proof.
  induction s as [|c s IH]; intros i Hi; simpl.
  - destruct (match_here (literals q) "") eqn:E.
    + split; [|intros _; exact Hi]. intros _.
      apply match_here_literals in E. destruct E as [post E].
      exists "", post. exact E.
    + split; [lia|]. intros (pre & post & H).
      assert (Ht : match_here (literals q) "" = true); [|congruence].
      apply match_here_literals. exists post.
      destruct pre; [exact H | discriminate H].
  - destruct (match_here (literals q) (String c s)) eqn:E.
    + split; [|intros _; exact Hi]. intros _.
      apply match_here_literals in E. destruct E as [post E].
      exists "", post. exact E.
    + rewrite IH by lia. split.
      * intros (pre & post & H). exists (String c pre), post. simpl. rewrite H.
        reflexivity.
      * intros (pre & post & H). destruct pre as [|c' pre].
        -- assert (Ht : match_here (literals q) (String c s) = true); [|congruence].
           apply match_here_literals. exists post. exact H.
        -- simpl in H. inversion H. exists pre, post. reflexivity.
Qed.

Lemma hit_literals (q : string) (d : Node.t) :
  hit q (literals (toLowerCase q)) d = true <->
  q <> "" /\ includes (toLowerCase (getName d)) (toLowerCase q).
Proof.
  unfold hit, search. rewrite andb_true_iff, Nat.ltb_lt, Z.leb_le.
  rewrite search_from_literals by lia.
  assert (Hlen : (0 < String.length q)%nat <-> q <> "").
  { destruct q; simpl; split; intros H; try lia; congruence. }
  rewrite Hlen. reflexivity.
Qed.

Lemma same_node_hit (q : string) (re : list atom) (a b : Node.t) :
  same_node a b -> hit q re a = hit q re b /\ getColor a = getColor b.
Proof.
  unfold same_node, set_searched, hit, getName, getColor.
  intros H. inversion H. split; congruence.
Qed.

Lemma set_searched_same (d : Node.t) (b : bool) : same_node (set_searched d b) d.
Proof. reflexivity. Qed.

Lemma searched_store_refl (q : string) (re : list atom) (a : list Node.t) :
  searched_store q re a a.
Proof. split; [reflexivity|]. intros j. split; [reflexivity | left; reflexivity]. Qed.

Lemma searched_store_trans (q : string) (re : list atom) (a b c : list Node.t) :
  searched_store q re a b -> searched_store q re b c -> searched_store q re a c.
Proof.
  intros [Hl1 H1] [Hl2 H2]. split; [congruence|]. intros j.
  destruct (H1 j) as [Hs1 Hf1]. destruct (H2 j) as [Hs2 Hf2].
  split; [unfold same_node in *; congruence|].
  destruct (same_node_hit q re _ _ Hs1) as [Hh _].
  destruct Hf2 as [Hf2 | Hf2]; rewrite Hf2.
  - exact Hf1.
  - right. exact Hh.
Qed.

Lemma searchCircle_store (q : string) (re : list atom) (store : list Node.t)
    (el : Circle.t) :
  searched_store q re store (snd (searchCircle q re store el))
  /\ ((Circle.datum el < length store)%nat ->
      Node.searched (snd (searchCircle q re store el) !!! Circle.datum el)
      = hit q re (store !!! Circle.datum el)).
Proof.
  unfold searchCircle. fold (hit q re (store !!! Circle.datum el)).
  destruct (hit q re (store !!! Circle.datum el)) eqn:E; cbn [snd].
  all: split;
    [ split; [apply length_insert|]; intros j;
      rewrite list_lookup_total_insert;
      destruct (decide (Circle.datum el = j /\ (Circle.datum el < length store)%nat))
        as [[<- _]|_];
      [ split; [apply set_searched_same | right; rewrite E; reflexivity]
      | split; [reflexivity | left; reflexivity] ]
    | intros Hlt; rewrite list_lookup_total_insert_eq by exact Hlt; reflexivity ].
Qed.

Lemma searchEach_spec (q : string) (re : list atom) (els : list Circle.t) :
  forall store,
    let r := searchEach q re els store in
    searched_store q re store (snd r)
    /\ length (fst r) = length els
    /\ forall k el,
         els !! k = Some el ->
         Circle.removing el = false ->
         (Circle.datum el < length store)%nat ->
         exists el',
           fst r !! k = Some el'
           /\ Circle.datum el' = Circle.datum el
           /\ Circle.node_search el' = hit q re (store !!! Circle.datum el)
           /\ Circle.fill el'
              = (if hit q re (store !!! Circle.datum el) then "#F38630"
                 else getColor (store !!! Circle.datum el))
           /\ Node.searched (snd r !!! Circle.datum el)
              = hit q re (store !!! Circle.datum el).
Proof.
  induction els as [|el0 els IH]; intros store; simpl.
  - split; [apply searched_store_refl|]. split; [reflexivity|].
    intros k el H. rewrite lookup_nil in H. discriminate H.
  - destruct (Circle.removing el0) eqn:Erem.
    + specialize (IH store). cbn zeta in IH.
      destruct (searchEach q re els store) as [els' store'] eqn:Es.
      cbn [fst snd] in *. destruct IH as (Hst & Hlen & Hk).
      split; [exact Hst|]. split; [simpl; congruence|].
      intros [|k] el Hel Hr Hd; simpl in Hel.
      * inversion Hel; subst. congruence.
      * apply (Hk k el Hel Hr Hd).
    + pose proof (searchCircle_store q re store el0) as [Hc1 Hc2].
      destruct (searchCircle q re store el0) as [el0' store1] eqn:Ec.
      cbn [snd] in Hc1, Hc2.
      specialize (IH store1). cbn zeta in IH.
      destruct (searchEach q re els store1) as [els' store'] eqn:Es.
      cbn [fst snd] in *. destruct IH as (Hst & Hlen & Hk).
      split; [eapply searched_store_trans; eassumption|].
      split; [simpl; congruence|].
      destruct Hc1 as [Hl1 Hs1]. destruct Hst as [Hl2 Hs2].
      intros [|k] el Hel Hr Hd; simpl in Hel.
      * inversion Hel; subst el0. exists el0'. split; [reflexivity|].
        unfold searchCircle in Ec.
        fold (hit q re (store !!! Circle.datum el)) in Ec.
        specialize (Hc2 Hd).
        destruct (Hs2 (Circle.datum el)) as [Hsame Hflag].
        destruct (Hs1 (Circle.datum el)) as [Hsame1 _].
        destruct (same_node_hit q re _ _ Hsame1) as [Hh1 _].
        assert (Hfin : Node.searched (store' !!! Circle.datum el)
                       = hit q re (store !!! Circle.datum el)).
        { destruct Hflag as [Hf | Hf]; rewrite Hf; congruence. }
        destruct (hit q re (store !!! Circle.datum el)); inversion Ec; subst;
          cbn; auto.
      * destruct (Hk k el Hel Hr) as (el' & He' & Hdat & Hns & Hfill & Hse).
        { rewrite Hl1. exact Hd. }
        destruct (Hs1 (Circle.datum el)) as [Hsame1 _].
        destruct (same_node_hit q re _ _ Hsame1) as [Hh1 Hc1].
        exists el'. rewrite <- Hh1, <- Hc1. auto.
Qed.

End Search.

(** C8, as amended.  For a query without regular-expression syntax
    characters, [updateSearch] gives every node of the selection the flag
    [searched] exactly when the query is not empty and the lower-cased
    display name (label, else uid) contains the lower-cased query, the
    query and the name being made of ASCII characters; the circle of a
    searched node gets the class [node_search] and the marker fill, and
    every other circle loses the class and takes the colour of its
    node. *)
Theorem updateSearch_marks (s : Network.state) (query : string) :
  JS.ordinary query = true ->
  exists s',
    Network.updateSearch s query = Some s'
    /\ forall k el,
         Network.g_nodes s !! k = Some el ->
         Circle.removing el = false ->
         (Circle.datum el < length (Data.nodes (Network.allData s)))%nat ->
         exists el',
           Network.g_nodes s' !! k = Some el'
           /\ Circle.datum el' = Circle.datum el
           /\ let d := Data.nodes (Network.allData s) !!! Circle.datum el in
              let d' := Data.nodes (Network.allData s') !!! Circle.datum el in
              (JS.ascii_only query = true ->
               JS.ascii_only (Network.getName d) = true ->
               (Node.searched d' = true <->
                query <> ""
                /\ JS.includes (JS.toLowerCase (Network.getName d))
                     (JS.toLowerCase query)))
              /\ Circle.node_search el' = Node.searched d'
              /\ Circle.fill el'
                 = (if Node.searched d' then "#F38630" else Network.getColor d)
              /\ Network.getColor d' = Network.getColor d.
Proof.
  intros Hq. unfold Network.updateSearch.
  rewrite RegExp_ordinary by (rewrite toLowerCase_ordinary; exact Hq).
  pose proof (searchEach_spec query (JS.literals (JS.toLowerCase query))
                (Network.g_nodes s) (Data.nodes (Network.allData s))) as H.
  cbn zeta in H.
  destruct (Network.searchEach _ _ _ _) as [circles store] eqn:Es.
  cbn [fst snd] in H. destruct H as ([Hl Hst] & _ & Hk).
  eexists. split; [reflexivity|]. cbn [Network.g_nodes Network.allData Data.nodes].
  intros k el Hel Hr Hd.
  destruct (Hk k el Hel Hr Hd) as (el' & He' & Hdat & Hns & Hfill & Hse).
  exists el'. split; [exact He'|]. split; [exact Hdat|]. cbn zeta.
  rewrite Hse, Hns, Hfill. split; [intros _ _; apply hit_literals|].
  split; [reflexivity|]. split; [reflexivity|].
  destruct (Hst (Circle.datum el)) as [Hsame _].
  apply (same_node_hit query []) in Hsame. apply Hsame.
Qed.

Lemma updateSearch_marks_witness :
  exists s',
    Network.updateSearch Scenario.named "BC" = Some s'
    /\ (exists el', Network.g_nodes s' !! 0%nat = Some el')
    /\ (Node.searched (Data.nodes (Network.allData s') !!! 0%nat) = true <->
        "BC" <> ""
        /\ JS.includes (JS.toLowerCase "abc") (JS.toLowerCase "BC")).
Proof.
  destruct (updateSearch_marks Scenario.named "BC" eq_refl) as (s' & Hs & Hk).
  exists s'. split; [exact Hs|].
  destruct (Hk 0%nat
              (Circle.mk 0 (Some (20 # 2)) "#99ccff" false false false)
              eq_refl eq_refl) as (el' & He' & _ & Hiff & _).
  - vm_compute. lia.
  - split; [exists el'; exact He'|]. exact (Hiff eq_refl eq_refl).
Defined.

(** C8 as stated fails: the query [.] is a regular expression that matches
    any character, so the node abc becomes searched although its name does
    not contain a dot. *)
Lemma dot_query_matches_everything :
  exists s',
    Network.updateSearch Scenario.named "." = Some s'
    /\ Node.searched (Data.nodes (Network.allData s') !!! 0%nat) = true
    /\ Network.getName (Data.nodes (Network.allData Scenario.named) !!! 0%nat) = "abc"
    /\ ~ JS.includes (JS.toLowerCase "abc") (JS.toLowerCase ".").
Proof.
  eexists. split; [vm_compute; reflexivity|].
  split; [reflexivity|]. split; [reflexivity|].
  intros (pre & post & H). simpl in H.
  destruct pre as [|c1 [|c2 [|c3 [|c4 pre]]]]; simpl in H;
    inversion H.
Qed.

(** ** Rendering twice *)

Section RenderTwice.
Import JS Network.

Lemma force_idempotent (name : string) (attach : bool) (fs : gset string) :
  force name attach (force name attach fs) = force name attach fs.
Proof. unfold force. destruct attach; set_solver. Qed.



Lemma exitCircle_idempotent (el : Circle.t) : exitCircle (exitCircle el) = exitCircle el.
Proof. reflexivity. Qed.


(** The line a key is mapped to by [nodeByKeyValue]: the first one. *)
Lemma nodeByKeyValue_lookup (els : list Line.t) (k : string) :
  nodeByKeyValue els !! k = first_with k els.
Proof.
  unfold nodeByKeyValue, first_with.
  induction els as [|el els IH]; simpl; [apply lookup_empty|].
  destruct (String.eqb_spec (Link.uid (Line.datum el)) k) as [Heq|Hne].
  - rewrite Heq. apply lookup_insert_eq.
  - rewrite lookup_insert_ne by exact Hne. exact IH.
Qed.


Section JoinAgain.
(** [f] is what is done to the classes of the lines after the join:
    nothing, or [renderTemporalEdges]. *)
Variable f : Line.t -> Line.t.
Hypothesis f_datum : forall el, Line.datum (f el) = Line.datum el.
Hypothesis f_idempotent : forall el, f (f el) = f el.






End JoinAgain.

End RenderTwice.

Section RenderIdempotent.
Import JS Network.

Lemma scaleRadius_ext (s s' : state) (n : Node.t) :
  countExtent s = countExtent s' ->
  radiusMinSize s = radiusMinSize s' ->
  radiusMaxSize s = radiusMaxSize s' ->
  scaleRadius s n = scaleRadius s' n.
Proof. intros H1 H2 H3. unfold scaleRadius. rewrite H1, H2, H3. reflexivity. Qed.

(** [renderNodes] reads of the state only what [scaleRadius] reads. *)
Lemma renderNodes_ext (s s' : state) (store : list Node.t) (els : list Circle.t) :
  countExtent s = countExtent s' ->
  radiusMinSize s = radiusMinSize s' ->
  radiusMaxSize s = radiusMaxSize s' ->
  forall nodesData,
    renderNodes s store els nodesData = renderNodes s' store els nodesData.
Proof.
  intros H1 H2 H3.
  assert (He : forall d, enterCircle s store d = enterCircle s' store d).
  { intros d. unfold enterCircle. rewrite (scaleRadius_ext s s') by assumption.
    reflexivity. }
  assert (Hu : forall el d, updateCircle s store el d = updateCircle s' store el d).
  { intros el d. unfold updateCircle. rewrite (scaleRadius_ext s s') by assumption.
    reflexivity. }
  induction els as [|el els IH]; intros [|d ds]; simpl; try reflexivity.
  - f_equal; [apply He|]. apply map_ext. exact He.
  - rewrite Hu, IH. reflexivity.
Qed.



(** [render] on a state with the settings of [s], the data [data] and
    any scene. *)
Lemma render_on (s : state) (data : Data.t) (fs : gset string)
    (gn : list Circle.t) (ge : list Line.t) :
  render (mkState (temporal s) (radiusMinSize s) (radiusMaxSize s) (layout s)
            (filter s) (time s) data (linkedByIndex s) (countExtent s) fs gn ge)
  = mkState (temporal s) (radiusMinSize s) (radiusMaxSize s) (layout s)
      (filter s) (time s)
      (Data.mk (patched s data) (Data.links data) (Data.changes data))
      (linkedByIndex s) (countExtent s)
      (setupLayout s fs)
      (renderNodes s (patched s data) gn (selection s data))
      (classed s (renderEdges ge (shown s data))).
Proof.
  destruct s. unfold render, patched, selection, shown, setupLayout, classed.
  cbn [temporal radiusMinSize radiusMaxSize layout filter time allData
       linkedByIndex countExtent forces g_nodes g_edges Data.nodes Data.links
       Data.changes].
  f_equal. apply renderNodes_ext; reflexivity.
Qed.

Lemma render_unfold (s : state) :
  render s
  = mkState (temporal s) (radiusMinSize s) (radiusMaxSize s) (layout s)
      (filter s) (time s)
      (Data.mk (patched s (allData s)) (Data.links (allData s))
         (Data.changes (allData s)))
      (linkedByIndex s) (countExtent s)
      (setupLayout s (forces s))
      (renderNodes s (patched s (allData s)) (g_nodes s) (selection s (allData s)))
      (classed s (renderEdges (g_edges s) (shown s (allData s)))).
Proof. reflexivity. Qed.

(** *** Assigning the changes of one instant twice *)




(** The node at [j] after the changes [l]: the records that find [j],
    assigned in their order. *)
Lemma changes_lookup (refs : list nat) (j : nat) (l : list Change.t) :
  forall store,
    fold_left (applyChange refs) l store !! j
    = fold_left assign
        (List.filter
           (fun c => bool_decide (findIndex store refs (Change.uid c) = Some j)) l)
      <$> store !! j.
Proof.
  induction l as [|c l IH]; intros store; simpl.
  - destruct (store !! j); reflexivity.
  - rewrite IH.
    assert (Hsame : forall c0,
               bool_decide (findIndex (applyChange refs store c) refs (Change.uid c0)
                            = Some j)
               = bool_decide (findIndex store refs (Change.uid c0) = Some j)).
    { intros c0. rewrite (findIndex_ext store); [reflexivity|].
      apply applyChange_uid. }
    rewrite (filter_ext _ _ Hsame).
    destruct (bool_decide (findIndex store refs (Change.uid c) = Some j)) eqn:E.
    + apply bool_decide_eq_true in E. simpl.
      destruct (store !! j) as [n|] eqn:Hn.
      * rewrite (applyChange_found refs store c j n E Hn). reflexivity.
      * unfold applyChange. rewrite E.
        rewrite list_insert_ge by (apply lookup_ge_None; exact Hn).
        rewrite Hn. reflexivity.
    + apply bool_decide_eq_false in E.
      assert (Hj : applyChange refs store c !! j = store !! j).
      { unfold applyChange.
        destruct (findIndex store refs (Change.uid c)) as [i|] eqn:Ei; [|reflexivity].
        apply list_lookup_insert_ne. congruence. }
      rewrite Hj. reflexivity.
Qed.

Lemma changes_uid (refs : list nat) (l : list Change.t) :
  forall store j,
    Node.uid (fold_left (applyChange refs) l store !!! j) = Node.uid (store !!! j).
Proof.
  induction l as [|c l IH]; intros store j; simpl; [reflexivity|].
  rewrite IH. apply applyChange_uid.
Qed.

Lemma changes_length (refs : list nat) (l : list Change.t) :
  forall store, length (fold_left (applyChange refs) l store) = length store.
Proof.
  induction l as [|c l IH]; intros store; simpl; [reflexivity|].
  rewrite IH. apply applyChange_length.
Qed.




End RenderIdempotent.

Section StableSelection.
Import JS Network.




End StableSelection.




(** * Further properties of the slider *)

Section SliderTrack.
Import JS Slider Events.

Lemma x_on_track (s : Slider.state) (v : Q) : (0 <= x s v <= width)%Q.
Proof.
  unfold x, targetValue, width. change (600 - 50 - 50)%Q with 500%Q.
  pose proof (clamp01_range (v / inject_Z (timeSteps s))). lra.
Qed.

(** Whatever the value and the deltas, [update] leaves the four handles
    in order on the track. *)
Lemma update_handles (v : Q) (sn : Slider.state * Network.state) :
  handles_in_order (fst (update v sn)).
Proof.
  destruct sn as [s net]. unfold handles_in_order.
  cbn [update fst handle pastHandle futureHandle aggregationHandle].
  pose proof (x_on_track s v) as Hv.
  pose proof (x_on_track s (inject_Z (pastDelta s))) as Hp.
  pose proof (x_on_track s (inject_Z (aggregationDelta s))) as Ha.
  pose proof (x_on_track s (inject_Z (futureDelta s))) as Hf.
  change width with 500%Q in *.
  destruct (Qltb (x s (inject_Z (pastDelta s))) (x s v)) eqn:E1;
    [apply Qltb_true in E1 | apply Qltb_false in E1];
    (destruct (Qltb (x s v + x s (inject_Z (aggregationDelta s))) 500) eqn:E2;
     [apply Qltb_true in E2 | apply Qltb_false in E2]);
    (destruct (Qltb (x s v + x s (inject_Z (aggregationDelta s))
                     + x s (inject_Z (futureDelta s))) 500) eqn:E3;
     [apply Qltb_true in E3 | apply Qltb_false in E3]);
    repeat split; lra.
Qed.

Lemma update_deltas (v : Q) (sn : Slider.state * Network.state) :
  let s' := fst (update v sn) in
  pastDelta s' = pastDelta (fst sn)
  /\ futureDelta s' = futureDelta (fst sn)
  /\ aggregationDelta s' = aggregationDelta (fst sn)
  /\ config_past s' = config_past (fst sn)
  /\ config_future s' = config_future (fst sn)
  /\ config_aggregation s' = config_aggregation (fst sn)
  /\ timeSteps s' = timeSteps (fst sn).
Proof. destruct sn as [s net]. cbn. repeat split. Qed.

Lemma update_invariant (v : Q) (s : Slider.state) (net : Network.state) :
  (0 <= config_past s)%Z -> (0 <= config_future s)%Z ->
  (0 <= config_aggregation s)%Z -> deltas_not_negative s ->
  slider_invariant (fst (update v (s, net))).
Proof.
  intros H1 H2 H3 (H4 & H5 & H6).
  pose proof (update_handles v (s, net)) as Hh.
  pose proof (update_deltas v (s, net)) as Hd. cbn zeta in Hd. cbn [fst] in Hd.
  destruct Hd as (E1 & E2 & E3 & E4 & E5 & E6 & _).
  unfold slider_invariant, deltas_not_negative.
  rewrite E1, E2, E3, E4, E5, E6. auto 10.
Qed.

Lemma fire_invariant (sn : Slider.state * Network.state) (e : event) :
  slider_invariant (fst sn) -> slider_invariant (fst (fire sn e)).
Proof.
  destruct sn as [s net]. intros Hinv.
  pose proof Hinv as (C1 & C2 & C3 & (D1 & D2 & D3) & Hh).
  destruct e; cbn [fire fst snd].
  - unfold drag. cbn [fst snd]. apply update_invariant; assumption || (split; auto).
  - destruct (lookoutShow s); [|exact Hinv]. unfold pastUpdate. cbn [fst snd].
    destruct (_ && _); [|exact Hinv].
    apply update_invariant; try assumption.
    repeat split; cbn; try assumption. apply Z.abs_nonneg.
  - destruct (lookoutShow s); [|exact Hinv]. unfold futureUpdate. cbn [fst snd].
    destruct (_ && _); [|exact Hinv].
    apply update_invariant; try assumption.
    repeat split; cbn; try assumption. apply Z.abs_nonneg.
  - destruct (aggregationShow s); [|exact Hinv]. unfold aggregationUpdate.
    cbn [fst snd]. destruct (_ && _); [|exact Hinv].
    apply update_invariant; try assumption.
    repeat split; cbn; try assumption. apply Z.abs_nonneg.
  - destruct (moving s); [|exact Hinv]. unfold step. cbn [fst].
    pose proof (update_invariant (x_invert s (currentValue s)) s net C1 C2 C3
                  (conj D1 (conj D2 D3))) as Hu.
    destruct (update (x_invert s (currentValue s)) (s, net)) as [s1 net1].
    cbn [fst] in Hu. destruct (Qltb _ _); exact Hu.
  - exact Hinv.
  - unfold aggregationBtn. cbn [fst snd]. apply update_invariant; try assumption.
    repeat split; cbn; try assumption. destruct (aggregationShow s); [lia | assumption].
  - unfold lookoutBtn. cbn [fst snd]. apply update_invariant; try assumption.
    repeat split; cbn; try assumption; destruct (lookoutShow s); lia || assumption.
Qed.

End SliderTrack.

(** X1.  The two scales of the slider are inverse to each other on the
    timeline of fewer than 1000 steps, up to the roundings of the double
    arithmetic: a time inside [[0, timeSteps]] is found again from its
    abscissa within [10^-9] of a step, and an abscissa on the track from
    its time within [10^-6] of a pixel. *)
Theorem scale_round_trip (s : Slider.state) :
  (0 < Slider.timeSteps s < 1000)%Z ->
  (forall v, (0 <= v <= inject_Z (Slider.timeSteps s))%Q ->
             (- (1 # 1000000000) <= Slider64.x_invert s (Slider64.x s v) - v
              <= 1 # 1000000000)%Q)
  /\ (forall p, (0 <= p <= Slider.width)%Q ->
                (- (1 # 1000000) <= Slider64.x s (Slider64.x_invert s p) - p
                 <= 1 # 1000000)%Q).
Proof.
  intros HS. pose proof (steps_range s HS) as HSq. split.
  - intros v Hv.
    destruct (x_near s HS v) as (w & Hw & Hv' & Hx & Hx0).
    rewrite (clamp_inside s HS v Hv) in Hv'. pose proof (x_upper s HS v) as Hx1.
    destruct (x_invert_raw s HS (Slider64.x s v) w (501 * Double.eps))
      as (i & -> & Hi); [unfold Double.eps in *; lra .. |].
    pose proof (clamp_near s HS i v (2 * (501 * Double.eps) + 1001 * Double.eps) Hv)
      as Hc.
    unfold Double.eps in *. lra.
  - intros p Hp. change Slider.width with 500%Q in Hp.
    assert (Hw : (p / 500 * 500 == p)%Q) by (field; lra).
    set (w := (p / 500)%Q) in *.
    destruct (x_invert_raw s HS p w 0) as (i & Ei & Hi); [lra .. |].
    assert (Hy : (0 <= w * inject_Z (Slider.timeSteps s)
                  <= inject_Z (Slider.timeSteps s))%Q).
    { pose proof (scaled_le s HS 0 w ltac:(lra)).
      pose proof (scaled_le s HS w 1 ltac:(lra)). lra. }
    pose proof (clamp_near s HS i _ (2 * 0 + 1001 * Double.eps) Hy Hi) as Hc.
    rewrite <- Ei in Hc.
    pose proof (x_invert_domain s p HS) as Ht.
    set (t := Slider64.x_invert s p) in *.
    destruct (x_near s HS t) as (w' & Hw' & Ht' & Hx & _).
    rewrite (clamp_inside s HS t Ht) in Ht'.
    assert (Hd : (- (1001 * Double.eps)
                  <= w' * inject_Z (Slider.timeSteps s)
                     - w * inject_Z (Slider.timeSteps s)
                  <= 1001 * Double.eps)%Q) by (unfold Double.eps in *; lra).
    pose proof (unscaled s HS _ _ _ Hd) as Hu.
    unfold Double.eps in *. lra.
Qed.

Lemma scale_round_trip_witness :
  (- (1 # 1000000000)
   <= Slider64.x_invert Scenario.slider64 (Slider64.x Scenario.slider64 7) - 7
   <= 1 # 1000000000)%Q.
Proof.
  assert (HS : (0 < Slider.timeSteps Scenario.slider64 < 1000)%Z)
    by (vm_compute; split; reflexivity).
  apply (proj1 (scale_round_trip Scenario.slider64 HS)).
  split; vm_compute; discriminate.
Defined.

(** X2.  Whatever sequence of drags, ticks and clicks the slider goes
    through from its initial state, with configured widths that are not
    negative, the three deltas are never negative and the four handles
    stay in order on the track: 0 <= past <= primary <= aggregation <=
    future <= width. *)
Theorem events_keep_deltas_and_handles
    (steps past future aggregation : Z) (net : Network.state)
    (es : list Events.event) :
  (0 <= past)%Z -> (0 <= future)%Z -> (0 <= aggregation)%Z ->
  let s := fst (Events.run es (Slider.sliderMenu steps past future aggregation, net)) in
  Events.deltas_not_negative s /\ Events.handles_in_order s.
Proof.
  intros Hp Hf Ha.
  assert (Hinit : Events.slider_invariant
                    (fst (Slider.sliderMenu steps past future aggregation, net))).
  { cbn. unfold Events.slider_invariant, Events.deltas_not_negative, Events.handles_in_order.
    cbn. change Slider.width with 500%Q. repeat split; try assumption; try lia; lra. }
  revert Hinit.
  generalize (Slider.sliderMenu steps past future aggregation, net).
  unfold Events.run.
  induction es as [|e es IH]; intros sn Hinv; simpl.
  - destruct Hinv as (_ & _ & _ & Hd & Hh). split; assumption.
  - apply IH. apply fire_invariant. exact Hinv.
Qed.

Lemma events_keep_deltas_and_handles_witness :
  let s := fst (Events.run [Events.Lookout; Events.DragPast 0; Events.Drag 300]
                  (Slider.sliderMenu 10 1 1 0, Scenario.config)) in
  Events.deltas_not_negative s /\ Events.handles_in_order s.
Proof.
  apply (events_keep_deltas_and_handles 10 1 1 0 Scenario.config
           [Events.Lookout; Events.DragPast 0; Events.Drag 300]);
    vm_compute; discriminate.
Defined.

Section RoundedPlay.
Import JS Slider.

Lemma x_same_steps64 (s s1 : Slider.state) (v : Q) :
  timeSteps s1 = timeSteps s -> Slider64.x s1 v = Slider64.x s v.
Proof.
  intros H. unfold Slider64.x, Slider64.clamp. rewrite H. reflexivity.
Qed.

(** The width of a step on the track. *)
Lemma step_width (s : Slider.state) :
  (0 < timeSteps s < 1000)%Z ->
  let g := (targetValue / inject_Z (timeSteps s))%Q in
  (g * inject_Z (timeSteps s) == 500)%Q /\ (1 # 2 <= g <= 500)%Q.
Proof.
  intros HS g. pose proof (steps_range s HS) as HSq.
  assert (Hg : (g * inject_Z (timeSteps s) == 500)%Q).
  { unfold g. change targetValue with 500%Q. field. lra. }
  assert (Hg0 : (0 <= g)%Q).
  { unfold g. change targetValue with 500%Q. apply Qle_shift_div_l; lra. }
  assert (H1 : (inject_Z (timeSteps s) * g <= 999 * g)%Q)
    by (apply Qmult_le_compat_r; lra).
  assert (H2 : (1 * g <= inject_Z (timeSteps s) * g)%Q)
    by (apply Qmult_le_compat_r; lra).
  split; [exact Hg|]. split; lra.
Qed.

(** So many steps on the track. *)
Lemma steps_on_track (g : Q) (n m : Z) :
  (0 <= g)%Q -> (n <= m)%Z -> (inject_Z n * g <= inject_Z m * g)%Q.
Proof.
  intros Hg Hnm. apply Qmult_le_compat_r; [|exact Hg].
  rewrite <- Zle_Qle. exact Hnm.
Qed.

End RoundedPlay.

(** X3.  One tick of the play timer, with the primary position on the
    k-th step of a timeline of fewer than 1000 steps, up to an error [e]
    of at most [10^-7] pixel left by the ticks before, and [k +
    aggregationDelta] inside the timeline: the window pushed has [time =
    k], [past = max(0, k - pastDelta)], [aggregated = k +
    aggregationDelta] and [future = min(timeSteps, k + aggregationDelta +
    futureDelta)].  The position then moves to step [k + 1], with two
    roundings more of error, if the aggregation ends before the end of
    the timeline there, and goes back to 0 with the timer stopped if it
    ends beyond.  (When it ends on the end of the timeline, the roundings
    decide.) *)
Theorem play_tick (s : Slider.state) (net : Network.state) (k : Z) (e : Q) :
  (0 < Slider.timeSteps s < 1000)%Z ->
  (0 <= Slider.pastDelta s)%Z ->
  (0 <= Slider.aggregationDelta s)%Z ->
  (0 <= Slider.futureDelta s)%Z ->
  (0 <= k)%Z ->
  (k + Slider.aggregationDelta s <= Slider.timeSteps s)%Z ->
  (0 <= e <= 1 # 10000000)%Q ->
  (- e <= Slider.currentValue s
          - inject_Z k * (Slider.targetValue / inject_Z (Slider.timeSteps s))
   <= e)%Q ->
  let sn' := Slider64.step (s, net) in
  let w := Network.time (snd sn') in
  TimeWindow.time w = k
  /\ TimeWindow.past w = Z.max 0 (k - Slider.pastDelta s)
  /\ TimeWindow.aggregated w = (k + Slider.aggregationDelta s)%Z
  /\ TimeWindow.future w
     = Z.min (Slider.timeSteps s) (k + Slider.aggregationDelta s + Slider.futureDelta s)
  /\ ((k + 1 + Slider.aggregationDelta s < Slider.timeSteps s)%Z ->
      Slider.moving (fst sn') = Slider.moving s
      /\ (- (e + 2 * Double.eps)
          <= Slider.currentValue (fst sn')
             - inject_Z (k + 1)
               * (Slider.targetValue / inject_Z (Slider.timeSteps s))
          <= e + 2 * Double.eps)%Q)
  /\ ((Slider.timeSteps s < k + 1 + Slider.aggregationDelta s)%Z ->
      Slider.currentValue (fst sn') = 0%Q /\ Slider.moving (fst sn') = false).
Proof.
  intros HS Hp Ha Hf Hk Hfit He Hcv sn' w.
  pose proof (steps_range s HS) as HSq.
  destruct (step_width s HS) as [Hg Hgr]. cbv zeta in Hg, Hgr.
  change Slider.targetValue with 500%Q in *.
  set (g := (500 / inject_Z (Slider.timeSteps s))%Q) in *.
  set (cv := Slider.currentValue s) in *.
  assert (Hg0 : (0 <= g)%Q) by lra.
  (* the current time *)
  assert (HkS : (k <= Slider.timeSteps s)%Z) by lia.
  pose proof (steps_on_track g 0 k Hg0 Hk) as Hk0.
  pose proof (steps_on_track g k _ Hg0 HkS) as Hk1.
  change (inject_Z 0) with 0%Q in Hk0.
  assert (Hkq : (0 <= inject_Z k <= inject_Z (Slider.timeSteps s))%Q).
  { split; [apply delta_nonneg; exact Hk | rewrite <- Zle_Qle; exact HkS]. }
  assert (Hw : (inject_Z k / inject_Z (Slider.timeSteps s)
                * inject_Z (Slider.timeSteps s) == inject_Z k)%Q) by (field; lra).
  assert (Hw5 : (500 * (inject_Z k / inject_Z (Slider.timeSteps s))
                 == inject_Z k * g)%Q).
  { unfold g. field. lra. }
  set (wk := (inject_Z k / inject_Z (Slider.timeSteps s))%Q) in *.
  destruct (x_invert_raw s HS cv wk e) as (i & Ei & Hi); [lra | lra | lra |].
  assert (Hi' : (- (2 * e + 1001 * Double.eps) <= i - inject_Z k
                 <= 2 * e + 1001 * Double.eps)%Q) by lra.
  pose proof (clamp_near s HS i (inject_Z k) (2 * e + 1001 * Double.eps) Hkq Hi')
    as Hc.
  rewrite <- Ei in Hc.
  pose proof (x_invert_domain s cv HS) as Ht.
  set (t := Slider64.x_invert s cv) in *.
  assert (Htk : (- (1 # 1000000) <= t - inject_Z k <= 1 # 1000000)%Q)
    by (unfold Double.eps in *; lra).
  assert (Hr : JS.toFixed0 t = k) by (apply toFixed0_within; lra).
  assert (Hclear : Slider64.clear_of_ties t).
  { unfold Slider64.clear_of_ties, Slider64.margin. rewrite Hr. split; lra. }
  destruct (update_window64 s net t HS Hp Ha Hf Ht)
    as (_ & _ & Htime & Hrest).
  destruct (Hrest Hclear) as (Hpast & Hfut & Hagg).
  rewrite Hr in Htime, Hpast, Hfut, Hagg.
  specialize (Hagg ltac:(lia)).
  (* the next position *)
  subst w sn'. unfold Slider64.step. cbn [fst]. fold cv. fold t.
  destruct (Slider64.update t (s, net)) as [s1 net1] eqn:Eu.
  assert (Es1 : Slider.timeSteps s1 = Slider.timeSteps s
                /\ Slider.aggregationDelta s1 = Slider.aggregationDelta s
                /\ Slider.currentValue s1 = cv
                /\ Slider.moving s1 = Slider.moving s).
  { unfold Slider64.update in Eu. inversion Eu. subst s1. cbn. auto. }
  destruct Es1 as (E1 & E2 & E3 & E4).
  cbn [snd] in Htime, Hpast, Hfut, Hagg.
  rewrite E1, E2, E3, (x_same_steps64 s s1 _ E1).
  change Slider.targetValue with 500%Q.
  unfold Double.add, Double.div. fold g.
  assert (R1 : (-2048 <= g <= 2048)%Q) by lra.
  pose proof (round_near g R1) as Hg'.
  set (g' := Double.round g) in *.
  assert (R2 : (-2048 <= cv + g' <= 2048)%Q) by (unfold Double.eps in *; lra).
  pose proof (round_near _ R2) as Hcv'.
  set (cv' := Double.round (cv + g')) in *.
  destruct (x_near s HS (inject_Z (Slider.aggregationDelta s)))
    as (wa & Hwa & Hca & Hxa & Hxa0).
  rewrite (clamp_inside s HS) in Hca
    by (split; [apply delta_nonneg; exact Ha | rewrite <- Zle_Qle; lia]).
  assert (Hwa5 : (500 * wa == inject_Z (Slider.aggregationDelta s) * g)%Q).
  { rewrite <- Hca, <- Hg. ring. }
  pose proof (x_upper s HS (inject_Z (Slider.aggregationDelta s))) as Hxa1.
  set (xa := Slider64.x s (inject_Z (Slider.aggregationDelta s))) in *.
  assert (R3 : (-2048 <= cv' + xa <= 2048)%Q) by (unfold Double.eps in *; lra).
  pose proof (round_near _ R3) as Hsum.
  set (sum := Double.round (cv' + xa)) in *.
  assert (Hnext : (inject_Z (k + 1) * g == inject_Z k * g + g)%Q).
  { rewrite inject_Z_plus. change (inject_Z 1) with 1%Q. ring. }
  assert (Hend : (inject_Z (k + 1 + Slider.aggregationDelta s) * g
                  == inject_Z k * g + g
                     + inject_Z (Slider.aggregationDelta s) * g)%Q).
  { rewrite !inject_Z_plus. change (inject_Z 1) with 1%Q. ring. }
  destruct (JS.Qltb 500 sum) eqn:Eb;
    [apply Qltb_true in Eb | apply Qltb_false in Eb]; cbn [fst snd];
    (split; [exact Htime|]); (split; [exact Hpast|]);
    (split; [exact Hagg|]); (split; [exact Hfut|]);
    (split; [intros Hless | intros Hmore]).
  - exfalso.
    assert (Hn : (k + 1 + Slider.aggregationDelta s <= Slider.timeSteps s - 1)%Z)
      by lia.
    pose proof (steps_on_track g _ _ Hg0 Hn) as Hng.
    assert (Hm : (inject_Z (Slider.timeSteps s - 1) * g == 500 - g)%Q).
    { unfold Zminus. rewrite inject_Z_plus, inject_Z_opp.
      change (inject_Z 1) with 1%Q. rewrite <- Hg. ring. }
    unfold Double.eps in *. lra.
  - split; reflexivity.
  - split; [exact E4|]. cbn [Slider.currentValue Slider.with_currentValue].
    unfold Double.eps in *. lra.
  - exfalso.
    assert (Hn : (Slider.timeSteps s + 1 <= k + 1 + Slider.aggregationDelta s)%Z)
      by lia.
    pose proof (steps_on_track g _ _ Hg0 Hn) as Hng.
    assert (Hm : (inject_Z (Slider.timeSteps s + 1) * g == 500 + g)%Q).
    { rewrite inject_Z_plus. change (inject_Z 1) with 1%Q. rewrite <- Hg. ring. }
    unfold Double.eps in *. lra.
Qed.

Lemma play_tick_witness :
  let s := Slider.with_currentValue Scenario.slider64 150 true in
  let sn' := Slider64.step (s, Scenario.loaded) in
  TimeWindow.time (Network.time (snd sn')) = 3%Z
  /\ TimeWindow.aggregated (Network.time (snd sn')) = 3%Z
  /\ Slider.moving (fst sn') = true.
Proof.
  intros s sn'.
  assert (H1 : (0 < Slider.timeSteps s < 1000)%Z) by (vm_compute; auto).
  assert (H2 : (0 <= Slider.pastDelta s)%Z) by (vm_compute; discriminate).
  assert (H3 : (0 <= Slider.aggregationDelta s)%Z) by (vm_compute; discriminate).
  assert (H4 : (0 <= Slider.futureDelta s)%Z) by (vm_compute; discriminate).
  assert (H5 : (0 <= 3)%Z) by lia.
  assert (H6 : (3 + Slider.aggregationDelta s <= Slider.timeSteps s)%Z)
    by (vm_compute; discriminate).
  assert (H7 : (0 <= 0 <= 1 # 10000000)%Q) by (split; vm_compute; discriminate).
  assert (H8 : (- 0 <= Slider.currentValue s
                       - inject_Z 3
                         * (Slider.targetValue / inject_Z (Slider.timeSteps s))
                <= 0)%Q)
    by (split; vm_compute; discriminate).
  destruct (play_tick s Scenario.loaded 3 0 H1 H2 H3 H4 H5 H6 H7 H8)
    as (Ht & _ & Ha & _ & Hnext & _).
  split; [exact Ht|]. split; [exact Ha|].
  destruct Hnext as [Hm _]; [vm_compute; reflexivity|].
  subst sn'. rewrite Hm. reflexivity.
Defined.

(** On a timeline of seven steps the timer stops a step early: the
    position is a running sum of doubles, and after the time 6 it stands
    at 500.00000000000006, beyond the end of the track; on ten steps the
    time 10 is played. *)
Lemma play_stops_a_step_early :
  Slider64.play 20 (Slider.with_currentValue (Slider.sliderMenu 7 0 0 0) 0 true,
                    Scenario.config)
  = [0; 1; 2; 3; 4; 5; 6]%Z
  /\ Slider64.play 20 (Slider.with_currentValue (Slider.sliderMenu 10 0 0 0) 0 true,
                       Scenario.config)
     = [0; 1; 2; 3; 4; 5; 6; 7; 8; 9; 10]%Z.
Proof. split; vm_compute; reflexivity. Qed.

(** At the inputs of the scenario, and at those where the window comes
    out of order, the double arithmetic is exact: the two sliders push
    the same windows. *)
Lemma rounded_windows_agree :
  let lookout := Slider.lookoutBtn (Slider.sliderMenu 10 1 1 0, Scenario.loaded) in
  let lookout64 := Slider64.lookoutBtn (Slider.sliderMenu 10 1 1 0, Scenario.loaded) in
  let aggregate := Slider.aggregationBtn (Slider.sliderMenu 10 0 0 2, Scenario.config) in
  let aggregate64 :=
    Slider64.aggregationBtn (Slider.sliderMenu 10 0 0 2, Scenario.config) in
  let wide := Slider.lookoutBtn (Slider.sliderMenu 2000 600 0 0, Scenario.config) in
  let wide64 := Slider64.lookoutBtn (Slider.sliderMenu 2000 600 0 0, Scenario.config) in
  Network.time (snd (Slider64.drag 50 lookout64))
  = Network.time (snd (Slider.drag 50 lookout))
  /\ Network.time (snd (Slider64.drag 100 (Slider64.drag 50 lookout64)))
     = Network.time (snd (Slider.drag 100 (Slider.drag 50 lookout)))
  /\ Network.time (snd (Slider64.drag 500 aggregate64))
     = Network.time (snd (Slider.drag 500 aggregate))
  /\ Network.time (snd (Slider64.drag 375 wide64))
     = Network.time (snd (Slider.drag 375 wide)).
Proof. vm_compute. repeat split; reflexivity. Qed.

(** X4.  Dragging the past handle, on a timeline of fewer than 1000
    steps whose primary handle stands at the current position, the
    current time being clear of the ties: a drag to a time [v] left of
    the primary handle sets [pastDelta] to the distance between the two
    rounded times, and the window then pushed has its [past] marker on
    the rounded [v]; the [time] marker does not move. *)
Theorem past_handle_drag (s : Slider.state) (net : Network.state) (v : Q) :
  (0 < Slider.timeSteps s < 1000)%Z ->
  (0 <= Slider.aggregationDelta s)%Z ->
  (0 <= Slider.futureDelta s)%Z ->
  let t := Slider64.x_invert s (Slider.currentValue s) in
  Slider.handle s = Slider64.x s t ->
  Slider64.clear_of_ties t ->
  (0 <= v <= inject_Z (Slider.timeSteps s))%Q ->
  (Slider64.x s v < Slider.handle s)%Q ->
  let sn' := Slider64.pastUpdate v (s, net) in
  let r := JS.toFixed0 t in
  Slider.pastDelta (fst sn') = (r - JS.toFixed0 v)%Z
  /\ TimeWindow.past (Network.time (snd sn')) = JS.toFixed0 v
  /\ TimeWindow.time (Network.time (snd sn')) = r.
Proof.
  intros HS Ha Hf t Hh Hclear Hv Hlt sn' r.
  pose proof (x_invert_domain s (Slider.currentValue s) HS) as Ht. fold t in Ht.
  pose proof (step_of_time s v Hv) as Hrv.
  assert (Hiv : Slider.int v = JS.toFixed0 v) by (apply int_toFixed0; [lra | lia]).
  assert (Hih : Slider.int (Slider64.x_invert s (Slider.handle s)) = r).
  { rewrite (int_x_invert s HS), Hh. apply (read_handle s HS t Ht Hclear). }
  assert (Hle : (JS.toFixed0 v <= r)%Z).
  { apply (x_lt64 s HS v t Hv Ht Hclear). rewrite <- Hh. exact Hlt. }
  subst sn'. unfold Slider64.pastUpdate. cbn [fst snd].
  rewrite Hiv, Hih.
  rewrite (proj2 (Z.leb_le _ _)) by lia.
  rewrite (proj2 (Qltb_true _ _) Hlt). cbn [andb].
  match goal with |- context [Slider64.update _ (?s1, net)] => set (s' := s1) end.
  change (Slider64.x_invert s' (Slider.currentValue s')) with t.
  destruct (update_window64 s' net t) as (_ & _ & Htime & Hrest); try assumption.
  { subst s'. cbn. lia. }
  destruct (Hrest Hclear) as (Hpast & _).
  pose proof (update_deltas64 t (s', net)) as Hd. cbn zeta in Hd.
  destruct Hd as (Hd & _).
  rewrite Hd, Hpast, Htime. subst s'. cbn [fst Slider.pastDelta Slider.with_deltas].
  fold r. repeat split; lia.
Qed.

Lemma past_handle_drag_witness :
  let s := fst (Slider64.drag 300 (Scenario.slider64, Scenario.loaded)) in
  let sn' := Slider64.pastUpdate 2 (s, Scenario.loaded) in
  Slider.pastDelta (fst sn') = 4%Z
  /\ TimeWindow.past (Network.time (snd sn')) = 2%Z.
Proof.
  intros s sn'.
  assert (H1 : (0 < Slider.timeSteps s < 1000)%Z) by (vm_compute; auto).
  assert (H2 : (0 <= Slider.aggregationDelta s)%Z) by (vm_compute; discriminate).
  assert (H3 : (0 <= Slider.futureDelta s)%Z) by (vm_compute; discriminate).
  assert (H4 : Slider.handle s
               = Slider64.x s (Slider64.x_invert s (Slider.currentValue s)))
    by (vm_compute; reflexivity).
  assert (H5 : Slider64.clear_of_ties (Slider64.x_invert s (Slider.currentValue s)))
    by (split; vm_compute; discriminate).
  assert (H6 : (0 <= 2 <= inject_Z (Slider.timeSteps s))%Q)
    by (split; vm_compute; discriminate).
  assert (H7 : (Slider64.x s 2 < Slider.handle s)%Q) by (vm_compute; reflexivity).
  destruct (past_handle_drag s Scenario.loaded 2 H1 H2 H3 H4 H5 H6 H7)
    as (Hd & Hp & _).
  subst sn'. split; [rewrite Hd | rewrite Hp]; vm_compute; reflexivity.
Defined.

(** X5.  Dragging the aggregation handle, on a timeline of fewer than
    1000 steps whose primary handle stands at the current position, the
    current time being clear of the ties: a drag to a time [v] right of
    the primary handle sets [aggregationDelta] to the distance between
    the two rounded times; the window then pushed has [aggregated] on the
    rounded [v], [time] where it was, and [future] at [futureDelta]
    beyond the rounded [v], cut at the end of the timeline. *)
Theorem aggregation_handle_drag (s : Slider.state) (net : Network.state) (v : Q) :
  (0 < Slider.timeSteps s < 1000)%Z ->
  (0 <= Slider.pastDelta s)%Z ->
  (0 <= Slider.futureDelta s)%Z ->
  let t := Slider64.x_invert s (Slider.currentValue s) in
  Slider.handle s = Slider64.x s t ->
  Slider64.clear_of_ties t ->
  (0 <= v <= inject_Z (Slider.timeSteps s))%Q ->
  (Slider.handle s < Slider64.x s v)%Q ->
  let sn' := Slider64.aggregationUpdate v (s, net) in
  let r := JS.toFixed0 t in
  Slider.aggregationDelta (fst sn') = (JS.toFixed0 v - r)%Z
  /\ TimeWindow.time (Network.time (snd sn')) = r
  /\ TimeWindow.aggregated (Network.time (snd sn')) = JS.toFixed0 v
  /\ TimeWindow.future (Network.time (snd sn'))
     = Z.min (Slider.timeSteps s) (JS.toFixed0 v + Slider.futureDelta s).
Proof.
  intros HS Hp Hf t Hh Hclear Hv Hlt sn' r.
  pose proof (x_invert_domain s (Slider.currentValue s) HS) as Ht. fold t in Ht.
  pose proof (step_of_time s v Hv) as Hrv.
  pose proof (step_of_time s t Ht) as Hrt. fold r in Hrt.
  assert (Hiv : Slider.int v = JS.toFixed0 v) by (apply int_toFixed0; [lra | lia]).
  assert (Hih : Slider.int (Slider64.x_invert s (Slider.handle s)) = r).
  { rewrite (int_x_invert s HS), Hh. apply (read_handle s HS t Ht Hclear). }
  assert (Hle : (r <= JS.toFixed0 v)%Z).
  { apply (x_gt64 s HS v t Hv Ht Hclear). rewrite <- Hh. exact Hlt. }
  subst sn'. unfold Slider64.aggregationUpdate. cbn [fst snd].
  rewrite Hiv, Hih.
  rewrite (proj2 (Z.leb_le _ _)) by lia.
  rewrite (proj2 (Qltb_true _ _) Hlt). cbn [andb].
  match goal with |- context [Slider64.update _ (?s1, net)] => set (s' := s1) end.
  change (Slider64.x_invert s' (Slider.currentValue s')) with t.
  assert (E1 : Slider.timeSteps s' = Slider.timeSteps s) by reflexivity.
  assert (E2 : Slider.aggregationDelta s' = (JS.toFixed0 v - r)%Z).
  { subst s'. cbn [Slider.aggregationDelta Slider.with_deltas]. lia. }
  assert (E3 : Slider.futureDelta s' = Slider.futureDelta s) by reflexivity.
  assert (E4 : Slider.pastDelta s' = Slider.pastDelta s) by reflexivity.
  destruct (update_window64 s' net t) as (_ & _ & Htime & Hrest); try assumption.
  { rewrite E2. lia. }
  destruct (Hrest Hclear) as (_ & Hfut & Hagg).
  pose proof (update_deltas64 t (s', net)) as Hd. cbn zeta in Hd.
  destruct Hd as (_ & _ & Hd & _).
  fold r in Htime, Hfut, Hagg. rewrite E1, E2, E3 in *.
  rewrite Hd, Htime, Hfut. cbn [fst]. rewrite E2.
  rewrite Hagg by lia.
  repeat split; lia.
Qed.

Lemma aggregation_handle_drag_witness :
  let s := fst (Slider64.drag 300 (Scenario.slider64, Scenario.loaded)) in
  let sn' := Slider64.aggregationUpdate 8 (s, Scenario.loaded) in
  Slider.aggregationDelta (fst sn') = 2%Z
  /\ TimeWindow.aggregated (Network.time (snd sn')) = 8%Z.
Proof.
  intros s sn'.
  assert (H1 : (0 < Slider.timeSteps s < 1000)%Z) by (vm_compute; auto).
  assert (H2 : (0 <= Slider.pastDelta s)%Z) by (vm_compute; discriminate).
  assert (H3 : (0 <= Slider.futureDelta s)%Z) by (vm_compute; discriminate).
  assert (H4 : Slider.handle s
               = Slider64.x s (Slider64.x_invert s (Slider.currentValue s)))
    by (vm_compute; reflexivity).
  assert (H5 : Slider64.clear_of_ties (Slider64.x_invert s (Slider.currentValue s)))
    by (split; vm_compute; discriminate).
  assert (H6 : (0 <= 8 <= inject_Z (Slider.timeSteps s))%Q)
    by (split; vm_compute; discriminate).
  assert (H7 : (Slider.handle s < Slider64.x s 8)%Q) by (vm_compute; reflexivity).
  destruct (aggregation_handle_drag s Scenario.loaded 8 H1 H2 H3 H4 H5 H6 H7)
    as (Hd & _ & Ha & _).
  subst sn'. split; [rewrite Hd | rewrite Ha]; vm_compute; reflexivity.
Defined.

(** X6.  Dragging the future handle, on a timeline of fewer than 1000
    steps whose aggregation handle stands where [update] puts it, the
    current time being clear of the ties, to a time [v] right of the
    primary handle.  With [a] the time of the aggregation handle (the
    rounded current time plus [aggregationDelta], cut at the end of the
    timeline): when the rounded [v] is not before [a] the drag sets
    [futureDelta] to their distance and the window then pushed has
    [future] on the rounded [v]; otherwise the drag does nothing. *)
Theorem future_handle_drag (s : Slider.state) (net : Network.state) (v : Q) :
  (0 < Slider.timeSteps s < 1000)%Z ->
  (0 <= Slider.pastDelta s)%Z ->
  (0 <= Slider.aggregationDelta s)%Z ->
  let t := Slider64.x_invert s (Slider.currentValue s) in
  let a := Z.min (Slider.timeSteps s) (JS.toFixed0 t + Slider.aggregationDelta s) in
  let p := Double.add (Slider64.x s t)
             (Slider64.x s (inject_Z (Slider.aggregationDelta s))) in
  Slider.aggregationHandle s = (if JS.Qltb p Slider.width then p else Slider.width) ->
  Slider64.clear_of_ties t ->
  (0 <= v <= inject_Z (Slider.timeSteps s))%Q ->
  (Slider.handle s < Slider64.x s v)%Q ->
  let sn' := Slider64.futureUpdate v (s, net) in
  ((a <= JS.toFixed0 v)%Z ->
   Slider.futureDelta (fst sn') = (JS.toFixed0 v - a)%Z
   /\ TimeWindow.future (Network.time (snd sn')) = JS.toFixed0 v)
  /\ ((JS.toFixed0 v < a)%Z -> sn' = (s, net)).
Proof.
  intros HS Hp Ha t a p Hagg Hclear Hv Hlt sn'.
  pose proof (x_invert_domain s (Slider.currentValue s) HS) as Ht. fold t in Ht.
  pose proof (step_of_time s v Hv) as Hrv.
  pose proof (step_of_time s t Ht) as Hrt.
  assert (Hiv : Slider.int v = JS.toFixed0 v) by (apply int_toFixed0; [lra | lia]).
  assert (Hia : Slider.int (Slider64.x_invert s (Slider.aggregationHandle s)) = a).
  { rewrite (int_x_invert s HS), Hagg.
    apply (aggregation_marker64 s HS t _ Ht Hclear Ha). }
  subst sn'. unfold Slider64.futureUpdate. cbn [fst snd].
  rewrite Hiv, Hia.
  rewrite (proj2 (Qltb_true _ _) Hlt), andb_true_r.
  split.
  - intros Hle. rewrite (proj2 (Z.leb_le _ _)) by lia.
    match goal with |- context [Slider64.update _ (?s1, net)] => set (s' := s1) end.
    change (Slider64.x_invert s' (Slider.currentValue s')) with t.
    assert (E1 : Slider.timeSteps s' = Slider.timeSteps s) by reflexivity.
    assert (E2 : Slider.aggregationDelta s' = Slider.aggregationDelta s)
      by reflexivity.
    assert (E3 : Slider.futureDelta s' = (JS.toFixed0 v - a)%Z).
    { subst s'. cbn [Slider.futureDelta Slider.with_deltas]. lia. }
    destruct (update_window64 s' net t) as (_ & _ & _ & Hrest); try assumption.
    { rewrite E3. lia. }
    destruct (Hrest Hclear) as (_ & Hfut & _).
    pose proof (update_deltas64 t (s', net)) as Hd. cbn zeta in Hd.
    destruct Hd as (_ & Hd & _).
    rewrite E1, E2, E3 in Hfut.
    rewrite Hd, Hfut. cbn [fst]. rewrite E3.
    split; [reflexivity|]. subst a. lia.
  - intros Hless. rewrite (proj2 (Z.leb_gt _ _)) by lia. reflexivity.
Qed.

Lemma future_handle_drag_witness :
  let s := fst (Slider64.drag 300 (Scenario.slider64, Scenario.loaded)) in
  let sn' := Slider64.futureUpdate 9 (s, Scenario.loaded) in
  Slider.futureDelta (fst sn') = 3%Z
  /\ TimeWindow.future (Network.time (snd sn')) = 9%Z.
Proof.
  intros s sn'.
  assert (H1 : (0 < Slider.timeSteps s < 1000)%Z) by (vm_compute; auto).
  assert (H2 : (0 <= Slider.pastDelta s)%Z) by (vm_compute; discriminate).
  assert (H3 : (0 <= Slider.aggregationDelta s)%Z) by (vm_compute; discriminate).
  assert (H5 : (0 <= 9 <= inject_Z (Slider.timeSteps s))%Q)
    by (split; vm_compute; discriminate).
  assert (H6 : (Slider.handle s < Slider64.x s 9)%Q) by (vm_compute; reflexivity).
  destruct (future_handle_drag s Scenario.loaded 9 H1 H2 H3) as [Hok _];
    [vm_compute; reflexivity | split; vm_compute; discriminate | exact H5 | exact H6 |].
  destruct Hok as [Hd Hfu]; [vm_compute; discriminate|].
  subst sn'. split; [rewrite Hd | rewrite Hfu]; vm_compute; reflexivity.
Defined.

(** * The thousands separator *)

Section LeadingGroup.
Import JS Slider.

Lemma append_cons (x : ascii) (a b : string) :
  (String x a ++ b = String x (a ++ b))%string.
Proof. reflexivity. Qed.

Lemma append_empty (b : string) : (EmptyString ++ b = b)%string.
Proof. reflexivity. Qed.

Lemma append_assoc (a b c : string) : ((a ++ b) ++ c = a ++ (b ++ c))%string.
Proof.
  induction a as [|x a IH]; [reflexivity|].
  rewrite !append_cons, IH. reflexivity.
Qed.

Lemma append_nil (a : string) : (a ++ EmptyString = a)%string.
Proof.
  induction a as [|x a IH]; [reflexivity|]. rewrite append_cons, IH. reflexivity.
Qed.

(** Reading stops at the end of the string and at a comma. *)
Lemma parse_stop (tail : string) (acc : option Z) :
  tail = EmptyString \/ (exists rest, tail = String "," rest) ->
  parse_digits tail acc = acc.
Proof. intros [-> | [rest ->]]; reflexivity. Qed.

Lemma parse_small_app (m : Z) (tail : string) :
  (0 <= m < 1000)%Z ->
  parse_digits (small m ++ tail) None = parse_digits tail (Some m).
Proof.
  intros H. unfold small.
  assert (H100 : (m / 100 = m / 10 / 10)%Z) by (rewrite Z.div_div by lia; reflexivity).
  destruct (m <? 10)%Z eqn:E1; [|destruct (m <? 100)%Z eqn:E2];
    rewrite ?append_cons, append_empty; cbn [parse_digits];
    try apply Z.ltb_lt in E1; try apply Z.ltb_ge in E1;
    try apply Z.ltb_lt in E2; try apply Z.ltb_ge in E2;
    rewrite ?H100.
  - rewrite !digit_of_digit by lia. cbn [default from_option id].
    replace (10 * 0 + m)%Z with m by lia. reflexivity.
  - rewrite !digit_of_digit by (Z.to_euclidean_division_equations; lia).
    cbn [default from_option id].
    replace (10 * (10 * 0 + m / 10) + m mod 10)%Z with m
      by (Z.to_euclidean_division_equations; lia).
    reflexivity.
  - rewrite !digit_of_digit by (Z.to_euclidean_division_equations; lia).
    cbn [default from_option id].
    replace (10 * (10 * (10 * 0 + m / 10 / 10) + m / 10 mod 10) + m mod 10)%Z
      with m by (Z.to_euclidean_division_equations; lia).
    reflexivity.
Qed.

(** Read back, the grouped digits of [n] give its leading group only. *)
Lemma grouped_leading (fuel : nat) :
  forall (n : Z) (tail : string),
    (0 <= n)%Z -> (Z.log2 n <= Z.of_nat fuel)%Z ->
    tail = EmptyString \/ (exists rest, tail = String "," rest) ->
    exists k : nat,
      parse_digits (grouped fuel n ++ tail) None = Some (n / 1000 ^ Z.of_nat k)%Z
      /\ (0 <= n / 1000 ^ Z.of_nat k < 1000)%Z
      /\ ((1 <= n)%Z -> (1 <= n / 1000 ^ Z.of_nat k)%Z)
      /\ ((n < 1000)%Z -> k = O).
Proof.
  induction fuel as [|f IH]; intros n tail Hn Hlog Htail.
  - assert (Hsmall : (n < 2)%Z).
    { destruct (Z_lt_le_dec n 2) as [Hlt|Hge]; [exact Hlt|].
      pose proof (Z.log2_le_mono 2 n Hge) as H2.
      change (Z.log2 2) with 1%Z in H2. simpl in Hlog. lia. }
    exists O. cbn [grouped]. rewrite parse_small_app by lia.
    rewrite (parse_stop _ _ Htail). change (1000 ^ Z.of_nat 0)%Z with 1%Z.
    rewrite Z.div_1_r. repeat split; lia.
  - cbn [grouped]. destruct (n <? 1000)%Z eqn:E.
    + apply Z.ltb_lt in E. exists O. rewrite parse_small_app by lia.
      rewrite (parse_stop _ _ Htail). change (1000 ^ Z.of_nat 0)%Z with 1%Z.
      rewrite Z.div_1_r. repeat split; lia.
    + apply Z.ltb_ge in E.
      assert (Hm : (1 <= n / 1000)%Z) by (Z.to_euclidean_division_equations; lia).
      assert (Hlogm : (Z.log2 (n / 1000) <= Z.of_nat f)%Z).
      { assert (H2 : (2 * (n / 1000) <= n)%Z)
          by (Z.to_euclidean_division_equations; lia).
        pose proof (Z.log2_le_mono _ _ H2) as Hmono.
        rewrite Z.log2_double in Hmono by lia. lia. }
      destruct (IH (n / 1000)%Z ("," ++ padded3 (n mod 1000) ++ tail)%string)
        as (k & Hparse & Hrange & Hpos & _); [lia | exact Hlogm | |].
      { right. eexists. reflexivity. }
      exists (S k).
      rewrite !append_assoc.
      assert (Hdiv : (n / 1000 ^ Z.of_nat (S k) = n / 1000 / 1000 ^ Z.of_nat k)%Z).
      { rewrite Nat2Z.inj_succ, Z.pow_succ_r by lia.
        rewrite Z.div_div by lia. reflexivity. }
      rewrite Hdiv. split; [exact Hparse|]. split; [exact Hrange|].
      split; [intros _; apply Hpos; exact Hm | intros Hlt; lia].
Qed.

Lemma parseInt_digits (c : ascii) (rest : string) (d : Z) :
  digit_of c = Some d ->
  parseInt (String c rest) = parse_digits (String c rest) None.
Proof.
  intros Hd. unfold parseInt.
  destruct c as [[] [] [] [] [] [] [] []];
    solve [reflexivity | vm_compute in Hd; discriminate Hd].
Qed.

End LeadingGroup.

(** X7.  What [parseInt(formatInt(q))] reads, for any number
    [0 <= q < 10^21] (the numbers [toFixed] prints with all their
    digits): the leading group of three digits of the rounded [q], that
    is the rounded value divided by 1000 as often as it takes to fall
    below 1000.  Below 1000 it is the rounded value itself; from 1000 on,
    it is some number between 1 and 999. *)
Theorem int_leading_group (q : Q) :
  (0 <= q)%Q -> (q < inject_Z (10 ^ 21))%Q ->
  exists k : nat,
    Slider.int q = (JS.toFixed0 q / 1000 ^ Z.of_nat k)%Z
    /\ (0 <= Slider.int q < 1000)%Z
    /\ ((1 <= JS.toFixed0 q)%Z -> (1 <= Slider.int q)%Z)
    /\ ((JS.toFixed0 q < 1000)%Z -> k = O).
Proof.
  intros Hq _. unfold Slider.int, JS.formatInt.
  rewrite (proj2 (Qltb_false _ _)) by exact Hq. cbn [andb].
  rewrite (toFixed0_comp (Qabs q) q) by (apply Qabs_pos; exact Hq).
  set (n := JS.toFixed0 q).
  assert (Hn : (0 <= n)%Z) by (apply toFixed0_nonneg; exact Hq).
  assert (Hlog : (Z.log2 n <= Z.of_nat (Z.to_nat (Z.log2 n)))%Z).
  { rewrite Z2Nat.id; [lia | apply Z.log2_nonneg]. }
  destruct (grouped_head _ n Hn Hlog) as (c & rest & d & Heq & Hd).
  destruct (grouped_leading _ n EmptyString Hn Hlog (or_introl eq_refl))
    as (k & Hparse & Hrange & Hpos & Hzero).
  rewrite append_nil in Hparse.
  exists k. rewrite Heq in Hparse |- *.
  rewrite (parseInt_digits c rest d Hd), Hparse. cbn [default].
  auto.
Qed.

Lemma int_leading_group_witness : (1 <= Slider.int 1500 < 1000)%Z.
Proof.
  assert (H : (0 <= 1500)%Q) by (vm_compute; discriminate).
  assert (H' : (1500 < inject_Z (10 ^ 21))%Q) by (vm_compute; reflexivity).
  destruct (int_leading_group 1500 H H') as (k & _ & Hrange & Hpos & _).
  split; [apply Hpos; vm_compute; discriminate | apply Hrange].
Defined.

(** * Further properties of the renderer *)

Section Scales.
Import JS Network.

Lemma Qmin_le (a b : Q) : (Qmin a b <= a)%Q /\ (Qmin a b <= b)%Q.
Proof.
  unfold Qmin. destruct (Qleb a b) eqn:E;
    [apply Qleb_true in E | apply Qleb_false in E]; lra.
Qed.

Lemma Qmax_ge (a b : Q) : (a <= Qmax a b)%Q /\ (b <= Qmax a b)%Q.
Proof.
  unfold Qmax. destruct (Qleb a b) eqn:E;
    [apply Qleb_true in E | apply Qleb_false in E]; lra.
Qed.

Lemma fold_Qmin_le (vs : list Q) :
  forall a, (fold_left Qmin vs a <= a)%Q
            /\ forall v, In v vs -> (fold_left Qmin vs a <= v)%Q.
Proof.
  induction vs as [|x vs IH]; intros a; cbn [fold_left].
  - split; [lra | intros v []].
  - destruct (IH (Qmin a x)) as [H1 H2]. destruct (Qmin_le a x) as [Ha Hx].
    split; [lra|]. intros v [<- | Hin]; [lra | apply H2, Hin].
Qed.

Lemma fold_Qmax_ge (vs : list Q) :
  forall a, (a <= fold_left Qmax vs a)%Q
            /\ forall v, In v vs -> (v <= fold_left Qmax vs a)%Q.
Proof.
  induction vs as [|x vs IH]; intros a; cbn [fold_left].
  - split; [lra | intros v []].
  - destruct (IH (Qmax a x)) as [H1 H2]. destruct (Qmax_ge a x) as [Ha Hx].
    split; [lra|]. intros v [<- | Hin]; [lra | apply H2, Hin].
Qed.

(** [d3.extent] bounds every value it was computed from. *)
Lemma extent_bounds (vs : list Q) (lo hi : Q) :
  extent vs = Some (lo, hi) -> forall v, In v vs -> (lo <= v <= hi)%Q.
Proof.
  destruct vs as [|a vs]; [discriminate|].
  cbn [extent]. intros [= <- <-] v Hin.
  destruct (fold_Qmin_le vs a) as [H1 H2]. destruct (fold_Qmax_ge vs a) as [H3 H4].
  destruct Hin as [<- | Hin]; [lra|].
  split; [apply H2, Hin | apply H4, Hin].
Qed.

Lemma extent_Some (vs : list Q) (v : Q) : In v vs -> is_Some (extent vs).
Proof. destruct vs; [intros [] | intros _; cbn; eauto]. Qed.

(** A linear scale sends its domain into its range. *)
Lemma scaleLinear_range (d0 d1 r0 r1 v : Q) :
  (d0 <= v <= d1)%Q -> (r0 <= r1)%Q ->
  (r0 <= scaleLinear (d0, d1) (r0, r1) v <= r1)%Q.
Proof.
  intros Hv Hr. unfold scaleLinear.
  destruct (Qeqb d0 d1) eqn:E; [lra|].
  apply Qeq_bool_neq in E.
  assert (Hd : (0 < d1 - d0)%Q).
  { destruct (Qlt_le_dec d0 d1) as [Hlt|Hge]; [lra|].
    exfalso. apply E. lra. }
  assert (Ht : (0 <= (v - d0) / (d1 - d0) <= 1)%Q).
  { split; [apply Qle_shift_div_l | apply Qle_shift_div_r]; lra. }
  nra.
Qed.

Lemma total_lookup_map (s : state) (ns : list Node.t) (i : nat) :
  (i < length ns)%nat -> map (set_radius s) ns !!! i = set_radius s (ns !!! i).
Proof.
  revert i. induction ns as [|n ns IH]; intros [|i] H; simpl in *; try lia.
  - reflexivity.
  - apply IH. lia.
Qed.

(** What [setupData] returns when it succeeds. *)
Lemma setupData_Ok (s s' : state) (data : Payload.t) (d : Data.t) :
  setupData s data = Ok (s', d) ->
  let s1 := with_countExtent s (extent (map getSize (Payload.nodes data))) in
  Data.nodes d = map (set_radius s1) (Payload.nodes data)
  /\ Data.changes d = Payload.changes data
  /\ resolveLinks (d3_map (Data.nodes d) (seq 0 (length (Data.nodes d))))
       (Data.nodes d) (Payload.links data) (linkedByIndex s)
     = Ok (Data.links d, linkedByIndex s')
  /\ s' = mkState (temporal s) (radiusMinSize s) (radiusMaxSize s) (layout s)
            (filter s) (time s) (allData s) (linkedByIndex s')
            (extent (map getSize (Payload.nodes data))) (forces s) (g_nodes s)
            (g_edges s).
Proof.
  intros H s1. unfold setupData in H. fold s1 in H.
  destruct (resolveLinks _ _ _ _) as [[ls index]|e] eqn:E; [|discriminate].
  injection H as <- <-. cbn [Data.nodes Data.changes Data.links linkedByIndex].
  repeat split. exact E.
Qed.

(** The circles of the selection after [renderNodes]: each is bound to a
    node of the data, and its radius and fill are those of that node. *)
Lemma renderNodes_circle (s : state) (store : list Node.t) (els : list Circle.t) :
  forall nodesData c,
    In c (renderNodes s store els nodesData) ->
    Circle.removing c = false ->
    In (Circle.datum c) nodesData
    /\ Circle.r c = scaleRadius s (store !!! Circle.datum c)
    /\ Circle.fill c = getColor (store !!! Circle.datum c).
Proof.
  induction els as [|el els IH]; intros nodesData c Hc Hr.
  - cbn [renderNodes] in Hc. apply in_map_iff in Hc as (i & <- & Hi).
    cbn. auto.
  - destruct nodesData as [|i nodesData]; cbn [renderNodes] in Hc.
    + apply in_map_iff in Hc as (el' & <- & _). discriminate Hr.
    + destruct Hc as [<- | Hc]; [cbn; auto|].
      destruct (IH _ _ Hc Hr) as (H1 & H2 & H3). cbn [In]. auto.
Qed.

Lemma selection_lt (s : state) (data : Data.t) (i : nat) :
  In i (selection s data) -> (i < length (Data.nodes data))%nat.
Proof.
  unfold selection, filterNodes. intros Hi.
  destruct (negb _); [apply filter_In in Hi as [Hi _]|]; apply in_seq in Hi; lia.
Qed.

End Scales.

(** X8.  The radius scale of a load.  When [setupData] succeeds and
    [radiusMinSize <= radiusMaxSize], the [radius] it writes on every
    node lies between the two; so does, after [chart], the radius of
    every circle, provided no temporal change is applied (the network is
    not temporal, or the payload has no change records). *)
Theorem load_radius_in_range (s : Network.state) (data : Payload.t) :
  (Network.radiusMinSize s <= Network.radiusMaxSize s)%Q ->
  let inside (r : option Q) :=
    exists q, r = Some q
              /\ (Network.radiusMinSize s <= q <= Network.radiusMaxSize s)%Q in
  (forall s' d, Network.setupData s data = JS.Ok (s', d) ->
                forall n, In n (Data.nodes d) -> inside (Node.radius n))
  /\ (forall s', Network.chart s data = JS.Ok s' ->
                 Network.temporal s = false \/ Payload.changes data = [] ->
                 forall c, In c (Network.nodes s') -> inside (Circle.r c)).
Proof.
  intros Hr inside.
  set (s1 := Network.with_countExtent s
               (Network.extent (map Network.getSize (Payload.nodes data)))).
  assert (Hscale : forall n, In n (Payload.nodes data) ->
                             inside (Network.scaleRadius s1 n)).
  { intros n Hn. unfold Network.scaleRadius.
    cbn [s1 Network.countExtent Network.with_countExtent Network.radiusMinSize
           Network.radiusMaxSize].
    assert (Hin : In (Network.getSize n) (map Network.getSize (Payload.nodes data)))
      by (apply in_map; exact Hn).
    destruct (extent_Some _ _ Hin) as [[lo hi] He]. rewrite He.
    eexists. split; [reflexivity|].
    apply scaleLinear_range; [apply (extent_bounds _ _ _ He), Hin | exact Hr]. }
  split.
  - intros s' d Hok n Hn.
    destruct (setupData_Ok _ _ _ _ Hok) as (Hnodes & _). fold s1 in Hnodes.
    rewrite Hnodes in Hn. apply in_map_iff in Hn as (n0 & <- & Hn0).
    cbn [Network.set_radius Node.radius]. apply Hscale, Hn0.
  - intros s' Hok Hstatic c Hc. unfold Network.chart in Hok.
    destruct (Network.setupData s data) as [[s2 d]|e] eqn:Hsd; [|discriminate].
    injection Hok as <-.
    destruct (setupData_Ok _ _ _ _ Hsd) as (Hnodes & Hchanges & _ & Hs2).
    fold s1 in Hnodes.
    unfold Network.nodes in Hc. apply filter_In in Hc as [Hc Hrem].
    apply negb_true_iff in Hrem.
    rewrite render_on in Hc. cbn [Network.g_nodes] in Hc.
    destruct (renderNodes_circle _ _ _ _ _ Hc Hrem) as (Hdatum & Hradius & _).
    rewrite Hradius.
    assert (Hpatched : Network.patched s2 d = Data.nodes d).
    { unfold Network.patched. destruct Hstatic as [Ht | Hch].
      - rewrite Hs2. cbn [Network.temporal]. rewrite Ht. reflexivity.
      - destruct (Network.temporal s2); [|reflexivity].
        unfold Network.updateTemporalNodes. rewrite Hchanges, Hch. reflexivity. }
    rewrite Hpatched, Hnodes.
    apply selection_lt in Hdatum. rewrite Hnodes, length_map in Hdatum.
    rewrite total_lookup_map by exact Hdatum.
    rewrite (scaleRadius_ext s2 s1)
      by (rewrite Hs2; reflexivity).
    change (Network.scaleRadius s1 (Network.set_radius s1 ?n))
      with (Network.scaleRadius s1 n).
    apply Hscale, total_lookup_In, Hdatum.
Qed.

Lemma load_radius_in_range_witness :
  List.Forall (fun c => exists q, Circle.r c = Some q /\ (4 <= q <= 16)%Q)
    (Network.nodes Scenario.loaded).
Proof.
  assert (H : (Network.radiusMinSize Scenario.config
               <= Network.radiusMaxSize Scenario.config)%Q)
    by (vm_compute; discriminate).
  destruct (load_radius_in_range Scenario.config Scenario.payload H) as [_ Hc].
  apply List.Forall_forall. intros c Hin.
  apply (Hc Scenario.loaded); [reflexivity | right; reflexivity | exact Hin].
Defined.

Section EuclideanTargets.
Import JS Network Euclidean.

Lemma extent_None (vs : list Q) : extent vs = None -> vs = [].
Proof. destruct vs; [reflexivity | discriminate]. Qed.

End EuclideanTargets.

(** X9.  The targets of the euclidean layout, on a canvas at least 20
    wide and high.  If every node carries coordinates, each node gets a
    target, and every target lies within the canvas less a margin of 10
    on each side; if some node has no coordinates, setting up the layout
    raises a TypeError. *)
Theorem euclidean_targets_inside (width height : Q) (ns : list Node.t) :
  (20 <= width)%Q -> (20 <= height)%Q ->
  match Euclidean.targets width height ns with
  | JS.Ok ts =>
      length ts = length ns
      /\ (forall n, In n ns -> is_Some (Node.euclidean n))
      /\ (forall t, In t ts ->
                    (10 <= fst t <= width - 10)%Q /\ (10 <= snd t <= height - 10)%Q)
  | JS.Throw e =>
      e = JS.TypeError /\ exists n, In n ns /\ Node.euclidean n = None
  end.
Proof.
  intros Hw Hh. unfold Euclidean.targets.
  destruct (Euclidean.coordinates ns) as [[xs ys]|e] eqn:Ec;
    [|apply coordinates_Throw, Ec].
  destruct (coordinates_Ok _ _ _ Ec) as (Hlx & Hly & Hall).
  assert (Hsome : forall n, In n ns -> is_Some (Node.euclidean n)).
  { intros n Hn. destruct (Hall n Hn) as (ex & ey & He & _). rewrite He. eauto. }
  destruct (Network.extent xs) as [[x0 x1]|] eqn:Ex;
    [destruct (Network.extent ys) as [[y0 y1]|] eqn:Ey|].
  - split; [apply length_map|]. split; [exact Hsome|].
    intros t Ht. apply in_map_iff in Ht as (n & <- & Hn).
    destruct (Hall n Hn) as (ex & ey & He & Hx & Hy). rewrite He.
    cbn [fst snd]. split; apply scaleLinear_range;
      solve [lra | apply (extent_bounds _ _ _ Ex), Hx
             | apply (extent_bounds _ _ _ Ey), Hy].
  - apply extent_None in Ey. subst ys. cbn [length] in Hly.
    destruct ns; [|discriminate Hly].
    split; [reflexivity|]. split; [exact Hsome | intros t []].
  - apply extent_None in Ex. subst xs. cbn [length] in Hlx.
    destruct ns; [|discriminate Hlx].
    split; [reflexivity|]. split; [exact Hsome | intros t []].
Qed.

Lemma euclidean_targets_inside_witness :
  let at_ (uid : string) (ex ey : Q) :=
    Node.mk uid None None None None None (Some (ex, ey)) None None false in
  match Euclidean.targets 400%Q 300%Q [at_ "a" 0%Q 1%Q; at_ "b" 2%Q 5%Q; at_ "c" 1%Q 1%Q] with
  | JS.Ok ts => forall t, In t ts -> (10 <= fst t <= 390)%Q /\ (10 <= snd t <= 290)%Q
  | JS.Throw _ => False
  end.
Proof.
  intros at_.
  assert (Hw : (20 <= 400)%Q) by (vm_compute; discriminate).
  assert (Hh : (20 <= 300)%Q) by (vm_compute; discriminate).
  pose proof (euclidean_targets_inside 400%Q 300%Q
                [at_ "a" 0%Q 1%Q; at_ "b" 2%Q 5%Q; at_ "c" 1%Q 1%Q] Hw Hh) as H.
  destruct (Euclidean.targets 400%Q 300%Q _) as [ts|e].
  - destruct H as (_ & _ & H). intros t Ht. destruct (H t Ht) as [[H1 H2] [H3 H4]].
    split; split; [exact H1 | | exact H3 |].
    + eapply Qle_trans; [exact H2 | vm_compute; discriminate].
    + eapply Qle_trans; [exact H4 | vm_compute; discriminate].
  - destruct H as (_ & n & Hn & He).
    cbn [In] in Hn. destruct Hn as [<- | [<- | [<- | []]]]; discriminate He.
Defined.

Section EmptySelection.
Import JS Network.







End EmptySelection.





(** * Links and adjacency *)

Section Resolution.
Import JS Network Interaction.

Lemma resolveLinks_resolved (m : gmap string nat) (store : list Node.t)
    (ls : list RawLink.t) :
  (forall k i, m !! k = Some i -> Node.uid (store !!! i) = k) ->
  forall index ls' index',
    resolveLinks m store ls index = Ok (ls', index') ->
    Forall2 (resolved store) ls ls'
    /\ forall k, k ∈ index' <-> k ∈ index \/ exists l, In l ls' /\ Link.uid l = k.
Proof.
  intros Hm. induction ls as [|raw ls IH]; intros index ls' index' H;
    cbn [resolveLinks] in H.
  - injection H as <- <-. split; [constructor|].
    intros k. split; [auto | intros [Hk | (l & [] & _)]; exact Hk].
  - destruct (m !! RawLink.source raw) as [a|] eqn:Ea; [|discriminate].
    destruct (m !! RawLink.target raw) as [b|] eqn:Eb; [|discriminate].
    destruct (resolveLinks m store ls _) as [[ls'' index'']|e] eqn:Er; [|discriminate].
    injection H as <- <-.
    destruct (IH _ _ _ Er) as [HF Hidx].
    pose proof (Hm _ _ Ea) as Ha. pose proof (Hm _ _ Eb) as Hb.
    split.
    + constructor; [|exact HF].
      unfold resolved. cbn. rewrite Ha, Hb. auto 10.
    + intros k. rewrite Hidx. cbn [In]. split.
      * intros [Hk | (l & Hl & Hu)].
        -- apply elem_of_union in Hk as [Hk | Hk]; [|auto].
           apply elem_of_singleton in Hk. right. eexists. split; [left; reflexivity|].
           cbn. symmetry. exact Hk.
        -- right. exists l. auto.
      * intros [Hk | (l & [<- | Hl] & Hu)].
        -- left. apply elem_of_union. auto.
        -- left. apply elem_of_union. left. apply elem_of_singleton.
           cbn in Hu. symmetry. exact Hu.
        -- right. exists l. auto.
Qed.

Lemma nodesMap_uid (store : list Node.t) (k : string) (i : nat) :
  d3_map store (seq 0 (length store)) !! k = Some i -> Node.uid (store !!! i) = k.
Proof. intros H. apply d3_map_lookup in H. apply H. Qed.

Lemma setupData_resolved (s s' : state) (data : Payload.t) (d : Data.t) :
  setupData s data = Ok (s', d) ->
  Forall2 (resolved (Data.nodes d)) (Payload.links data) (Data.links d)
  /\ forall k, k ∈ linkedByIndex s'
               <-> k ∈ linkedByIndex s \/ exists l, In l (Data.links d) /\ Link.uid l = k.
Proof.
  intros H. destruct (setupData_Ok _ _ _ _ H) as (_ & _ & Hr & _).
  apply (resolveLinks_resolved _ _ _ (nodesMap_uid (Data.nodes d)) _ _ _ Hr).
Qed.

Lemma patched_uid (s : state) (data : Data.t) (j : nat) :
  Node.uid (patched s data !!! j) = Node.uid (Data.nodes data !!! j).
Proof.
  unfold patched. destruct (temporal s); [|reflexivity].
  unfold updateTemporalNodes. apply changes_uid.
Qed.

(** [render] keeps the keys of the links in line with the uids. *)
Lemma render_indexed (s : state) : indexed s -> indexed (render s).
Proof.
  intros H. unfold indexed. rewrite render_unfold.
  cbn [allData Data.links Data.nodes linkedByIndex].
  intros l Hl. destruct (H l Hl) as [Hu Hin]. cbn zeta in Hu |- *.
  rewrite !patched_uid. auto.
Qed.

Lemma Forall2_In_r {A B : Type} (P : A -> B -> Prop) (la : list A) (lb : list B) :
  Forall2 P la lb -> forall b, In b lb -> exists a, In a la /\ P a b.
Proof.
  induction 1 as [|a b la lb Hab _ IH]; intros b' Hb'; [destruct Hb'|].
  destruct Hb' as [<- | Hb'].
  - exists a. split; [left; reflexivity | exact Hab].
  - destruct (IH _ Hb') as (a' & Ha' & HP). exists a'. split; [right|]; assumption.
Qed.

Lemma chart_indexed (s s' : state) (data : Payload.t) :
  chart s data = Ok s' -> indexed s'.
Proof.
  unfold chart. intros H.
  destruct (setupData s data) as [[s2 d]|e] eqn:Hsd; [|discriminate].
  injection H as <-. apply render_indexed.
  destruct (setupData_resolved _ _ _ _ Hsd) as [HF Hidx].
  intros l Hl. cbn [allData Data.links Data.nodes linkedByIndex] in *.
  destruct (Forall2_In_r _ _ _ HF l Hl) as (raw & _ & Hs & Ht & Hu & _).
  split.
  - rewrite Hs, Ht. exact Hu.
  - apply Hidx. right. exists l. auto.
Qed.

End Resolution.

(** X12.  What a load makes of the links.  When [setupData] succeeds:
    the nodes keep their uids and their order; link for link, the ends
    are node objects bearing the ids the payload named, the key is the
    two ids joined by an underscore, and time, weight and colour are
    kept; and the adjacency index holds exactly the keys it held before
    the load and the keys of the links loaded: a load never takes a key
    out of it. *)
Theorem load_resolves_links (s s' : Network.state) (data : Payload.t) (d : Data.t) :
  Network.setupData s data = JS.Ok (s', d) ->
  map Node.uid (Data.nodes d) = map Node.uid (Payload.nodes data)
  /\ Forall2 (Interaction.resolved (Data.nodes d)) (Payload.links data) (Data.links d)
  /\ forall k, k ∈ Network.linkedByIndex s'
               <-> k ∈ Network.linkedByIndex s
                   \/ exists l, In l (Data.links d) /\ Link.uid l = k.
Proof.
  intros H. destruct (setupData_resolved _ _ _ _ H) as [HF Hidx].
  destruct (setupData_Ok _ _ _ _ H) as (Hn & _).
  split; [|split; assumption].
  rewrite Hn, map_map. reflexivity.
Qed.

Lemma load_resolves_links_witness :
  match Network.setupData Scenario.config Scenario.payload with
  | JS.Ok (s', d) =>
      map Link.uid (Data.links d) = ["a_b"; "b_c"]
      /\ forall k, k ∈ Network.linkedByIndex s' <-> k = "a_b" \/ k = "b_c"
  | JS.Throw _ => False
  end.
Proof.
  destruct (Network.setupData Scenario.config Scenario.payload) as [[s' d]|e] eqn:E.
  - destruct (load_resolves_links _ _ _ _ E) as (_ & _ & Hidx).
    assert (Hd : map Link.uid (Data.links d) = ["a_b"; "b_c"]).
    { vm_compute in E. injection E as _ <-. reflexivity. }
    split; [exact Hd|].
    intros k. rewrite Hidx. split.
    + intros [Hk | (l & Hl & <-)].
      * cbn in Hk. apply elem_of_empty in Hk. destruct Hk.
      * apply (in_map Link.uid) in Hl. rewrite Hd in Hl.
        destruct Hl as [<- | [<- | []]]; auto.
    + intros Hk. right.
      assert (Hin : In k (map Link.uid (Data.links d)))
        by (rewrite Hd; destruct Hk as [-> | ->]; cbn; auto).
      apply in_map_iff in Hin as (l & Hu & Hl). exists l. auto.
  - vm_compute in E. discriminate E.
Defined.

Section Hover.
Import JS Network Interaction.

(** The lines of a render show links of the data. *)
Lemma render_lines_of_data (s : state) (el : Line.t) :
  In el (g_edges (render s)) -> In (Line.datum el) (Data.links (allData s)).
Proof.
  intros Hel. apply (in_map Line.datum) in Hel.
  change (g_edges (render s)) with (edges (render s)) in Hel.
  rewrite render_edges_datum in Hel. cbn zeta in Hel.
  assert (Hf : forall store refs, In (Line.datum el)
                 (filterEdges store (Data.links (allData s)) refs) ->
               In (Line.datum el) (Data.links (allData s))).
  { intros store refs H. unfold filterEdges in H. apply filter_In in H. apply H. }
  destruct (temporal s); [|exact (Hf _ _ Hel)].
  unfold filterTemporalEdges in Hel. apply filter_In in Hel as [Hel _].
  exact (Hf _ _ Hel).
Qed.

End Hover.

(** X13.  Hovering a node after a render, with the keys of the links in
    the adjacency index (as a load leaves them).  Every line that gets
    the class [edge_highlight] has both its ends highlighted: each
    circle of the selection whose node has the uid of one of its ends
    gets the class [node_highlight]. *)
Theorem hover_marks_both_ends (s0 : Network.state) (d : nat) :
  Interaction.indexed s0 ->
  let s := Interaction.highlightNode true (Network.render s0) d in
  let store := Data.nodes (Network.allData s) in
  forall el, In el (Network.edges s) -> Line.edge_highlight el = true ->
  forall c, In c (Network.nodes s) ->
    Node.uid (store !!! Circle.datum c)
    = Node.uid (store !!! Link.source (Line.datum el))
    \/ Node.uid (store !!! Circle.datum c)
       = Node.uid (store !!! Link.target (Line.datum el)) ->
    Circle.node_highlight c = true.
Proof.
  intros Hidx s store el Hel Hhl c Hc Hend.
  set (s1 := Network.render s0) in *.
  assert (Hidx1 : Interaction.indexed s1) by (apply render_indexed, Hidx).
  assert (Hstore : store = Data.nodes (Network.allData s1)) by reflexivity.
  rewrite Hstore in Hend. clearbody store. clear Hstore store.
  unfold Network.edges in Hel. subst s.
  cbn [Interaction.highlightNode Interaction.with_scene Network.g_edges] in Hel.
  apply in_map_iff in Hel as (el0 & <- & Hel0).
  cbn [Interaction.set_edge_highlight Line.edge_highlight Line.datum] in Hhl, Hend.
  unfold Network.nodes in Hc.
  cbn [Interaction.highlightNode Interaction.with_scene Network.g_nodes] in Hc.
  apply filter_In in Hc as [Hc Hrem]. apply negb_true_iff in Hrem.
  apply in_map_iff in Hc as (c0 & <- & Hc0).
  destruct (Circle.removing c0) eqn:Er; [congruence|].
  cbn [Interaction.set_node_highlight Circle.node_highlight Circle.datum] in *.
  assert (Hl : In (Line.datum el0) (Data.links (Network.allData s1))).
  { apply render_lines_of_data in Hel0. exact Hel0. }
  destruct (Hidx1 _ Hl) as [Hkey Hin]. cbn zeta in Hkey.
  rewrite Hkey in Hin.
  set (st := Data.nodes (Network.allData s1)) in *.
  apply orb_true_iff in Hhl.
  unfold Interaction.neighboring.
  destruct Hend as [He | He], Hhl as [Hd | Hd]; apply String.eqb_eq in Hd.
  - rewrite He, Hd, String.eqb_refl. reflexivity.
  - rewrite He, <- Hd. rewrite (bool_decide_eq_true_2 _ Hin).
    rewrite !orb_true_r. reflexivity.
  - rewrite He, <- Hd. rewrite (bool_decide_eq_true_2 _ Hin).
    cbn [orb]. rewrite !orb_true_r. reflexivity.
  - rewrite He, Hd, String.eqb_refl. reflexivity.
Qed.

Lemma hover_marks_both_ends_witness :
  let s0 := Network.with_time Scenario.loaded (TimeWindow.mk 0 1 1 2) in
  let s := Interaction.highlightNode true (Network.render s0) 1 in
  let store := Data.nodes (Network.allData s) in
  List.Forall
    (fun el =>
       Line.edge_highlight el = true ->
       List.Forall
         (fun c =>
            Node.uid (store !!! Circle.datum c)
            = Node.uid (store !!! Link.source (Line.datum el))
            \/ Node.uid (store !!! Circle.datum c)
               = Node.uid (store !!! Link.target (Line.datum el)) ->
            Circle.node_highlight c = true)
         (Network.nodes s))
    (Network.edges s).
Proof.
  intros s0 s store.
  assert (H : Interaction.indexed s0).
  { exact (chart_indexed Scenario.config Scenario.loaded Scenario.payload eq_refl). }
  apply List.Forall_forall. intros el Hel Hhl.
  apply List.Forall_forall. intros c Hc Hend.
  exact (hover_marks_both_ends s0 1 H el Hel Hhl c Hc Hend).
Defined.

Section HoverExit.
Import JS Network Interaction.

Lemma map_fixed {A : Type} (f : A -> A) (l : list A) :
  (forall a, In a l -> f a = a) -> map f l = l.
Proof.
  induction l as [|a l IH]; intros H; cbn [map]; [reflexivity|].
  rewrite (H a (or_introl eq_refl)), IH; [reflexivity|].
  intros b Hb. apply H. right. exact Hb.
Qed.

Lemma with_scene_same (s : state) : with_scene s (g_nodes s) (g_edges s) = s.
Proof. destruct s; reflexivity. Qed.

End HoverExit.

(** X14.  Leaving a node.  [unhighlightNode] after [highlightNode]
    leaves the scene as [unhighlightNode] alone would; and when no circle
    and no line was highlighted before the pointer came, it leaves the
    scene exactly as it was before: data, circles with their radius,
    fill and search class, lines with their [edge_active] class. *)
Theorem hover_then_leave (showEdges : bool) (s : Network.state) (d : nat) :
  Interaction.unhighlightNode (Interaction.highlightNode showEdges s d)
  = Interaction.unhighlightNode s
  /\ ((forall c, In c (Network.g_nodes s) -> Circle.node_highlight c = false) ->
      (forall el, In el (Network.g_edges s) -> Line.edge_highlight el = false) ->
      Interaction.unhighlightNode (Interaction.highlightNode showEdges s d) = s).
Proof.
  assert (Hfirst : Interaction.unhighlightNode (Interaction.highlightNode showEdges s d)
                   = Interaction.unhighlightNode s).
  { destruct showEdges; [|reflexivity].
    unfold Interaction.unhighlightNode, Interaction.highlightNode.
    cbn [Interaction.with_scene Network.g_nodes Network.g_edges Network.temporal
           Network.radiusMinSize Network.radiusMaxSize Network.layout
           Network.filter Network.time Network.allData Network.linkedByIndex
           Network.countExtent Network.forces].
    rewrite !map_map.
    f_equal; apply map_ext; intros x; try reflexivity.
    destruct (Circle.removing x) eqn:E;
      cbn [Interaction.set_node_highlight Circle.removing]; rewrite ?E; reflexivity. }
  split; [exact Hfirst|].
  intros Hc He. rewrite Hfirst. unfold Interaction.unhighlightNode.
  rewrite (map_fixed _ (Network.g_nodes s)), (map_fixed _ (Network.g_edges s)).
  - apply with_scene_same.
  - intros el Hel. specialize (He el Hel). destruct el. cbn in *. subst. reflexivity.
  - intros c Hin. specialize (Hc c Hin).
    destruct (Circle.removing c); [reflexivity|].
    destruct c. cbn in *. subst. reflexivity.
Qed.

Lemma hover_then_leave_witness :
  let s := Network.updateTime Scenario.loaded (TimeWindow.mk 0 1 1 2) in
  Interaction.unhighlightNode (Interaction.highlightNode true s 1) = s.
Proof.
  intros s.
  assert (Hc : forall c, In c (Network.g_nodes s) -> Circle.node_highlight c = false).
  { intros c Hin. vm_compute in Hin.
    destruct Hin as [<- | [<- | [<- | []]]]; reflexivity. }
  assert (He : forall el, In el (Network.g_edges s) -> Line.edge_highlight el = false).
  { intros el Hin. vm_compute in Hin.
    destruct Hin as [<- | [<- | []]]; reflexivity. }
  exact (proj2 (hover_then_leave true s 1) Hc He).
Defined.

(** * The join of circles and nodes *)

Section IndexJoin.
Import JS Network.

Lemma map_lookup {A B : Type} (f : A -> B) (l : list A) (k : nat) :
  map f l !! k = f <$> l !! k.
Proof.
  revert k. induction l as [|a l IH]; intros [|k]; cbn; try reflexivity. apply IH.
Qed.

(** The join by index, position by position. *)
Lemma renderNodes_lookup (s : state) (store : list Node.t) (els : list Circle.t) :
  forall nodesData k,
    renderNodes s store els nodesData !! k
    = match els !! k, nodesData !! k with
      | Some el, Some d => Some (updateCircle s store el d)
      | Some el, None => Some (exitCircle el)
      | None, Some d => Some (enterCircle s store d)
      | None, None => None
      end.
Proof.
  induction els as [|el els IH]; intros nodesData k.
  - cbn [renderNodes]. rewrite map_lookup, lookup_nil.
    destruct (nodesData !! k); reflexivity.
  - destruct nodesData as [|d nodesData].
    + cbn [renderNodes]. rewrite map_lookup, lookup_nil.
      destruct ((el :: els) !! k); reflexivity.
    + cbn [renderNodes]. destruct k as [|k]; [reflexivity|]. cbn. apply IH.
Qed.

End IndexJoin.

(** X15.  The join of circles and nodes goes by position.  After a
    render, the k-th circle is bound to the k-th node of the selection,
    whatever node it was bound to before: it keeps its classes
    [node_search] and [node_highlight], and its fill goes to the colour
    of the node it is now bound to (so the colour given by a search is
    gone, while the class stays).  A circle beyond the selection shrinks
    to be removed; a node beyond the circles gets a new circle without
    classes. *)
Theorem render_joins_by_position (s : Network.state) (k : nat) :
  let nodesData := Network.selection s (Network.allData s) in
  let store := Data.nodes (Network.allData (Network.render s)) in
  (forall el d, Network.g_nodes s !! k = Some el -> nodesData !! k = Some d ->
     exists el', Network.g_nodes (Network.render s) !! k = Some el'
                 /\ Circle.datum el' = d
                 /\ Circle.node_search el' = Circle.node_search el
                 /\ Circle.node_highlight el' = Circle.node_highlight el
                 /\ Circle.fill el' = Network.getColor (store !!! d)
                 /\ Circle.removing el' = false)
  /\ (forall el, Network.g_nodes s !! k = Some el -> nodesData !! k = None ->
        Network.g_nodes (Network.render s) !! k = Some (Network.exitCircle el))
  /\ (forall d, Network.g_nodes s !! k = None -> nodesData !! k = Some d ->
        exists el', Network.g_nodes (Network.render s) !! k = Some el'
                    /\ Circle.datum el' = d
                    /\ Circle.node_search el' = false
                    /\ Circle.node_highlight el' = false
                    /\ Circle.fill el' = Network.getColor (store !!! d)
                    /\ Circle.removing el' = false).
Proof.
  intros nodesData store.
  assert (H : Network.g_nodes (Network.render s) !! k
              = match Network.g_nodes s !! k, nodesData !! k with
                | Some el, Some d => Some (Network.updateCircle s store el d)
                | Some el, None => Some (Network.exitCircle el)
                | None, Some d => Some (Network.enterCircle s store d)
                | None, None => None
                end).
  { subst store. rewrite render_unfold.
    cbn [Network.g_nodes Network.allData Data.nodes].
    apply renderNodes_lookup. }
  split; [|split].
  - intros el d He Hd. rewrite He, Hd in H. eexists. split; [exact H|].
    cbn. auto 10.
  - intros el He Hd. rewrite He, Hd in H. exact H.
  - intros d He Hd. rewrite He, Hd in H. eexists. split; [exact H|].
    cbn. auto 10.
Qed.

Lemma render_joins_by_position_witness :
  let s := default Scenario.named (Network.updateSearch Scenario.named "b") in
  exists before after,
    Network.g_nodes s !! 0%nat = Some before
    /\ Circle.fill before = "#F38630"
    /\ Network.g_nodes (Network.render s) !! 0%nat = Some after
    /\ Circle.node_search after = true
    /\ Circle.fill after = "#99ccff".
Proof.
  intros s.
  destruct (Network.g_nodes s !! 0%nat) as [before|] eqn:Eb; [|vm_compute in Eb; discriminate].
  assert (Hd : Network.selection s (Network.allData s) !! 0%nat = Some 0%nat)
    by reflexivity.
  destruct (proj1 (render_joins_by_position s 0) before 0%nat Eb Hd)
    as (after & Ha & _ & Hs & _ & Hf & _).
  exists before, after.
  assert (Hbefore : Circle.fill before = "#F38630" /\ Circle.node_search before = true).
  { vm_compute in Eb. injection Eb as <-. split; reflexivity. }
  destruct Hbefore as [Hb1 Hb2].
  repeat split; [exact Hb1 | exact Ha | congruence |].
  rewrite Hf. reflexivity.
Defined.

(** X16.  What a render may write on a node object.  A render changes
    the node at an index of the store only when the network is temporal,
    the node is in the filtered selection, and some change record of the
    data has the current time and the uid of that node.  Nodes that the
    group filter leaves out are never patched, whatever the records
    say. *)
Theorem render_patches_only (s : Network.state) (j : nat) :
  Data.nodes (Network.allData (Network.render s)) !! j
  <> Data.nodes (Network.allData s) !! j ->
  Network.temporal s = true
  /\ In j (Network.selection s (Network.allData s))
  /\ exists c, In c (Data.changes (Network.allData s))
               /\ (Change.time c == inject_Z (TimeWindow.time (Network.time s)))%Q
               /\ Change.uid c = Node.uid (Data.nodes (Network.allData s) !!! j).
Proof.
  intros H. rewrite render_unfold in H.
  cbn [Network.allData Data.nodes] in H. unfold Network.patched in H.
  destruct (Network.temporal s); [|contradiction H; reflexivity].
  split; [reflexivity|].
  unfold Network.updateTemporalNodes in H. rewrite changes_lookup in H.
  match type of H with
  | context [List.filter ?P ?l] => destruct (List.filter P l) as [|c fl] eqn:Ef
  end.
  - contradiction H. cbn [fold_left].
    destruct (Data.nodes (Network.allData s) !! j); reflexivity.
  - assert (Hc : In c (c :: fl)) by (left; reflexivity).
    rewrite <- Ef in Hc. apply filter_In in Hc as [Hc Hfind].
    apply bool_decide_eq_true_1 in Hfind. apply findIndex_Some in Hfind as [Hj Hu].
    apply filter_In in Hc as [Hc Ht]. apply Qeqb_true in Ht.
    split; [exact Hj|]. exists c. auto.
Qed.

Lemma render_patches_only_witness :
  let s := Network.with_time Scenario.toggling (TimeWindow.mk 0 2 2 2) in
  In 0%nat (Network.selection s (Network.allData s))
  /\ exists c, In c (Data.changes (Network.allData s))
               /\ (Change.time c == inject_Z (TimeWindow.time (Network.time s)))%Q
               /\ Change.uid c = Node.uid (Data.nodes (Network.allData s) !!! 0%nat).
Proof.
  intros s.
  assert (H : Data.nodes (Network.allData (Network.render s)) !! 0%nat
              <> Data.nodes (Network.allData s) !! 0%nat).
  { vm_compute. discriminate. }
  exact (proj2 (render_patches_only s 0 H)).
Defined.



(** The forces of an earlier euclidean layout read the nodes of every
    later render.  After a load with coordinates in the euclidean layout,
    [updateData] with nodes without coordinates raises; and then so does
    [updateLayout('force')], which leaves the forces, the circles and the
    lines as the load made them. *)
Lemma stale_forces_raise :
  match Run.chart (Network.network false 4 16 "euclidean") Scenario.placed with
  | JS.Ok (s1, None) =>
      match Run.updateData s1 Scenario.payload with
      | JS.Ok (s2, Some JS.TypeError) =>
          let r := Run.updateLayout s2 "force" in
          snd r = Some JS.TypeError
          /\ Network.layout (fst r) = "force"
          /\ Network.forces (fst r) = Network.forces s1
          /\ Network.g_nodes (fst r) = Network.g_nodes s1
          /\ Network.g_edges (fst r) = Network.g_edges s1
      | _ => False
      end
  | _ => False
  end.
Proof. vm_compute. repeat split; reflexivity. Qed.

Section NewData.
Import JS Network Interaction.

Lemma map_uid_pointwise (a : list Node.t) :
  forall b, length a = length b ->
            (forall j, Node.uid (a !!! j) = Node.uid (b !!! j)) ->
            map Node.uid a = map Node.uid b.
Proof.
  induction a as [|x a IH]; intros [|y b] Hlen H; try discriminate Hlen.
  - reflexivity.
  - cbn [map]. f_equal; [exact (H 0%nat)|].
    apply IH; [injection Hlen; auto|]. intros j. exact (H (S j)).
Qed.

Lemma patched_length (s : state) (data : Data.t) :
  length (patched s data) = length (Data.nodes data).
Proof.
  unfold patched. destruct (temporal s); [|reflexivity].
  apply updateTemporalNodes_length.
Qed.

End NewData.

(** X18.  Loading other data into the chart.  When [updateData]
    succeeds, the chart shows the nodes of the new payload, with the
    settings it had (temporal, filter, time window, layout); the keys of
    the new links are in the adjacency index with the uids of their
    ends, and every key that was in the index is still there: two nodes
    that [neighboring] held to be neighbours before the load are still
    held to be neighbours after it. *)
Theorem updateData_keeps_adjacency (s s' : Network.state) (newData : Payload.t) :
  Interaction.updateData s newData = JS.Ok s' ->
  map Node.uid (Data.nodes (Network.allData s')) = map Node.uid (Payload.nodes newData)
  /\ (Network.temporal s', Network.filter s', Network.time s', Network.layout s')
     = (Network.temporal s, Network.filter s, Network.time s, Network.layout s)
  /\ Interaction.indexed s'
  /\ (forall a b, Interaction.neighboring s a b = true ->
                  Interaction.neighboring s' a b = true).
Proof.
  unfold Interaction.updateData. intros H.
  destruct (Network.setupData s newData) as [[s1 d]|e] eqn:Hsd; [|discriminate].
  injection H as <-.
  destruct (setupData_resolved _ _ _ _ Hsd) as [HF Hidx].
  destruct (setupData_Ok _ _ _ _ Hsd) as (Hn & _ & _ & Hs1).
  split; [|split; [|split]].
  - rewrite render_unfold. cbn [Network.allData Data.nodes Interaction.with_allData].
    rewrite (map_uid_pointwise _ (Data.nodes d)).
    + rewrite Hn, map_map. reflexivity.
    + apply patched_length.
    + intros j. apply patched_uid.
  - rewrite Hs1. reflexivity.
  - apply render_indexed. intros l Hl.
    cbn [Interaction.with_allData Network.allData Data.links Data.nodes
           Network.linkedByIndex] in *.
    destruct (Forall2_In_r _ _ _ HF l Hl) as (raw & _ & Hsrc & Htgt & Hu & _).
    split; [rewrite Hsrc, Htgt; exact Hu|].
    apply Hidx. right. exists l. auto.
  - intros a b Hab. unfold Interaction.neighboring in *.
    rewrite render_unfold. cbn [Network.linkedByIndex Interaction.with_allData].
    apply orb_true_iff in Hab. apply orb_true_iff.
    destruct Hab as [Hab | Hab]; [left | right];
      apply bool_decide_eq_true_1 in Hab; apply bool_decide_eq_true_2;
      apply Hidx; left; exact Hab.
Qed.

Lemma updateData_keeps_adjacency_witness :
  match Interaction.updateData Scenario.loaded Scenario.recoloured with
  | JS.Ok s' =>
      map Node.uid (Data.nodes (Network.allData s')) = ["a"]
      /\ Interaction.neighboring s' (Scenario.node "b") (Scenario.node "c") = true
  | JS.Throw _ => False
  end.
Proof.
  destruct (Interaction.updateData Scenario.loaded Scenario.recoloured)
    as [s'|e] eqn:E.
  - destruct (updateData_keeps_adjacency _ _ _ E) as (Hu & _ & _ & Hn).
    split; [exact Hu|]. apply Hn.
    unfold Interaction.neighboring. apply orb_true_iff. left.
    apply bool_decide_eq_true_2.
    assert (Hi : Interaction.indexed Scenario.loaded)
      by exact (chart_indexed Scenario.config Scenario.loaded Scenario.payload eq_refl).
    assert (Hl : exists l, In l (Data.links (Network.allData Scenario.loaded))
                           /\ Link.uid l = "b_c").
    { eexists. split; [right; left; reflexivity | reflexivity]. }
    destruct Hl as (l & Hl & Hk). destruct (Hi l Hl) as [_ Hin].
    rewrite Hk in Hin. exact Hin.
  - vm_compute in E. discriminate E.
Defined.

(** * The join of lines and links *)

Section KeyedJoin.
Import JS Network.

(** The join by key, position by position: a datum takes the first line
    that has its key, unless an earlier datum has taken it. *)
Lemma bindKey_lookup (edgesData : list Link.t) :
  forall (m : gmap string Line.t) (k : nat) (d : Link.t),
    edgesData !! k = Some d ->
    bindKey m edgesData !! k
    = Some match (if existsb (String.eqb (Link.uid d))
                       (map Link.uid (take k edgesData))
                  then None else m !! Link.uid d) with
           | Some old => updateLine old d
           | None => enterLine d
           end.
Proof.
  induction edgesData as [|d0 rest IH]; intros m k d H; [discriminate H|].
  destruct k as [|k].
  - injection H as <-. cbn [bindKey take map existsb].
    destruct (m !! Link.uid d0); reflexivity.
  - change (rest !! k = Some d) in H.
    cbn [bindKey take map existsb].
    destruct (String.eqb_spec (Link.uid d) (Link.uid d0)) as [Heq|Hne]; cbn [orb].
    + destruct (m !! Link.uid d0) as [el|] eqn:Em.
      * refine (eq_trans (IH (delete (Link.uid d0) m) k d H) _).
        rewrite Heq, lookup_delete_eq.
        destruct (existsb _ _); reflexivity.
      * refine (eq_trans (IH m k d H) _).
        rewrite Heq, Em.
        destruct (existsb _ _); reflexivity.
    + destruct (m !! Link.uid d0) as [el|] eqn:Em.
      * refine (eq_trans (IH (delete (Link.uid d0) m) k d H) _).
        rewrite lookup_delete_ne by (intros E; apply Hne; symmetry; exact E).
        reflexivity.
      * exact (IH m k d H).
Qed.

End KeyedJoin.

(** X19.  The join of lines and links goes by key.  After a render the
    k-th line is bound to the k-th link shown.  If no earlier link shown
    has the same key, the line is the first line that had this key
    before the render, with its class [edge_highlight] (and, when the
    network is not temporal, its class [edge_active]); if there was no
    such line, or an earlier link has the same key, the line is new: not
    highlighted (and active, when the network is not temporal). *)
Theorem render_joins_lines_by_key (s : Network.state) (k : nat) (d : Link.t) :
  let edgesData := Network.shown s (Network.allData s) in
  edgesData !! k = Some d ->
  let old :=
    if existsb (String.eqb (Link.uid d)) (map Link.uid (take k edgesData))
    then None else Network.first_with (Link.uid d) (Network.g_edges s) in
  exists el,
    Network.g_edges (Network.render s) !! k = Some el
    /\ Line.datum el = d
    /\ Line.edge_highlight el = from_option Line.edge_highlight false old
    /\ (Network.temporal s = false ->
        Line.edge_active el = from_option Line.edge_active true old).
Proof.
  intros edgesData Hd old.
  pose proof (bindKey_lookup edgesData (Network.nodeByKeyValue (Network.g_edges s))
                k d Hd) as H.
  rewrite nodeByKeyValue_lookup in H. fold old in H.
  rewrite render_unfold. cbn [Network.g_edges]. fold edgesData.
  unfold Network.classed, Network.renderEdges.
  destruct (Network.temporal s).
  - unfold Network.renderTemporalEdges. rewrite map_lookup, H. cbn [fmap option_fmap option_map].
    eexists. split; [reflexivity|]. cbn [Line.datum Line.edge_highlight].
    destruct old; cbn; (split; [reflexivity|]); (split; [reflexivity|]); discriminate.
  - rewrite H. eexists. split; [reflexivity|].
    destruct old; cbn; auto.
Qed.

Lemma render_joins_lines_by_key_witness :
  let s := Interaction.highlightNode true
             (Network.updateTime Scenario.loaded (TimeWindow.mk 0 1 1 2)) 0 in
  exists el, Network.g_edges (Network.render s) !! 0%nat = Some el
             /\ Link.uid (Line.datum el) = "a_b"
             /\ Line.edge_highlight el = true.
Proof.
  intros s.
  assert (Hd : exists d, Network.shown s (Network.allData s) !! 0%nat = Some d
                         /\ Link.uid d = "a_b").
  { eexists. split; reflexivity. }
  destruct Hd as (d & Hd & Hu).
  destruct (render_joins_lines_by_key s 0 d Hd) as (el & Hel & Hdat & Hhl & _).
  exists el. split; [exact Hel|]. split; [rewrite Hdat; exact Hu|].
  rewrite Hhl, Hu. reflexivity.
Defined.

(** X20.  What a render shows.  The circles of the selection are bound,
    in order, to the nodes the group filter selects.  A link of the data
    has a line exactly when the uid of each of its ends is the uid of a
    selected node and, in a temporal network, it has a timestamp within
    [past, future]. *)
Theorem render_shows_exactly (s : Network.state) :
  let s' := Network.render s in
  let store := Data.nodes (Network.allData s') in
  let nodesData := Network.selection s (Network.allData s) in
  map Circle.datum (Network.nodes s') = nodesData
  /\ forall d,
       In d (map Line.datum (Network.edges s')) <->
       In d (Data.links (Network.allData s))
       /\ (exists i, In i nodesData
                     /\ Node.uid (store !!! i) = Node.uid (store !!! Link.source d))
       /\ (exists i, In i nodesData
                     /\ Node.uid (store !!! i) = Node.uid (store !!! Link.target d))
       /\ (Network.temporal s = true ->
           exists t, Link.time d = Some t
                     /\ (inject_Z (TimeWindow.past (Network.time s)) <= t)%Q
                     /\ (t <= inject_Z (TimeWindow.future (Network.time s)))%Q).
Proof.
  intros s' store nodesData.
  split; [apply render_nodes_datum|].
  intros d. subst s'. rewrite render_edges_datum. cbn zeta.
  change (if Network.temporal s
          then Network.updateTemporalNodes s (Data.nodes (Network.allData s))
                 (Network.filterNodes s (Data.nodes (Network.allData s)))
                 (Data.changes (Network.allData s))
          else Data.nodes (Network.allData s)) with store.
  change (Network.filterNodes s (Data.nodes (Network.allData s))) with nodesData.
  assert (Hf : In d (Network.filterEdges store (Data.links (Network.allData s))
                       nodesData)
               <-> In d (Data.links (Network.allData s))
                   /\ (exists i, In i nodesData
                                 /\ Node.uid (store !!! i)
                                    = Node.uid (store !!! Link.source d))
                   /\ (exists i, In i nodesData
                                 /\ Node.uid (store !!! i)
                                    = Node.uid (store !!! Link.target d))).
  { unfold Network.filterEdges. rewrite filter_In, andb_true_iff, !d3_map_has.
    reflexivity. }
  destruct (Network.temporal s).
  - rewrite filterTemporalEdges_In, Hf. split.
    + intros ((H1 & H2 & H3) & H4). auto.
    + intros (H1 & H2 & H3 & H4). auto.
  - rewrite Hf. split.
    + intros (H1 & H2 & H3). repeat split; try assumption. discriminate.
    + intros (H1 & H2 & H3 & _). auto.
Qed.

(** * Search and hover *)

Section SearchedHover.
Import JS Network Interaction.

(** A search leaves every circle in its place, exiting or not. *)
Lemma searchEach_removing (q : string) (re : list atom) (els : list Circle.t) :
  forall store,
    map Circle.removing (fst (searchEach q re els store)) = map Circle.removing els.
Proof.
  induction els as [|el els IH]; intros store; cbn [searchEach]; [reflexivity|].
  destruct (Circle.removing el) eqn:Er.
  - specialize (IH store). destruct (searchEach q re els store) as [els' store'].
    cbn [fst map] in *. rewrite Er, IH. reflexivity.
  - unfold searchCircle.
    destruct ((0 <? String.length q)%nat && (0 <=? search _ re)%Z);
      match goal with
      | |- context [searchEach q re els ?st] =>
          specialize (IH st); destruct (searchEach q re els st) as [els' store']
      end; cbn [fst map Circle.removing] in *; rewrite Er, IH; reflexivity.
Qed.

Lemma In_lookup {A : Type} (l : list A) (a : A) :
  In a l -> exists k, l !! k = Some a.
Proof.
  induction l as [|x l IH]; intros H; [destruct H|].
  destruct H as [<- | H]; [exists 0%nat; reflexivity|].
  destruct (IH H) as [k Hk]. exists (S k). exact Hk.
Qed.

Lemma lookup_In {A : Type} (l : list A) (k : nat) (a : A) :
  l !! k = Some a -> In a l.
Proof.
  revert k. induction l as [|x l IH]; intros [|k] H; try discriminate H.
  - injection H as <-. left. reflexivity.
  - right. exact (IH k H).
Qed.

End SearchedHover.

(** X21.  A search shows in every hover that follows.  After
    [updateSearch], on a scene whose circles are bound to nodes of the
    store, hovering any node gives the class [node_highlight] to every
    circle of the selection that has the class [node_search]. *)
Theorem searched_nodes_light_up (s s1 : Network.state) (searchTerm : string)
    (d : nat) :
  Network.updateSearch s searchTerm = Some s1 ->
  (forall c, In c (Network.g_nodes s) ->
             (Circle.datum c < length (Data.nodes (Network.allData s)))%nat) ->
  forall c, In c (Network.nodes (Interaction.highlightNode true s1 d)) ->
            Circle.node_search c = true -> Circle.node_highlight c = true.
Proof.
  unfold Network.updateSearch. intros Hs Hbound c Hc Hmark.
  destruct (JS.RegExp (JS.toLowerCase searchTerm)) as [re|]; [|discriminate].
  pose proof (searchEach_spec searchTerm re (Network.g_nodes s)
                (Data.nodes (Network.allData s))) as Hspec.
  pose proof (searchEach_removing searchTerm re (Network.g_nodes s)
                (Data.nodes (Network.allData s))) as Hrem.
  cbn zeta in Hspec.
  destruct (Network.searchEach _ _ _ _) as [circles store] eqn:Es.
  cbn [fst snd] in Hspec, Hrem. destruct Hspec as (_ & Hlen & Hk).
  injection Hs as <-.
  unfold Network.nodes in Hc.
  cbn [Interaction.highlightNode Interaction.with_scene Network.g_nodes
         Network.allData Data.nodes] in Hc.
  apply filter_In in Hc as [Hc Hr]. apply negb_true_iff in Hr.
  apply in_map_iff in Hc as (c1 & <- & Hc1).
  destruct (Circle.removing c1) eqn:Er1; [congruence|].
  cbn [Interaction.set_node_highlight Circle.node_highlight Circle.node_search] in *.
  destruct (In_lookup _ _ Hc1) as [k Hk1].
  assert (Hlt : (k < length (Network.g_nodes s))%nat).
  { rewrite <- Hlen. apply lookup_lt_Some in Hk1. exact Hk1. }
  destruct (lookup_lt_is_Some_2 _ _ Hlt) as [el Hel].
  assert (Hrel : Circle.removing el = false).
  { assert (H : map Circle.removing circles !! k = map Circle.removing (Network.g_nodes s) !! k)
      by (rewrite Hrem; reflexivity).
    rewrite !map_lookup, Hk1, Hel in H. cbn in H. congruence. }
  assert (Hin : In el (Network.g_nodes s)).
  { exact (lookup_In _ _ _ Hel). }
  destruct (Hk k el Hel Hrel (Hbound el Hin)) as (el' & He' & Hdat & Hns & _ & Hse).
  rewrite Hk1 in He'. injection He' as <-.
  rewrite Hdat, Hse, <- Hns, Hmark. rewrite orb_true_r. reflexivity.
Qed.

Lemma searched_nodes_light_up_witness :
  let s1 := default Scenario.named (Network.updateSearch Scenario.named "b") in
  List.Forall (fun c => Circle.node_search c = true /\ Circle.node_highlight c = true)
    (Network.nodes (Interaction.highlightNode true s1 0)).
Proof.
  intros s1.
  assert (Hs : Network.updateSearch Scenario.named "b" = Some s1) by reflexivity.
  assert (Hb : forall c, In c (Network.g_nodes Scenario.named) ->
                         (Circle.datum c
                          < length (Data.nodes (Network.allData Scenario.named)))%nat).
  { intros c Hc. vm_compute in Hc. destruct Hc as [<- | []]. vm_compute. lia. }
  apply List.Forall_forall. intros c Hc.
  assert (Hm : Circle.node_search c = true).
  { vm_compute in Hc. destruct Hc as [<- | []]. reflexivity. }
  split; [exact Hm|].
  exact (searched_nodes_light_up Scenario.named s1 "b" 0 Hs Hb c Hc Hm).
Defined.

(** * The buttons of the slider *)

(** X22.  The Lookout and Aggregate buttons, on a timeline of fewer than
    1000 steps.  A click on Lookout sets [pastDelta] and [futureDelta]
    to the configured widths when the lookout was off and to 0 when it
    was on, whatever the handles had been dragged to; a click on
    Aggregate does the same with [aggregationDelta].  The window pushed
    by the click has [time] on the rounded current time and, when the
    current time is clear of the ties, its other markers at the new
    distances from it. *)
Theorem button_clicks (s : Slider.state) (net : Network.state) :
  (0 < Slider.timeSteps s < 1000)%Z ->
  (0 <= Slider.config_past s)%Z -> (0 <= Slider.config_future s)%Z ->
  (0 <= Slider.config_aggregation s)%Z ->
  (0 <= Slider.pastDelta s)%Z -> (0 <= Slider.futureDelta s)%Z ->
  (0 <= Slider.aggregationDelta s)%Z ->
  let t := Slider64.x_invert s (Slider.currentValue s) in
  let r := JS.toFixed0 t in
  (let sn' := Slider64.lookoutBtn (s, net) in
   let w := Network.time (snd sn') in
   let p := if Slider.lookoutShow s then 0%Z else Slider.config_past s in
   let f := if Slider.lookoutShow s then 0%Z else Slider.config_future s in
   Slider.lookoutShow (fst sn') = negb (Slider.lookoutShow s)
   /\ Slider.pastDelta (fst sn') = p /\ Slider.futureDelta (fst sn') = f
   /\ TimeWindow.time w = r
   /\ (Slider64.clear_of_ties t ->
       TimeWindow.past w = Z.max 0 (r - p)
       /\ TimeWindow.future w
          = Z.min (Slider.timeSteps s) (r + Slider.aggregationDelta s + f)))
  /\ (let sn' := Slider64.aggregationBtn (s, net) in
      let w := Network.time (snd sn') in
      let a := if Slider.aggregationShow s then 0%Z else Slider.config_aggregation s in
      Slider.aggregationShow (fst sn') = negb (Slider.aggregationShow s)
      /\ Slider.aggregationDelta (fst sn') = a
      /\ TimeWindow.time w = r
      /\ (Slider64.clear_of_ties t ->
          ((r + a < 1000)%Z -> TimeWindow.aggregated w = (r + a)%Z)
          /\ TimeWindow.future w
             = Z.min (Slider.timeSteps s) (r + a + Slider.futureDelta s))).
Proof.
  intros HS Hcp Hcf Hca Hp Hf Ha t r.
  pose proof (x_invert_domain s (Slider.currentValue s) HS) as Ht. fold t in Ht.
  split.
  - intros sn' w p f. subst sn' w. unfold Slider64.lookoutBtn. cbn [fst snd].
    match goal with |- context [Slider64.update _ (?s1, net)] => set (s' := s1) end.
    change (Slider64.x_invert s' (Slider.currentValue s')) with t.
    assert (E1 : Slider.pastDelta s' = p) by reflexivity.
    assert (E2 : Slider.futureDelta s' = f) by reflexivity.
    destruct (update_window64 s' net t) as (_ & _ & Htime & Hrest);
      try assumption.
    { rewrite E1. subst p. destruct (Slider.lookoutShow s); lia. }
    { rewrite E2. subst f. destruct (Slider.lookoutShow s); lia. }
    split; [reflexivity|]. split; [reflexivity|]. split; [reflexivity|].
    split; [exact Htime|].
    intros Hclear. destruct (Hrest Hclear) as (Hpast & Hfut & _).
    rewrite Hpast, Hfut, E1, E2. split; reflexivity.
  - intros sn' w a. subst sn' w. unfold Slider64.aggregationBtn. cbn [fst snd].
    match goal with |- context [Slider64.update _ (?s1, net)] => set (s' := s1) end.
    change (Slider64.x_invert s' (Slider.currentValue s')) with t.
    assert (E1 : Slider.aggregationDelta s' = a) by reflexivity.
    destruct (update_window64 s' net t) as (_ & _ & Htime & Hrest);
      try assumption.
    { rewrite E1. subst a. destruct (Slider.aggregationShow s); lia. }
    split; [reflexivity|]. split; [reflexivity|]. split; [exact Htime|].
    intros Hclear. destruct (Hrest Hclear) as (_ & Hfut & Hagg).
    rewrite Hfut, E1. fold r in Hagg. rewrite E1 in Hagg.
    split; [exact Hagg | reflexivity].
Qed.

Lemma button_clicks_witness :
  let s := fst (Slider64.drag 300 (Scenario.slider64, Scenario.loaded)) in
  let sn' := Slider64.lookoutBtn (s, Scenario.loaded) in
  Slider.pastDelta (fst sn') = 0%Z
  /\ TimeWindow.past (Network.time (snd sn')) = 6%Z
  /\ TimeWindow.future (Network.time (snd sn')) = 6%Z.
Proof.
  intros s sn'.
  assert (H1 : (0 < Slider.timeSteps s < 1000)%Z) by (vm_compute; auto).
  assert (H2 : (0 <= Slider.config_past s)%Z) by (vm_compute; discriminate).
  assert (H3 : (0 <= Slider.config_future s)%Z) by (vm_compute; discriminate).
  assert (H4 : (0 <= Slider.config_aggregation s)%Z) by (vm_compute; discriminate).
  assert (H5 : (0 <= Slider.pastDelta s)%Z) by (vm_compute; discriminate).
  assert (H6 : (0 <= Slider.futureDelta s)%Z) by (vm_compute; discriminate).
  assert (H7 : (0 <= Slider.aggregationDelta s)%Z) by (vm_compute; discriminate).
  assert (H8 : Slider64.clear_of_ties (Slider64.x_invert s (Slider.currentValue s)))
    by (split; vm_compute; discriminate).
  destruct (button_clicks s Scenario.loaded H1 H2 H3 H4 H5 H6 H7)
    as [(_ & Hp & _ & _ & Hrest) _].
  destruct (Hrest H8) as (Hpast & Hfut).
  subst sn'. split; [exact Hp|].
  split; [rewrite Hpast | rewrite Hfut]; vm_compute; reflexivity.
Defined.

(** * One search after another *)

Section NewSearch.
Import JS Network Interaction.

Variable q : string.
Variable re : list atom.

(** One step of [nodes.each], written out. *)
Lemma searchCircle_eq (store : list Node.t) (el : Circle.t) :
  searchCircle q re store el
  = ({| Circle.datum := Circle.datum el; Circle.r := Circle.r el;
        Circle.fill := if hit q re (store !!! Circle.datum el) then "#F38630"
                       else getColor (store !!! Circle.datum el);
        Circle.node_highlight := Circle.node_highlight el;
        Circle.node_search := hit q re (store !!! Circle.datum el);
        Circle.removing := Circle.removing el |},
     <[Circle.datum el := set_searched (store !!! Circle.datum el)
                            (hit q re (store !!! Circle.datum el))]> store).
Proof.
  unfold searchCircle. fold (hit q re (store !!! Circle.datum el)).
  destruct (hit q re (store !!! Circle.datum el)); reflexivity.
Qed.

Lemma node_eq (a b : Node.t) :
  same_node a b -> Node.searched a = Node.searched b -> a = b.
Proof.
  destruct a, b. unfold same_node, set_searched. cbn. intros H E.
  inversion H. subst. reflexivity.
Qed.

Lemma total_out_of_range (l : list Node.t) (i : nat) :
  (length l <= i)%nat -> l !!! i = inhabitant.
Proof.
  intros H. rewrite list_lookup_total_alt, (lookup_ge_None_2 _ _ H). reflexivity.
Qed.

Lemma store_eq (a : list Node.t) :
  forall b, length a = length b -> (forall j, a !!! j = b !!! j) -> a = b.
Proof.
  induction a as [|x a IH]; intros [|y b] Hlen H; try discriminate Hlen.
  - reflexivity.
  - f_equal; [exact (H 0%nat)|].
    apply IH; [injection Hlen; auto|]. intros j. exact (H (S j)).
Qed.

(** Marking the same node in two stores that are apart by marks only. *)
Lemma insert_apart (els : list Circle.t) (el : Circle.t) (els1 : list Circle.t)
    (store store1 : list Node.t) (h : bool) :
  Circle.removing el = false ->
  length store1 = length store ->
  (forall j, same_node (store1 !!! j) (store !!! j)) ->
  (forall j, Node.searched (store1 !!! j) <> Node.searched (store !!! j) ->
             exists c, In c (el :: els) /\ Circle.removing c = false
                       /\ Circle.datum c = j) ->
  Forall2 same_circle els els1 ->
  marks_apart els els1
    (<[Circle.datum el := set_searched (store !!! Circle.datum el) h]> store)
    (<[Circle.datum el := set_searched (store1 !!! Circle.datum el) h]> store1).
Proof.
  intros Er Hlen Hsame Hdiff HF. set (j := Circle.datum el) in *.
  destruct (le_lt_dec (length store) j) as [Hge | Hlt].
  - rewrite !list_insert_ge by lia.
    split; [exact Hlen|]. split; [exact Hsame|]. split; [|exact HF].
    intros i Hi. destruct (Hdiff i Hi) as (c & [<- | Hc] & Hcr & Hcd).
    + exfalso. apply Hi. subst i. fold j.
      rewrite !total_out_of_range by lia. reflexivity.
    + exists c. auto.
  - split; [rewrite !length_insert; exact Hlen|].
    split; [|split; [|exact HF]].
    + intros i. destruct (decide (j = i)) as [<- | Hne].
      * rewrite !list_lookup_total_insert_eq by lia.
        pose proof (Hsame j) as H. unfold same_node in *. exact H.
      * rewrite !list_lookup_total_insert_ne by exact Hne. apply Hsame.
    + intros i Hi. destruct (decide (j = i)) as [<- | Hne].
      * exfalso. apply Hi. rewrite !list_lookup_total_insert_eq by lia. reflexivity.
      * rewrite !list_lookup_total_insert_ne in Hi by exact Hne.
        destruct (Hdiff i Hi) as (c & [<- | Hc] & Hcr & Hcd); [contradiction|].
        exists c. auto.
Qed.

(** A search gives the same scene on two scenes apart by marks only. *)
Lemma second_pass (els : list Circle.t) :
  forall els1 store store1,
    marks_apart els els1 store store1 ->
    searchEach q re els store = searchEach q re els1 store1.
Proof.
  induction els as [|el els IH]; intros els1 store store1 (Hlen & Hsame & Hdiff & HF).
  - inversion HF; subst. cbn [searchEach]. f_equal.
    symmetry. apply store_eq; [exact Hlen|]. intros j.
    apply node_eq; [apply Hsame|].
    destruct (bool_decide (Node.searched (store1 !!! j) = Node.searched (store !!! j)))
      eqn:E.
    + apply bool_decide_eq_true_1 in E. exact E.
    + apply bool_decide_eq_false_1 in E. destruct (Hdiff j E) as (c & [] & _).
  - inversion HF as [|? el1 ? els1' Hc HF']; subst.
    destruct Hc as (Hd & Hr & Hh & Hrem & Hkeep).
    cbn [searchEach]. rewrite Hrem.
    destruct (Circle.removing el) eqn:Er.
    + rewrite (Hkeep eq_refl).
      rewrite (IH els1' store store1); [reflexivity|].
      split; [exact Hlen|]. split; [exact Hsame|]. split; [|exact HF'].
      intros j Hj. destruct (Hdiff j Hj) as (c & [<- | Hc] & Hcr & Hcd); [congruence|].
      exists c. auto.
    + rewrite !searchCircle_eq. rewrite Hd, Hr, Hh, Hrem, ?Er.
      destruct (same_node_hit q re _ _ (Hsame (Circle.datum el))) as [Hhit Hcol].
      rewrite Hhit, Hcol.
      rewrite (IH els1'
                 (<[Circle.datum el := set_searched (store !!! Circle.datum el)
                                         (hit q re (store !!! Circle.datum el))]> store)
                 (<[Circle.datum el := set_searched (store1 !!! Circle.datum el)
                                         (hit q re (store !!! Circle.datum el))]> store1));
        [reflexivity|].
      apply insert_apart; assumption.
Qed.

End NewSearch.

Section FirstSearch.
Import JS Network Interaction.

Lemma same_circle_refl (el : Circle.t) : same_circle el el.
Proof. unfold same_circle. auto 10. Qed.

(** A search leaves the scene apart from what it was by marks only. *)
Lemma first_pass (q : string) (re : list atom) (els : list Circle.t) :
  forall store,
    marks_apart els (fst (searchEach q re els store)) store
      (snd (searchEach q re els store)).
Proof.
  induction els as [|el els IH]; intros store; cbn [searchEach].
  - split; [reflexivity|]. split; [reflexivity|].
    split; [intros j H; contradiction H; reflexivity | constructor].
  - destruct (Circle.removing el) eqn:Er.
    + specialize (IH store).
      destruct (searchEach q re els store) as [els' store'].
      cbn [fst snd] in *. destruct IH as (Hlen & Hsame & Hdiff & HF).
      split; [exact Hlen|]. split; [exact Hsame|]. split.
      * intros j Hj. destruct (Hdiff j Hj) as (c & Hc & Hr). exists c.
        split; [right; exact Hc | exact Hr].
      * constructor; [apply same_circle_refl | exact HF].
    + rewrite searchCircle_eq.
      set (d := store !!! Circle.datum el) in *. set (h := hit q re d) in *.
      specialize (IH (<[Circle.datum el := set_searched d h]> store)).
      destruct (searchEach q re els _) as [els' store'].
      cbn [fst snd] in *. destruct IH as (Hlen & Hsame & Hdiff & HF).
      rewrite length_insert in Hlen.
      assert (Hstep : forall i,
                 same_node (<[Circle.datum el := set_searched d h]> store !!! i)
                   (store !!! i)
                 /\ (Node.searched (<[Circle.datum el := set_searched d h]> store !!! i)
                     <> Node.searched (store !!! i) -> Circle.datum el = i)).
      { intros i. rewrite list_lookup_total_insert.
        destruct (decide (Circle.datum el = i /\ (Circle.datum el < length store)%nat))
          as [[<- _]|_].
        - split; [apply set_searched_same | reflexivity].
        - split; [reflexivity | intros H; contradiction H; reflexivity]. }
      split; [exact Hlen|]. split; [|split].
      * intros i. destruct (Hstep i) as [H1 _]. pose proof (Hsame i) as H2.
        unfold same_node in *. congruence.
      * intros i Hi.
        destruct (bool_decide
                    (Node.searched (store' !!! i)
                     = Node.searched (<[Circle.datum el := set_searched d h]> store !!! i)))
          eqn:E.
        -- apply bool_decide_eq_true_1 in E. rewrite E in Hi.
           exists el. split; [left; reflexivity|]. split; [exact Er|].
           apply (Hstep i), Hi.
        -- apply bool_decide_eq_false_1 in E.
           destruct (Hdiff i E) as (c & Hc & Hr). exists c.
           split; [right; exact Hc | exact Hr].
      * constructor; [|exact HF].
        unfold same_circle. cbn. rewrite Er. repeat split. discriminate.
Qed.

End FirstSearch.

(** X23.  A new search replaces the one before.  After a search, the
    result of the next search is what it would have been without the
    first: the marks of the first search (flags on the nodes, class and
    fill on the circles) leave no trace.  In particular, searching the
    same term twice gives what searching it once gives. *)
Theorem new_search_replaces_old (s s1 : Network.state) (first next : string) :
  Network.updateSearch s first = Some s1 ->
  Network.updateSearch s1 next = Network.updateSearch s next.
Proof.
  unfold Network.updateSearch. intros Hs.
  destruct (JS.RegExp (JS.toLowerCase first)) as [re1|]; [|discriminate].
  pose proof (first_pass first re1 (Network.g_nodes s)
                (Data.nodes (Network.allData s))) as Hfirst.
  destruct (Network.searchEach first re1 _ _) as [circles store].
  cbn [fst snd] in Hfirst. injection Hs as <-.
  cbn [Network.g_nodes Network.allData Data.nodes Data.links Data.changes
         Network.temporal Network.radiusMinSize Network.radiusMaxSize
         Network.layout Network.filter Network.time Network.linkedByIndex
         Network.countExtent Network.forces Network.g_edges].
  destruct (JS.RegExp (JS.toLowerCase next)) as [re2|]; [|reflexivity].
  rewrite <- (second_pass next re2 _ _ _ _ Hfirst).
  reflexivity.
Qed.

Lemma new_search_replaces_old_witness :
  Network.updateSearch
    (default Scenario.named (Network.updateSearch Scenario.named "b")) "x"
  = Network.updateSearch Scenario.named "x".
Proof.
  apply (new_search_replaces_old Scenario.named _ "b" "x"). reflexivity.
Defined.

(** * The order of the markers *)

(** X24.  When the window pushed by [update] is in order.  On a timeline
    of fewer than 1000 steps, with deltas that are not negative, a value
    in the domain that is clear of the ties and [r + aggregationDelta]
    below 1000 ([r] the rounded value): [past <= time <= aggregated] and
    [time <= future] hold, and [aggregated <= future] holds exactly when
    [r + aggregationDelta] does not pass the end of the timeline. *)
Theorem window_order_exactly (s : Slider.state) (net : Network.state) (t : Q) :
  (0 < Slider.timeSteps s < 1000)%Z ->
  (0 <= Slider.pastDelta s)%Z ->
  (0 <= Slider.aggregationDelta s)%Z ->
  (0 <= Slider.futureDelta s)%Z ->
  (0 <= t <= inject_Z (Slider.timeSteps s))%Q ->
  Slider64.clear_of_ties t ->
  (JS.toFixed0 t + Slider.aggregationDelta s < 1000)%Z ->
  let w := Network.time (snd (Slider64.update t (s, net))) in
  (TimeWindow.past w <= TimeWindow.time w)%Z
  /\ (TimeWindow.time w <= TimeWindow.aggregated w)%Z
  /\ (TimeWindow.time w <= TimeWindow.future w)%Z
  /\ ((TimeWindow.aggregated w <= TimeWindow.future w)%Z
      <-> (JS.toFixed0 t + Slider.aggregationDelta s <= Slider.timeSteps s)%Z).
Proof.
  intros HS Hp Ha Hf Ht Hclear Hsmall w.
  destruct (update_window64 s net t HS Hp Ha Hf Ht)
    as (_ & Hr & Htime & Hrest).
  destruct (Hrest Hclear) as (Hpast & Hfut & Hagg).
  fold w in Htime, Hpast, Hfut, Hagg.
  rewrite Htime, Hpast, Hfut, (Hagg Hsmall). lia.
Qed.

Lemma window_order_exactly_witness :
  let s := fst (Slider64.aggregationBtn (Slider.sliderMenu 10 0 0 2, Scenario.config)) in
  let w := Network.time (snd (Slider64.update 9 (s, Scenario.config))) in
  (TimeWindow.time w <= TimeWindow.aggregated w)%Z
  /\ ~ (TimeWindow.aggregated w <= TimeWindow.future w)%Z.
Proof.
  intros s w.
  assert (H1 : (0 < Slider.timeSteps s < 1000)%Z) by (vm_compute; auto).
  assert (H2 : (0 <= Slider.pastDelta s)%Z) by (vm_compute; discriminate).
  assert (H3 : (0 <= Slider.aggregationDelta s)%Z) by (vm_compute; discriminate).
  assert (H4 : (0 <= Slider.futureDelta s)%Z) by (vm_compute; discriminate).
  assert (H5 : (0 <= 9 <= inject_Z (Slider.timeSteps s))%Q)
    by (split; vm_compute; discriminate).
  assert (H6 : Slider64.clear_of_ties 9) by (split; vm_compute; discriminate).
  assert (H7 : (JS.toFixed0 9 + Slider.aggregationDelta s < 1000)%Z)
    by (vm_compute; reflexivity).
  destruct (window_order_exactly s Scenario.config 9 H1 H2 H3 H4 H5 H6 H7)
    as (_ & Hta & _ & Hiff).
  split; [exact Hta|].
  intros Hle. apply Hiff in Hle. vm_compute in Hle. apply Hle. reflexivity.
Defined.

(** * The force simulation *)

Section SimulationLife.
Import JS Simulation.

Variable d : Q.
Hypothesis d_range : (0 < d < 1)%Q.

Lemma sound_start : sound d forceSimulation.
Proof.
  unfold sound, forceSimulation, alphaMin. cbn. split; [nra|].
  left. split; [reflexivity | discriminate].
Qed.

Lemma step_cases (st : state) :
  let a := (alpha st + (alphaTarget st - alpha st) * d)%Q in
  ((a < alphaMin)%Q
   /\ step d st = mkState a (alphaTarget st) false (S (ends st)))
  \/ ((alphaMin <= a)%Q
      /\ step d st = mkState a (alphaTarget st) true (ends st)).
Proof.
  intros a. unfold step. fold a.
  destruct (Qltb a alphaMin) eqn:E;
    [apply Qltb_true in E; left | apply Qltb_false in E; right]; auto.
Qed.

Lemma sound_fire (st : state) (e : event) : sound d st -> sound d (fire d st e).
Proof.
  unfold sound, alphaMin. intros [Ha Ht].
  destruct e as [|active|active|]; cbn [fire].
  - cbn. split; [nra|]. destruct Ht as [[Ht _]|Ht]; [left | right; exact Ht].
    split; [exact Ht | intros _; lra].
  - destruct active; [split; assumption|]. cbn. split; [exact Ha | right; reflexivity].
  - destruct active; [split; assumption|]. cbn. split; [exact Ha | right; reflexivity].
  - destruct (running st) eqn:Er.
    2:{ split; [exact Ha|]. destruct Ht as [[Ht _]|Ht]; [left | right; exact Ht].
        split; [exact Ht | intros H; cbn in H; congruence]. }
    destruct (step_cases st) as [[Hlt ->] | [Hge ->]]; cbn; unfold alphaMin in *.
    + destruct Ht as [[Ht Hrun]|Ht].
      * specialize (Hrun eq_refl). split; [rewrite Ht; nra|].
        left. split; [exact Ht | discriminate].
      * rewrite Ht in Hlt |- *. split; [nra | right; reflexivity].
    + split; [nra|]. destruct Ht as [[Ht Hrun]|Ht]; [left | right; exact Ht].
      split; [exact Ht | intros _; exact Hge].
Qed.

Lemma sound_run (es : list event) :
  forall st, sound d st -> sound d (run d es st).
Proof.
  induction es as [|e es IH]; intros st H; [exact H|].
  apply IH, sound_fire, H.
Qed.

(** Once a drag has started, nothing stops the timer. *)
Lemma dragged_fire (st : state) (e : event) :
  dragged d st -> dragged d (fire d st e) /\ ends (fire d st e) = ends st.
Proof.
  unfold dragged, alphaMin. intros (Ha & Ht & Hr).
  destruct e as [|active|active|]; cbn [fire].
  - cbn. repeat split; [nra | exact Ht].
  - destruct active; cbn; repeat split; solve [assumption | reflexivity].
  - destruct active; cbn; repeat split; solve [assumption | reflexivity].
  - rewrite Hr. destruct (step_cases st) as [[Hlt ->] | [Hge ->]]; cbn;
      unfold alphaMin in *.
    + exfalso. rewrite Ht in Hlt. nra.
    + repeat split; [nra | exact Ht].
Qed.

Lemma dragged_run (es : list event) :
  forall st, dragged d st ->
             dragged d (run d es st) /\ ends (run d es st) = ends st.
Proof.
  induction es as [|e es IH]; intros st H; [auto|].
  destruct (dragged_fire st e H) as [H1 H2].
  destruct (IH _ H1) as [H3 H4].
  change (run d (e :: es) st) with (run d es (fire d st e)).
  split; [exact H3 | rewrite H4; exact H2].
Qed.

End SimulationLife.

(** X25.  Once a node has been dragged, the simulation does not settle
    again.  From the start of the first drag on (a drag that starts with
    no other drag under way), whatever renders, drags and frames follow,
    [alphaTarget] stays at 0.2, above [alphaMin = 0.1]: the timer keeps
    running and [end] is never dispatched again, so [ended] is not
    called.  ([alphaDecay] is any number between 0 and 1.) *)
Theorem never_settles_after_drag (alphaDecay : Q) (before after : list Simulation.event) :
  (0 < alphaDecay < 1)%Q ->
  let st1 :=
    Simulation.run alphaDecay (before ++ [Simulation.DragStarted false])
      Simulation.forceSimulation in
  let st := Simulation.run alphaDecay after st1 in
  Simulation.running st = true
  /\ (Simulation.alphaTarget st == 2 # 10)%Q
  /\ Simulation.ends st = Simulation.ends st1.
Proof.
  intros Hd st1 st.
  assert (H1 : Simulation.dragged alphaDecay st1).
  { subst st1. unfold Simulation.run. rewrite fold_left_app. cbn [fold_left].
    pose proof (sound_run alphaDecay Hd before _ (sound_start alphaDecay Hd)) as [Ha _].
    unfold Simulation.dragged. cbn. split; [exact Ha|]. split; reflexivity. }
  destruct (dragged_run alphaDecay Hd after st1 H1) as [(_ & Ht & Hr) He].
  auto.
Qed.

Lemma never_settles_after_drag_witness :
  let st1 :=
    Simulation.run (228 # 10000)
      ([Simulation.Render; Simulation.Frame] ++ [Simulation.DragStarted false])
      Simulation.forceSimulation in
  let st :=
    Simulation.run (228 # 10000)
      [Simulation.DragEnded false; Simulation.Frame; Simulation.Frame] st1 in
  Simulation.running st = true /\ Simulation.ends st = 0%nat.
Proof.
  assert (Hd : (0 < 228 # 10000 < 1)%Q) by (split; reflexivity).
  destruct (never_settles_after_drag (228 # 10000)
              [Simulation.Render; Simulation.Frame]
              [Simulation.DragEnded false; Simulation.Frame; Simulation.Frame] Hd)
    as (Hr & _ & He).
  split; [exact Hr|]. cbv zeta. rewrite He. vm_compute. reflexivity.
Defined.

Section SimulationSettles.
Import JS Simulation.

Variable d : Q.
Hypothesis d_range : (0 < d < 1)%Q.
Variable st0 : state.
Hypothesis no_drag : (alphaTarget st0 == 0)%Q.

Lemma run_app (a b : list event) (st : state) :
  run d (a ++ b) st = run d b (run d a st).
Proof. unfold run. apply fold_left_app. Qed.

(** The frames after a render, as long as no node is dragged: [alpha]
    goes down until the timer stops. *)
Lemma frames_after_render (k : nat) :
  let st := run d (repeat Frame k) (fire d st0 Render) in
  (alphaTarget st == 0)%Q
  /\ ((running st = true /\ ends st = ends st0
       /\ (0 <= alpha st <= 1)%Q
       /\ (alpha st * ((1 - d) + inject_Z (Z.of_nat k) * d) <= 1 - d)%Q
       /\ ((1 <= k)%nat -> (alphaMin <= alpha st)%Q))
      \/ (running st = false /\ ends st = S (ends st0)
          /\ (alpha st < alphaMin)%Q)).
Proof.
  induction k as [|k IH].
  - cbn. split; [exact no_drag|]. left.
    split; [reflexivity|]. split; [reflexivity|]. split; [split; lra|].
    change (inject_Z (Z.of_nat 0)) with 0%Q.
    split; [lra | intros H; inversion H].
  - cbn zeta in *. change (repeat Frame (S k)) with (Frame :: repeat Frame k).
    rewrite repeat_cons, run_app.
    set (st := run d (repeat Frame k) (fire d st0 Render)) in *.
    destruct IH as [Ht IH]. cbn [run fold_left fire].
    destruct IH as [(Hr & He & Ha & Hb & _) | (Hr & He & Ha)]; rewrite Hr.
    + assert (Hk : (inject_Z (Z.of_nat (S k)) == inject_Z (Z.of_nat k) + 1)%Q).
      { rewrite Nat2Z.inj_succ. unfold Z.succ. rewrite inject_Z_plus. reflexivity. }
      assert (Hk0 : (0 <= inject_Z (Z.of_nat k))%Q).
      { change 0%Q with (inject_Z 0). rewrite <- Zle_Qle. lia. }
      destruct (step_cases d st) as [[Hlt ->] | [Hge ->]]; cbn.
      * split; [exact Ht|]. right.
        split; [reflexivity|]. split; [congruence | exact Hlt].
      * split; [exact Ht|]. left.
        split; [reflexivity|]. split; [exact He|].
        rewrite Ht in Hge |- *. rewrite Hk.
        assert (Hprod : (alpha st * ((1 - d) + inject_Z (Z.of_nat k) * d) * (1 - d)
                         <= (1 - d) * (1 - d))%Q) by nra.
        assert (Hside : (alpha st * ((1 - d) * d) <= 1 * ((1 - d) * d))%Q).
        { apply Qmult_le_compat_r; [apply Ha | nra]. }
        assert (Heq : ((alpha st + (0 - alpha st) * d)
                       * (1 - d + (inject_Z (Z.of_nat k) + 1) * d)
                       == alpha st * ((1 - d) + inject_Z (Z.of_nat k) * d) * (1 - d)
                          + alpha st * ((1 - d) * d))%Q) by ring.
        split; [split; nra|]. split; [rewrite Heq; lra|]. intros _. exact Hge.
    + split; [exact Ht|]. right.
      split; [exact Hr|]. split; [exact He | exact Ha].
Qed.

Lemma frames_enough :
  (9 <= inject_Z (Z.of_nat (9 * Pos.to_nat (Qden d))) * d)%Q.
Proof.
  destruct d_range as [Hd _]. destruct d as [p q].
  unfold Qlt in Hd. unfold Qle. cbn in *.
  pose proof (positive_nat_Z q) as Hq. nia.
Qed.

End SimulationSettles.

(** X26.  Without a drag the simulation settles.  As long as no node
    has been dragged ([alphaTarget] is 0), a render followed by enough
    frames stops the timer: [alpha] has fallen below [alphaMin], and
    [end] has been dispatched exactly once since the render, however many
    frames follow.  ([alphaDecay] is any number between 0 and 1.) *)
Theorem settles_without_drag (alphaDecay : Q) (st0 : Simulation.state) :
  (0 < alphaDecay < 1)%Q ->
  (Simulation.alphaTarget st0 == 0)%Q ->
  exists n : nat,
    forall m, (n <= m)%nat ->
      let st :=
        Simulation.run alphaDecay (Simulation.Render :: repeat Simulation.Frame m) st0 in
      Simulation.running st = false
      /\ Simulation.ends st = S (Simulation.ends st0)
      /\ (Simulation.alpha st < Simulation.alphaMin)%Q.
Proof.
  intros Hd Ht. exists (9 * Pos.to_nat (Qden alphaDecay))%nat. intros m Hm st.
  pose proof (frames_after_render alphaDecay Hd st0 Ht m) as [_ H]. cbn zeta in H.
  change (Simulation.run alphaDecay (repeat Simulation.Frame m)
            (Simulation.fire alphaDecay st0 Simulation.Render)) with st in H.
  destruct H as [(_ & _ & Ha & Hb & Hmin) | H]; [|exact H].
  exfalso.
  pose proof (frames_enough alphaDecay Hd) as Hn.
  assert (Hm1 : (1 <= m)%nat) by (pose proof (Pos2Nat.is_pos (Qden alphaDecay)); lia).
  specialize (Hmin Hm1). unfold Simulation.alphaMin in Hmin.
  assert (Hmn : (inject_Z (Z.of_nat (9 * Pos.to_nat (Qden alphaDecay)))
                 <= inject_Z (Z.of_nat m))%Q) by (rewrite <- Zle_Qle; lia).
  assert (H9 : (9 <= inject_Z (Z.of_nat m) * alphaDecay)%Q).
  { eapply Qle_trans; [exact Hn|]. apply Qmult_le_compat_r; [exact Hmn | lra]. }
  assert (Hx : ((1 # 10) * ((1 - alphaDecay) + inject_Z (Z.of_nat m) * alphaDecay)
                <= Simulation.alpha st
                   * ((1 - alphaDecay) + inject_Z (Z.of_nat m) * alphaDecay))%Q).
  { apply Qmult_le_compat_r; [exact Hmin | lra]. }
  lra.
Qed.

Lemma settles_without_drag_witness :
  exists n : nat,
    forall m, (n <= m)%nat ->
      let st :=
        Simulation.run (228 # 10000) (Simulation.Render :: repeat Simulation.Frame m)
          Simulation.forceSimulation in
      Simulation.running st = false
      /\ Simulation.ends st = 1%nat
      /\ (Simulation.alpha st < Simulation.alphaMin)%Q.
Proof.
  assert (Hd : (0 < 228 # 10000 < 1)%Q) by (split; reflexivity).
  assert (Ht : (Simulation.alphaTarget Simulation.forceSimulation == 0)%Q)
    by reflexivity.
  exact (settles_without_drag (228 # 10000) Simulation.forceSimulation Hd Ht).
Defined.
